(** * Image drawing core of lvgl ([src/lv_draw/lv_draw_img.c])

    A shallow embedding of the pixel accessors, the format capability
    look-ups, the image source classifier and the two drawing routines
    [lv_img_draw_core] and [lv_draw_map], followed by the properties of the
    specification that were checked against them. *)

From stdpp Require Import base option list numbers list_numbers strings.
From Stdlib Require Import ZArith Lia Bool.

Local Open Scope Z_scope.

(** ** Machine integers

    [lv_opa_t] and the image bytes are [uint8_t], pixel offsets are
    [uint32_t], coordinates are [lv_coord_t], a 16 bit signed integer.
    Values are kept in [Z]; the conversions below are applied where the C
    code stores into a narrower type. *)

Definition to_u8 (z : Z) : Z := z `mod` 256.
Definition to_u16 (z : Z) : Z := z `mod` 65536.
Definition to_u32 (z : Z) : Z := z `mod` 2 ^ 32.
Definition to_coord (z : Z) : Z := (z + 32768) `mod` 65536 - 32768.

(** Modelled from the spec: the opacity constants of [lv_color.h], which is
    not among the sources; "fully transparent" and "fully opaque" are the
    two ends 0 and 255 of the opacity tables of the source. *)
Definition LV_OPA_TRANSP : Z := 0.
Definition LV_OPA_COVER : Z := 255.
Definition LV_COLOR_BLACK : Z := 0.

(** ** Build configuration

    [LV_COLOR_DEPTH] comes from [lv_conf.h].  [lv_draw_map] decodes a pixel
    only under [#if LV_COLOR_DEPTH == 8 / 16 / 32], so these are the three
    depths of the model. *)

Inductive color_depth : Type := Depth8 | Depth16 | Depth32.

(** Modelled from the spec: [sizeof(lv_color_t)], [LV_COLOR_SIZE] and
    [LV_IMG_PX_SIZE_ALPHA_BYTE] are set in [lv_color.h] and
    [lv_draw_img.h], which are not among the sources.  A colour takes
    [LV_COLOR_DEPTH / 8] bytes, and a pixel with alpha one byte more, "the
    trailing alpha byte, when present, is always the last byte of a pixel's
    encoding"; [lv_img_draw_core] sizes its line buffer accordingly,
    [(LV_COLOR_DEPTH >> 3) + 1] bytes per pixel. *)
Definition sizeof_lv_color_t (d : color_depth) : Z :=
  match d with Depth8 => 1 | Depth16 => 2 | Depth32 => 4 end.

Definition LV_COLOR_SIZE (d : color_depth) : Z :=
  match d with Depth8 => 8 | Depth16 => 16 | Depth32 => 32 end.

Definition LV_IMG_PX_SIZE_ALPHA_BYTE (d : color_depth) : Z :=
  match d with Depth8 => 2 | Depth16 => 3 | Depth32 => 4 end.

(** ** Data model *)

Inductive lv_img_cf_t : Type :=
  | LV_IMG_CF_UNKNOWN
  | LV_IMG_CF_RAW
  | LV_IMG_CF_RAW_ALPHA
  | LV_IMG_CF_RAW_CHROMA_KEYED
  | LV_IMG_CF_TRUE_COLOR
  | LV_IMG_CF_TRUE_COLOR_ALPHA
  | LV_IMG_CF_TRUE_COLOR_CHROMA_KEYED
  | LV_IMG_CF_INDEXED_1BIT
  | LV_IMG_CF_INDEXED_2BIT
  | LV_IMG_CF_INDEXED_4BIT
  | LV_IMG_CF_INDEXED_8BIT
  | LV_IMG_CF_ALPHA_1BIT
  | LV_IMG_CF_ALPHA_2BIT
  | LV_IMG_CF_ALPHA_4BIT
  | LV_IMG_CF_ALPHA_8BIT.

#[global] Instance lv_img_cf_eq_dec : EqDecision lv_img_cf_t.
Proof. solve_decision. Defined.

Record lv_img_header_t : Type := {
  header_cf : lv_img_cf_t;
  header_w : Z;
  header_h : Z
}.

(** [data] is the byte buffer [dsc->data] points to. *)
Record lv_img_dsc_t : Type := {
  header : lv_img_header_t;
  data : list Z
}.

(** The fields of [lv_style_t] the image code reads ([style->image.*]). *)
Record lv_style_t : Type := {
  image_color : Z;
  image_intense : Z;
  image_opa : Z
}.

Definition with_data (dsc : lv_img_dsc_t) (buf : list Z) : lv_img_dsc_t :=
  {| header := header dsc; data := buf |}.

(** ** Byte buffers

    An access outside the buffer is undefined behaviour in C; here it is the
    error [None].  [off] is the pointer adjustment ([buf_u8 += ...]) and [px]
    the [uint32_t] offset. *)

Definition buf_load (buf : list Z) (off px : Z) : option Z :=
  if bool_decide (0 <= off + px) then buf !! Z.to_nat (off + px) else None.

Definition buf_store (buf : list Z) (off px v : Z) : option (list Z) :=
  if bool_decide (0 <= off + px < Z.of_nat (length buf))
  then Some (<[Z.to_nat (off + px) := v]> buf)
  else None.

(** [memcpy] out of and into the buffer, byte by byte. *)
Fixpoint buf_load_n (buf : list Z) (px : Z) (n : nat) : option (list Z) :=
  match n with
  | O => Some []
  | S n' =>
      b ← buf_load buf 0 px;
      bs ← buf_load_n buf (px + 1) n';
      Some (b :: bs)
  end.

Fixpoint buf_store_n (buf : list Z) (px : Z) (bs : list Z) : option (list Z) :=
  match bs with
  | [] => Some buf
  | b :: bs' =>
      buf' ← buf_store buf 0 px b;
      buf_store_n buf' (px + 1) bs'
  end.

(** ** Format capability look-ups *)

Definition lv_img_color_format_get_px_size (d : color_depth) (cf : lv_img_cf_t) : Z :=
  match cf with
  | LV_IMG_CF_UNKNOWN | LV_IMG_CF_RAW => 0
  | LV_IMG_CF_TRUE_COLOR | LV_IMG_CF_TRUE_COLOR_CHROMA_KEYED => LV_COLOR_SIZE d
  | LV_IMG_CF_TRUE_COLOR_ALPHA => Z.shiftl (LV_IMG_PX_SIZE_ALPHA_BYTE d) 3
  | LV_IMG_CF_INDEXED_1BIT | LV_IMG_CF_ALPHA_1BIT => 1
  | LV_IMG_CF_INDEXED_2BIT | LV_IMG_CF_ALPHA_2BIT => 2
  | LV_IMG_CF_INDEXED_4BIT | LV_IMG_CF_ALPHA_4BIT => 4
  | LV_IMG_CF_INDEXED_8BIT | LV_IMG_CF_ALPHA_8BIT => 8
  | _ => 0
  end.

Definition lv_img_color_format_is_chroma_keyed (cf : lv_img_cf_t) : bool :=
  match cf with
  | LV_IMG_CF_TRUE_COLOR_CHROMA_KEYED
  | LV_IMG_CF_RAW_CHROMA_KEYED
  | LV_IMG_CF_INDEXED_1BIT
  | LV_IMG_CF_INDEXED_2BIT
  | LV_IMG_CF_INDEXED_4BIT
  | LV_IMG_CF_INDEXED_8BIT => true
  | _ => false
  end.

Definition lv_img_color_format_has_alpha (cf : lv_img_cf_t) : bool :=
  match cf with
  | LV_IMG_CF_TRUE_COLOR_ALPHA
  | LV_IMG_CF_RAW_ALPHA
  | LV_IMG_CF_ALPHA_1BIT
  | LV_IMG_CF_ALPHA_2BIT
  | LV_IMG_CF_ALPHA_4BIT
  | LV_IMG_CF_ALPHA_8BIT => true
  | _ => false
  end.

(** ** Pixel accessors *)

(** The clamping both getters start with:
    [if(v >= lim) v = lim - 1; else if(v < 0) v = 0;]. *)
Definition clamp_coord (v lim : Z) : Z :=
  if bool_decide (v >= lim) then to_coord (lim - 1)
  else if bool_decide (v < 0) then 0
  else v.

(** Offset of the byte holding pixel [(x, y)] of a bit-packed row:
    [((w + r) >> s) * y + (x >> s)] with [r = 7, 3, 1] and [s = 3, 2, 1]. *)
Definition packed_px (w x y r s : Z) : Z :=
  to_u32 (Z.shiftr (w + r) s * y + to_coord (Z.shiftr x s)).

(** [(byte & (m << sh)) >> sh] *)
Definition extract_bits (byte m sh : Z) : Z :=
  Z.shiftr (Z.land byte (Z.shiftl m sh)) sh.

(** [byte & ~(m << sh)] stored, then [byte | ((v & m) << sh)] stored. *)
Definition insert_bits (byte m sh v : Z) : Z :=
  to_u8 (Z.lor (to_u8 (Z.land byte (Z.lnot (Z.shiftl m sh))))
               (Z.shiftl (Z.land v m) sh)).

Definition opa_table_2 : list Z := [0; 85; 170; 255].
Definition opa_table_4 : list Z :=
  [0; 17; 34; 51; 68; 85; 102; 119; 136; 153; 170; 187; 204; 221; 238; 255].

Definition lv_img_buf_get_px_color (d : color_depth) (dsc : lv_img_dsc_t)
    (x y : Z) (style : option lv_style_t) : option Z :=
  let w := header_w (header dsc) in
  let x := clamp_coord x w in
  let y := clamp_coord y (header_h (header dsc)) in
  let buf_u8 := data dsc in
  match header_cf (header dsc) with
  | LV_IMG_CF_TRUE_COLOR | LV_IMG_CF_TRUE_COLOR_CHROMA_KEYED
  | LV_IMG_CF_TRUE_COLOR_ALPHA =>
      let px_size :=
        to_u8 (Z.shiftr (lv_img_color_format_get_px_size d (header_cf (header dsc))) 3) in
      let px := to_u32 (w * y * px_size + x * px_size) in
      bs ← buf_load_n buf_u8 px (Z.to_nat (sizeof_lv_color_t d));
      let p_color := little_endian_to_Z 8 bs in
      Some (match d with
            | Depth32 => Z.lor (Z.land p_color 16777215) (Z.shiftl 255 24)
            | _ => p_color
            end)
  | LV_IMG_CF_INDEXED_1BIT =>
      let bit := to_u8 (Z.land x 7) in
      b ← buf_load buf_u8 (4 * 2) (packed_px w x y 7 3);
      Some (extract_bits b 1 (7 - bit))
  | LV_IMG_CF_INDEXED_2BIT =>
      let bit := to_u8 (Z.land x 3 * 2) in
      b ← buf_load buf_u8 (4 * 4) (packed_px w x y 3 2);
      Some (extract_bits b 3 (6 - bit))
  | LV_IMG_CF_INDEXED_4BIT =>
      let bit := to_u8 (Z.land x 1 * 4) in
      b ← buf_load buf_u8 (4 * 16) (packed_px w x y 1 1);
      Some (extract_bits b 15 (4 - bit))
  | LV_IMG_CF_INDEXED_8BIT =>
      buf_load buf_u8 (4 * 256) (to_u32 (w * y + x))
  | LV_IMG_CF_ALPHA_1BIT | LV_IMG_CF_ALPHA_2BIT
  | LV_IMG_CF_ALPHA_4BIT | LV_IMG_CF_ALPHA_8BIT =>
      match style with
      | Some st => Some (image_color st)
      | None => Some LV_COLOR_BLACK
      end
  | _ => Some LV_COLOR_BLACK
  end.

Definition lv_img_buf_get_px_alpha (d : color_depth) (dsc : lv_img_dsc_t)
    (x y : Z) : option Z :=
  let w := header_w (header dsc) in
  let x := clamp_coord x w in
  let y := clamp_coord y (header_h (header dsc)) in
  let buf_u8 := data dsc in
  match header_cf (header dsc) with
  | LV_IMG_CF_TRUE_COLOR_ALPHA =>
      let sz := LV_IMG_PX_SIZE_ALPHA_BYTE d in
      let px := to_u32 (w * y * sz + x * sz) in
      buf_load buf_u8 0 (to_u32 (px + sz - 1))
  | LV_IMG_CF_ALPHA_1BIT =>
      let bit := to_u8 (Z.land x 7) in
      b ← buf_load buf_u8 0 (packed_px w x y 7 3);
      let px_opa := to_u8 (extract_bits b 1 (7 - bit)) in
      Some (if bool_decide (px_opa = 0) then LV_OPA_COVER else LV_OPA_TRANSP)
  | LV_IMG_CF_ALPHA_2BIT =>
      let bit := to_u8 (Z.land x 3 * 2) in
      b ← buf_load buf_u8 0 (packed_px w x y 3 2);
      let px_opa := to_u8 (extract_bits b 3 (6 - bit)) in
      opa_table_2 !! Z.to_nat px_opa
  | LV_IMG_CF_ALPHA_4BIT =>
      let bit := to_u8 (Z.land x 1 * 4) in
      b ← buf_load buf_u8 0 (packed_px w x y 1 1);
      let px_opa := to_u8 (extract_bits b 15 (4 - bit)) in
      opa_table_4 !! Z.to_nat px_opa
  | LV_IMG_CF_ALPHA_8BIT =>
      buf_load buf_u8 0 (to_u32 (w * y + x))
  | _ => Some LV_OPA_COVER
  end.

(** Read-modify-write of one bit field of a packed byte. *)
Definition buf_set_bits (buf : list Z) (off px m sh v : Z) : option (list Z) :=
  b ← buf_load buf off px;
  buf_store buf off px (insert_bits b m sh v).

Definition lv_img_buf_set_px_color (d : color_depth) (dsc : lv_img_dsc_t)
    (x y c : Z) : option lv_img_dsc_t :=
  let w := header_w (header dsc) in
  let buf_u8 := data dsc in
  match header_cf (header dsc) with
  | LV_IMG_CF_TRUE_COLOR | LV_IMG_CF_TRUE_COLOR_CHROMA_KEYED =>
      let px_size :=
        to_u8 (Z.shiftr (lv_img_color_format_get_px_size d (header_cf (header dsc))) 3) in
      let px := to_u32 (w * y * px_size + x * px_size) in
      with_data dsc <$> buf_store_n buf_u8 px (Z_to_little_endian px_size 8 c)
  | LV_IMG_CF_TRUE_COLOR_ALPHA =>
      let px_size :=
        to_u8 (Z.shiftr (lv_img_color_format_get_px_size d (header_cf (header dsc))) 3) in
      let px := to_u32 (w * y * px_size + x * px_size) in
      with_data dsc <$> buf_store_n buf_u8 px (Z_to_little_endian (px_size - 1) 8 c)
  | LV_IMG_CF_INDEXED_1BIT =>
      let bit := to_u8 (Z.land x 7) in
      with_data dsc <$> buf_set_bits buf_u8 (4 * 2) (packed_px w x y 7 3) 1 (7 - bit) c
  | LV_IMG_CF_INDEXED_2BIT =>
      let bit := to_u8 (Z.land x 3 * 2) in
      with_data dsc <$> buf_set_bits buf_u8 (4 * 4) (packed_px w x y 3 2) 3 (6 - bit) c
  | LV_IMG_CF_INDEXED_4BIT =>
      let bit := to_u8 (Z.land x 1 * 4) in
      with_data dsc <$> buf_set_bits buf_u8 (4 * 16) (packed_px w x y 1 1) 15 (4 - bit) c
  | LV_IMG_CF_INDEXED_8BIT =>
      with_data dsc <$> buf_store buf_u8 (4 * 256) (to_u32 (w * y + x)) (to_u8 c)
  | _ => Some dsc
  end.

Definition lv_img_buf_set_px_alpha (d : color_depth) (dsc : lv_img_dsc_t)
    (x y opa : Z) : option lv_img_dsc_t :=
  let w := header_w (header dsc) in
  let buf_u8 := data dsc in
  match header_cf (header dsc) with
  | LV_IMG_CF_TRUE_COLOR_ALPHA =>
      let px_size :=
        to_u8 (Z.shiftr (lv_img_color_format_get_px_size d (header_cf (header dsc))) 3) in
      let px := to_u32 (w * y * px_size + x * px_size) in
      with_data dsc <$> buf_store buf_u8 0 (to_u32 (px + px_size - 1)) opa
  | LV_IMG_CF_ALPHA_1BIT =>
      let opa := Z.shiftr opa 7 in
      let bit := to_u8 (Z.land x 7) in
      with_data dsc <$> buf_set_bits buf_u8 0 (packed_px w x y 7 3) 1 (7 - bit) opa
  | LV_IMG_CF_ALPHA_2BIT =>
      let opa := Z.shiftr opa 6 in
      let bit := to_u8 (Z.land x 3 * 2) in
      with_data dsc <$> buf_set_bits buf_u8 0 (packed_px w x y 3 2) 3 (6 - bit) opa
  | LV_IMG_CF_ALPHA_4BIT =>
      let opa := Z.shiftr opa 4 in
      let bit := to_u8 (Z.land x 1 * 4) in
      with_data dsc <$> buf_set_bits buf_u8 0 (packed_px w x y 1 1) 15 (4 - bit) opa
  | LV_IMG_CF_ALPHA_8BIT =>
      with_data dsc <$> buf_store buf_u8 0 (to_u32 (w * y + x)) opa
  | _ => Some dsc
  end.

(** ** Palette

    [lv_color_to32] is declared in [lv_color.h]; it is a parameter here.
    The result carries whether ["invalid 'id'"] was logged. *)

Definition lv_img_buf_set_palette (lv_color_to32 : Z -> Z) (dsc : lv_img_dsc_t)
    (id c : Z) : option (bool * lv_img_dsc_t) :=
  let cf := header_cf (header dsc) in
  if bool_decide ((cf = LV_IMG_CF_ALPHA_1BIT /\ id > 1) \/
                  (cf = LV_IMG_CF_ALPHA_2BIT /\ id > 3) \/
                  (cf = LV_IMG_CF_ALPHA_4BIT /\ id > 15) \/
                  cf = LV_IMG_CF_ALPHA_8BIT)
  then Some (true, dsc)
  else
    let c32 := lv_color_to32 c in
    buf ← buf_store_n (data dsc) (id * 4) (Z_to_little_endian 4 8 c32);
    Some (false, with_data dsc buf).

(** ** Image source classifier

    [src] is [NULL] ([None]) or points to the bytes of the source object. *)

Inductive lv_img_src_t : Type :=
  | LV_IMG_SRC_VARIABLE
  | LV_IMG_SRC_FILE
  | LV_IMG_SRC_SYMBOL
  | LV_IMG_SRC_UNKNOWN.

Definition lv_img_src_get_type (src : option (list Z)) : option lv_img_src_t :=
  match src with
  | None => Some LV_IMG_SRC_UNKNOWN
  | Some u8_p =>
      b ← buf_load u8_p 0 0;
      Some (if bool_decide (b >= 32 /\ b <= 127) then LV_IMG_SRC_FILE
            else if bool_decide (b >= 128) then LV_IMG_SRC_SYMBOL
            else LV_IMG_SRC_VARIABLE)
  end.

(** ** Areas *)

(** Modelled from the spec: [lv_area_t] and its helpers [lv_area_intersect],
    [lv_area_get_width], [lv_area_get_height] and [lv_area_set_height] live
    in [lv_misc/lv_area.c], which is not among the sources.  The spec
    describes them as "an axis-aligned integer rectangle; operations:
    intersect (returns empty/ok), width, height".  Both corners belong to
    the rectangle, as [for(row = mask_com.y1; row <= mask_com.y2; row++)]
    shows. *)
Record lv_area_t : Type := {
  x1 : Z;
  y1 : Z;
  x2 : Z;
  y2 : Z
}.

(** Modelled from the spec: [lv_area_intersect] of [lv_misc/lv_area.c],
    "intersect (returns empty/ok)"; [None] is the empty intersection. *)
Definition lv_area_intersect (a1_p a2_p : lv_area_t) : option lv_area_t :=
  let res_p := {| x1 := Z.max (x1 a1_p) (x1 a2_p);
                  y1 := Z.max (y1 a1_p) (y1 a2_p);
                  x2 := Z.min (x2 a1_p) (x2 a2_p);
                  y2 := Z.min (y2 a1_p) (y2 a2_p) |} in
  if bool_decide (x1 res_p > x2 res_p \/ y1 res_p > y2 res_p)
  then None
  else Some res_p.

(** Modelled from the spec: [lv_area_get_width], [lv_area_get_height] and
    [lv_area_set_height] of [lv_misc/lv_area.h], the "width, height" of a
    rectangle with both corners inside; the results are [lv_coord_t]. *)
Definition lv_area_get_width (a : lv_area_t) : Z := to_coord (x2 a - x1 a + 1).
Definition lv_area_get_height (a : lv_area_t) : Z := to_coord (y2 a - y1 a + 1).

Definition lv_area_set_height (a : lv_area_t) (hgt : Z) : lv_area_t :=
  {| x1 := x1 a; y1 := y1 a; x2 := x2 a; y2 := to_coord (y1 a + hgt - 1) |}.

(** ** Collaborators of the drawing routines *)

Inductive lv_mask_res_t : Type :=
  | LV_MASK_RES_FULL_TRANSP
  | LV_MASK_RES_FULL_COVER
  | LV_MASK_RES_CHANGED.

#[global] Instance lv_mask_res_eq_dec : EqDecision lv_mask_res_t.
Proof. solve_decision. Defined.

Inductive lv_blend_mode_t : Type := LV_BLEND_MODE_NORMAL.

(** One call of [lv_blend_map], with the contents of the colour and mask
    arrays at the time of the call ([bc_mask = None] is the [NULL] mask). *)
Record blend_call : Type := {
  bc_clip : lv_area_t;
  bc_area : lv_area_t;
  bc_map : list Z;
  bc_mask : option (list Z);
  bc_mask_res : lv_mask_res_t;
  bc_opa : Z;
  bc_mode : lv_blend_mode_t
}.

(** What [lv_draw_map] takes from the build configuration and from the
    ambient renderer state: [lv_conf.h] constants, the area of the display
    buffer being refreshed, the mask stack, [lv_color_mix], and the
    indeterminate initial contents of its two local arrays. *)
Record draw_env : Type := {
  LV_COLOR_DEPTH : color_depth;
  LV_HOR_RES_MAX : Z;
  LV_OPA_MIN : Z;
  LV_OPA_MAX : Z;
  LV_COLOR_TRANSP : Z;
  vdb_area : lv_area_t;
  lv_draw_mask_get_cnt : Z;
  lv_draw_mask_apply : list Z -> Z -> Z -> Z -> lv_mask_res_t * list Z;
  lv_color_mix : Z -> Z -> Z -> Z;
  map2_init : list Z;
  mask_buf_init : list Z
}.

(** [map_p] cast to a pointer to [lv_color_t]: the bytes read as an array
    of colours. *)
Fixpoint colors_of_bytes (sz : nat) (fuel : nat) (bytes : list Z) : list Z :=
  match fuel with
  | O => []
  | S fuel' =>
      match bytes with
      | [] => []
      | _ => little_endian_to_Z 8 (take sz bytes)
               :: colors_of_bytes sz fuel' (drop sz bytes)
      end
  end.

Definition as_color_array (d : color_depth) (bytes : list Z) : list Z :=
  colors_of_bytes (Z.to_nat (sizeof_lv_color_t d)) (length bytes) bytes.

(** ** [lv_draw_map] *)

(** [draw_area.x1 -= disp_area->x1; ...]: an area made relative to the
    display buffer. *)
Definition rel_area (disp_area a : lv_area_t) : lv_area_t :=
  {| x1 := to_coord (x1 a - x1 disp_area); y1 := to_coord (y1 a - y1 disp_area);
     x2 := to_coord (x2 a - x1 disp_area); y2 := to_coord (y2 a - y1 disp_area) |}.

Section DrawMap.
Variable env : draw_env.
Variables (map_area clip_area : lv_area_t) (map_p : list Z).
Variables (chroma_key alpha_byte : bool) (recolor recolor_opa : Z).

Definition px_size_byte : Z :=
  if alpha_byte then LV_IMG_PX_SIZE_ALPHA_BYTE (LV_COLOR_DEPTH env)
  else sizeof_lv_color_t (LV_COLOR_DEPTH env).

(** [c.full = map_px[0] + (map_px[1] << 8) + ...] under [#if LV_COLOR_DEPTH]. *)
Definition read_px_color (map_px : Z) : option Z :=
  match LV_COLOR_DEPTH env with
  | Depth8 => buf_load map_p map_px 0
  | Depth16 =>
      b0 ← buf_load map_p map_px 0;
      b1 ← buf_load map_p map_px 1;
      Some (b0 + Z.shiftl b1 8)
  | Depth32 =>
      b0 ← buf_load map_p map_px 0;
      b1 ← buf_load map_p map_px 1;
      b2 ← buf_load map_p map_px 2;
      Some (b0 + Z.shiftl b1 8 + Z.shiftl b2 16)
  end.

(** Body of the inner [for(x ...)] loop on the pair [(map2, mask_buf)]. *)
Definition draw_map_px (map_px px_i : Z) (bufs : list Z * list Z)
    : option (list Z * list Z) :=
  let '(map2, mask_buf) := bufs in
  '(mask_buf, skip) ←
    (if alpha_byte then
       px_opa ← buf_load map_p map_px (LV_IMG_PX_SIZE_ALPHA_BYTE (LV_COLOR_DEPTH env) - 1);
       mask_buf ← buf_store mask_buf 0 px_i px_opa;
       Some (mask_buf, bool_decide (px_opa < LV_OPA_MIN env))
     else
       mask_buf ← buf_store mask_buf 0 px_i LV_OPA_COVER;
       Some (mask_buf, false));
  if (skip : bool) then Some (map2, mask_buf)
  else
    c ← read_px_color map_px;
    if chroma_key && bool_decide (c = LV_COLOR_TRANSP env) then
      mask_buf ← buf_store mask_buf 0 px_i LV_OPA_TRANSP;
      Some (map2, mask_buf)
    else
      let c := if bool_decide (recolor_opa <> 0)
               then lv_color_mix env recolor c recolor_opa else c in
      map2 ← buf_store map2 0 px_i c;
      Some (map2, mask_buf).

(** The inner loop: [n] pixels from [map_px] on, cursor [px_i]. *)
Fixpoint draw_map_row (n : nat) (map_px px_i : Z) (bufs : list Z * list Z)
    : option (Z * (list Z * list Z)) :=
  match n with
  | O => Some (px_i, bufs)
  | S n' =>
      bufs' ← draw_map_px map_px px_i bufs;
      draw_map_row n' (map_px + px_size_byte) (to_u32 (px_i + 1)) bufs'
  end.

(** Loop state of the outer [for(y ...)] loop. *)
Record map_state : Type := {
  map_buf_tmp : Z;
  st_px_i : Z;
  st_map2 : list Z;
  st_mask_buf : list Z;
  blend_area : lv_area_t;
  st_mask_res : lv_mask_res_t;
  st_calls : list blend_call
}.

Definition blend_general (st : map_state) (area : lv_area_t) : blend_call :=
  {| bc_clip := clip_area; bc_area := area; bc_map := st_map2 st;
     bc_mask := Some (st_mask_buf st); bc_mask_res := st_mask_res st;
     bc_opa := LV_OPA_COVER; bc_mode := LV_BLEND_MODE_NORMAL |}.

Definition memset_mask_buf : list Z :=
  replicate (Z.to_nat (LV_HOR_RES_MAX env)) 255.

(** Body of the outer loop for row [y] of [draw_area] (relative to the
    display buffer). *)
Definition draw_map_line (draw_area : lv_area_t) (map_w : Z) (y : Z)
    (st : map_state) : option map_state :=
  let other_mask_cnt := lv_draw_mask_get_cnt env in
  let width := lv_area_get_width draw_area in
  let px_i_start := st_px_i st in
  let mask_res :=
    if alpha_byte || chroma_key then LV_MASK_RES_CHANGED else LV_MASK_RES_FULL_COVER in
  '(px_i, (map2, mask_buf)) ←
    draw_map_row (Z.to_nat width) (map_buf_tmp st) (st_px_i st)
                 (st_map2 st, st_mask_buf st);
  let '(mask_res, mask_buf) :=
    if bool_decide (other_mask_cnt <> 0) then
      let '(mask_res_sub, line) :=
        lv_draw_mask_apply env
          (take (Z.to_nat width) (drop (Z.to_nat px_i_start) mask_buf))
          (x1 draw_area + x1 (vdb_area env))
          (y + y1 draw_area + y1 (vdb_area env)) width in
      let mask_buf := list_inserts (Z.to_nat px_i_start) (take (Z.to_nat width) line) mask_buf in
      match mask_res_sub with
      | LV_MASK_RES_FULL_TRANSP =>
          (LV_MASK_RES_CHANGED,
           list_inserts (Z.to_nat px_i_start) (replicate (Z.to_nat width) 0) mask_buf)
      | LV_MASK_RES_CHANGED => (LV_MASK_RES_CHANGED, mask_buf)
      | LV_MASK_RES_FULL_COVER => (mask_res, mask_buf)
      end
    else (mask_res, mask_buf) in
  let map_buf_tmp' := map_buf_tmp st + map_w * px_size_byte in
  let st1 := {| map_buf_tmp := map_buf_tmp'; st_px_i := px_i; st_map2 := map2;
                st_mask_buf := mask_buf; blend_area := blend_area st;
                st_mask_res := mask_res; st_calls := st_calls st |} in
  if bool_decide (to_u32 (px_i + width) < LV_HOR_RES_MAX env) then
    Some {| map_buf_tmp := map_buf_tmp'; st_px_i := px_i; st_map2 := map2;
            st_mask_buf := mask_buf;
            blend_area := {| x1 := x1 (blend_area st); y1 := y1 (blend_area st);
                             x2 := x2 (blend_area st);
                             y2 := to_coord (y2 (blend_area st) + 1) |};
            st_mask_res := mask_res; st_calls := st_calls st |}
  else
    let y1' := to_coord (y2 (blend_area st) + 1) in
    Some {| map_buf_tmp := map_buf_tmp'; st_px_i := 0; st_map2 := map2;
            st_mask_buf := if bool_decide (other_mask_cnt <> 0)
                           then memset_mask_buf else mask_buf;
            blend_area := {| x1 := x1 (blend_area st); y1 := y1';
                             x2 := x2 (blend_area st); y2 := y1' |};
            st_mask_res := mask_res;
            st_calls := st_calls st ++ [blend_general st1 (blend_area st)] |}.

(** The outer loop: [n] rows starting at [y]. *)
Fixpoint draw_map_lines (draw_area : lv_area_t) (map_w : Z) (n : nat) (y : Z)
    (st : map_state) : option map_state :=
  match n with
  | O => Some st
  | S n' =>
      st' ← draw_map_line draw_area map_w y st;
      draw_map_lines draw_area map_w n' (to_coord (y + 1)) st'
  end.

(** The [else] branch of [lv_draw_map]: every pixel checked one by one.
    [draw_area] is already relative to the display buffer. *)
Definition draw_map_general (draw_area : lv_area_t) : option (list blend_call) :=
  let disp_area := vdb_area env in
  let other_mask_cnt := lv_draw_mask_get_cnt env in
  let map_w := lv_area_get_width map_area in
  let map_buf_tmp0 :=
    map_w * (y1 draw_area - (y1 map_area - y1 disp_area)) * px_size_byte
    + (x1 draw_area - (x1 map_area - x1 disp_area)) * px_size_byte in
  let bx1 := to_coord (x1 draw_area + x1 disp_area) in
  let by1 := to_coord (y1 disp_area + y1 draw_area) in
  let st0 := {| map_buf_tmp := map_buf_tmp0; st_px_i := 0;
                st_map2 := map2_init env;
                st_mask_buf := if bool_decide (other_mask_cnt <> 0)
                               then memset_mask_buf else mask_buf_init env;
                blend_area := {| x1 := bx1; y1 := by1;
                                 x2 := to_coord (bx1 + lv_area_get_width draw_area - 1);
                                 y2 := by1 |};
                st_mask_res := LV_MASK_RES_FULL_COVER; st_calls := [] |} in
  st ← draw_map_lines draw_area map_w
         (Z.to_nat (lv_area_get_height draw_area)) 0 st0;
  if bool_decide (y1 (blend_area st) <> y2 (blend_area st)) then
    let area := {| x1 := x1 (blend_area st); y1 := y1 (blend_area st);
                   x2 := x2 (blend_area st);
                   y2 := to_coord (y2 (blend_area st) - 1) |} in
    Some (st_calls st ++ [blend_general st area])
  else Some (st_calls st).

(** The bulk copy of the simplest case. *)
Definition draw_map_fast : list blend_call :=
  [ {| bc_clip := clip_area; bc_area := map_area;
       bc_map := as_color_array (LV_COLOR_DEPTH env) map_p;
       bc_mask := None; bc_mask_res := LV_MASK_RES_FULL_COVER;
       bc_opa := LV_OPA_COVER; bc_mode := LV_BLEND_MODE_NORMAL |} ].

Definition lv_draw_map (opa : Z) : option (list blend_call) :=
  if bool_decide (opa < LV_OPA_MIN env) then Some []
  else
    let opa := if bool_decide (opa > LV_OPA_MAX env) then LV_OPA_COVER else opa in
    match lv_area_intersect map_area clip_area with
    | None => Some []
    | Some draw_area =>
        let draw_area := rel_area (vdb_area env) draw_area in
        let other_mask_cnt := lv_draw_mask_get_cnt env in
        if bool_decide (other_mask_cnt = 0) && negb chroma_key && negb alpha_byte
           && bool_decide (opa = LV_OPA_COVER)
           && bool_decide (recolor_opa = LV_OPA_TRANSP)
        then Some draw_map_fast
        else draw_map_general draw_area
    end.
End DrawMap.

(** ** [lv_img_draw_core] and [lv_draw_img] *)

Inductive lv_res_t : Type := LV_RES_INV | LV_RES_OK.

#[global] Instance lv_res_eq_dec : EqDecision lv_res_t.
Proof. solve_decision. Defined.

(** The decoder descriptor inside a cache entry ([cdsc->dec_dsc]).
    [read_line x y len] stands for [lv_img_decoder_read_line]: the bytes it
    leaves in the line buffer, or [None] when it does not return
    [LV_RES_OK]. *)
Record lv_img_decoder_dsc_t : Type := {
  dec_header : lv_img_header_t;
  error_msg : option string;
  img_data : option (list Z);
  read_line : Z -> Z -> Z -> option (list Z)
}.

Record lv_img_cache_entry_t : Type := {
  dec_dsc : lv_img_decoder_dsc_t
}.

(** Calls to the collaborators, in program order. *)
Inductive draw_event : Type :=
  | EvCacheOpen (opened : bool)
  | EvDrawRect (coords mask : lv_area_t)
  | EvDrawLabel (coords mask : lv_area_t) (txt : string)
  | EvReadLine (x y len : Z) (ok : bool)
  | EvBlend (c : blend_call)
  | EvDecoderClose.

Definition no_data : string := "No" +:+ String (Ascii.ascii_of_nat 10) "data".

Section DrawCore.
Variable env : draw_env.
Variable lv_img_cache_open : list Z -> lv_style_t -> option lv_img_cache_entry_t.
Variables (coords mask : lv_area_t) (style : lv_style_t).

(** The [for(row ...)] loop of the line-by-line branch, [n] rows left. *)
Fixpoint draw_core_lines (cdsc : lv_img_cache_entry_t) (opa : Z)
    (chroma_keyed alpha_byte : bool) (width x : Z)
    (n : nat) (line : lv_area_t) (y : Z) : option (lv_res_t * list draw_event) :=
  match n with
  | O => Some (LV_RES_OK, [])
  | S n' =>
      match read_line (dec_dsc cdsc) x y width with
      | None => Some (LV_RES_INV, [EvReadLine x y width false; EvDecoderClose])
      | Some buf =>
          calls ← lv_draw_map env line mask buf chroma_keyed alpha_byte
                    (image_color style) (image_intense style) opa;
          let line' := {| x1 := x1 line; y1 := to_coord (y1 line + 1);
                          x2 := x2 line; y2 := to_coord (y2 line + 1) |} in
          '(res, tr) ← draw_core_lines cdsc opa chroma_keyed alpha_byte width x
                         n' line' (to_coord (y + 1));
          Some (res, EvReadLine x y width true :: (EvBlend <$> calls) ++ tr)
      end
  end.

Definition lv_img_draw_core (src : list Z) (opa_scale : Z)
    : option (lv_res_t * list draw_event) :=
  match lv_area_intersect mask coords with
  | None => Some (LV_RES_OK, [])
  | Some mask_com =>
      let opa :=
        if bool_decide (opa_scale = LV_OPA_COVER) then image_opa style
        else to_u8 (Z.shiftr (to_u16 (to_u16 (image_opa style) * opa_scale)) 8) in
      match lv_img_cache_open src style with
      | None => Some (LV_RES_INV, [EvCacheOpen false])
      | Some cdsc =>
          let cf := header_cf (dec_header (dec_dsc cdsc)) in
          let chroma_keyed := lv_img_color_format_is_chroma_keyed cf in
          let alpha_byte := lv_img_color_format_has_alpha cf in
          match error_msg (dec_dsc cdsc) with
          | Some msg =>
              Some (LV_RES_OK,
                    [EvCacheOpen true; EvDrawRect coords mask;
                     EvDrawLabel coords mask msg])
          | None =>
              match img_data (dec_dsc cdsc) with
              | Some map_p =>
                  calls ← lv_draw_map env coords mask map_p chroma_keyed alpha_byte
                            (image_color style) (image_intense style) opa;
                  Some (LV_RES_OK, EvCacheOpen true :: (EvBlend <$> calls))
              | None =>
                  let width := lv_area_get_width mask_com in
                  let line := lv_area_set_height mask_com 1 in
                  let x := to_coord (x1 mask_com - x1 coords) in
                  let y := to_coord (y1 mask_com - y1 coords) in
                  '(res, tr) ← draw_core_lines cdsc opa chroma_keyed alpha_byte width x
                                 (Z.to_nat (y2 mask_com - y1 mask_com + 1)) line y;
                  Some (res, EvCacheOpen true :: tr)
              end
          end
      end
  end.

Definition lv_draw_img (src : option (list Z)) (opa_scale : Z)
    : option (list draw_event) :=
  match src with
  | None => Some [EvDrawRect coords mask; EvDrawLabel coords mask no_data]
  | Some src =>
      '(res, tr) ← lv_img_draw_core src opa_scale;
      if bool_decide (res = LV_RES_INV)
      then Some (tr ++ [EvDrawRect coords mask; EvDrawLabel coords mask no_data])
      else Some tr
  end.
End DrawCore.

(** ** The blend primitive *)

(** The destination buffer: a colour per absolute display coordinate. *)
Definition canvas : Type := Z -> Z -> Z.

Definition area_contains (a : lv_area_t) (X Y : Z) : bool :=
  bool_decide (x1 a <= X <= x2 a /\ y1 a <= Y <= y2 a).

(** Modelled from the spec: [lv_blend_map] is defined in
    [lv_draw/lv_draw_blend.c], which is not among the sources.  The spec says
    of it: "bulk-copy pixel bytes for the intersection directly to the
    destination via the blend primitive with full-coverage semantics", with
    the interface "blend(clip_rect, block_rect, colors, alphas_or_none,
    alpha_semantics, opacity, mode), writing into the destination buffer".
    With full-cover semantics and full opacity, the colour array, laid out
    row by row over the block area, is copied into the part of the block
    inside the clip area.  What happens under the other semantics is left to
    [blend_other]. *)
Definition lv_blend_map (blend_other : blend_call -> canvas -> canvas)
    (c : blend_call) (dest : canvas) : canvas :=
  if bool_decide (bc_mask_res c = LV_MASK_RES_FULL_COVER /\ bc_opa c = LV_OPA_COVER)
  then fun X Y =>
         if area_contains (bc_clip c) X Y && area_contains (bc_area c) X Y
         then bc_map c !!! Z.to_nat ((Y - y1 (bc_area c)) * lv_area_get_width (bc_area c)
                                     + (X - x1 (bc_area c)))
         else dest X Y
  else blend_other c dest.

Definition run_blends (blend_other : blend_call -> canvas -> canvas)
    (calls : list blend_call) (dest : canvas) : canvas :=
  foldl (fun acc c => lv_blend_map blend_other c acc) dest calls.

(** ** Buffer layout *)

(** Modelled from the spec: the size of the buffer behind [dsc->data] is set
    by the [LV_IMG_BUF_SIZE_...] macros and the decoder, outside the
    sources.  The spec gives the layout: "buffer layout is exactly
    [palette bytes][pixel rows]; row byte stride for sub-byte-per-pixel
    formats is ceil(width * bits_per_pixel / 8) bytes", with a palette of
    "2/4/16/256 four-byte color entries" for the indexed formats. *)
Definition palette_entries (cf : lv_img_cf_t) : Z :=
  match cf with
  | LV_IMG_CF_INDEXED_1BIT => 2
  | LV_IMG_CF_INDEXED_2BIT => 4
  | LV_IMG_CF_INDEXED_4BIT => 16
  | LV_IMG_CF_INDEXED_8BIT => 256
  | _ => 0
  end.

(** Modelled from the spec: "row byte stride ... is
    ceil(width * bits_per_pixel / 8) bytes, i.e. rows are byte-aligned". *)
Definition row_stride (bpp w : Z) : Z := (w * bpp + 7) `div` 8.

(** Modelled from the spec: "[palette bytes][pixel rows]". *)
Definition img_buf_size (d : color_depth) (hd : lv_img_header_t) : Z :=
  4 * palette_entries (header_cf hd)
  + row_stride (lv_img_color_format_get_px_size d (header_cf hd)) (header_w hd)
    * header_h hd.

(** Modelled from the spec: a descriptor whose buffer has at least the size
    of its layout; width and height are positive and fit the 11 bit fields
    of [lv_img_header_t] ([lv_img_decoder.h], not among the sources). *)
Definition dsc_wf (d : color_depth) (dsc : lv_img_dsc_t) : Prop :=
  0 < header_w (header dsc) < 2048 /\ 0 < header_h (header dsc) < 2048 /\
  img_buf_size d (header dsc) <= Z.of_nat (length (data dsc)).

(** Modelled from the spec: the raw [bpp]-bit value stored for pixel
    [(x, y)] of a "byte-aligned bit-packed row (most-significant bits first
    within a byte)", the rows starting [off] bytes into the buffer. *)
Definition stored_bits (bpp off : Z) (dsc : lv_img_dsc_t) (x y : Z) : option Z :=
  let per_byte := 8 `div` bpp in
  b ← data dsc !! Z.to_nat (off + row_stride bpp (header_w (header dsc)) * y
                             + x `div` per_byte);
  Some ((b `div` 2 ^ (8 - bpp * (x `mod` per_byte + 1))) `mod` 2 ^ bpp).

(** The three bit packings of the code, as (bits per pixel, rounding term
    of the stride, shift of the column): [((w + r) >> s) * y + (x >> s)]. *)
Inductive packing : Z -> Z -> Z -> Prop :=
  | packing_1 : packing 1 7 3
  | packing_2 : packing 2 3 2
  | packing_4 : packing 4 1 1.

(** The nearest coordinate inside [[0, lim)]. *)
Definition clamped (v lim : Z) : Z := Z.max 0 (Z.min v (lim - 1)).

Definition alpha_only (cf : lv_img_cf_t) : Prop :=
  cf = LV_IMG_CF_ALPHA_1BIT \/ cf = LV_IMG_CF_ALPHA_2BIT \/
  cf = LV_IMG_CF_ALPHA_4BIT \/ cf = LV_IMG_CF_ALPHA_8BIT.

Definition indexed (cf : lv_img_cf_t) : Prop :=
  cf = LV_IMG_CF_INDEXED_1BIT \/ cf = LV_IMG_CF_INDEXED_2BIT \/
  cf = LV_IMG_CF_INDEXED_4BIT \/ cf = LV_IMG_CF_INDEXED_8BIT.

(** ** Vocabulary of the drawing properties *)

(** Coordinates far from the ends of [lv_coord_t], so that no sum or
    difference of two of them wraps. *)
Definition area_small (a : lv_area_t) : Prop :=
  -8192 <= x1 a <= 8191 /\ -8192 <= y1 a <= 8191 /\
  -8192 <= x2 a <= 8191 /\ -8192 <= y2 a <= 8191.

(** The one-row area [line] after [j] times [line.y1++; line.y2++]. *)
Definition shift_line (line : lv_area_t) (j : Z) : lv_area_t :=
  {| x1 := x1 line; y1 := y1 line + j; x2 := x2 line; y2 := y2 line + j |}.

(** Events of rows that were read and composited, row [j] giving the blend
    calls [rows !! j]. *)
Definition rows_trace (x y width : Z) (rows : list (list blend_call)) : list draw_event :=
  concat (imap (fun j calls => EvReadLine x (y + Z.of_nat j) width true :: (EvBlend <$> calls))
               rows).

Definition read_failed (tr : list draw_event) : Prop :=
  exists x y len, In (EvReadLine x y len false) tr.

(** A blend call of the per-pixel path passes a mask array; the bulk copy
    passes [NULL]. *)
Definition has_mask (c : blend_call) : Prop := bc_mask c <> None.

(** The colour [lv_draw_map] decodes from a stored [lv_color_t]: at 32 bit
    only the three colour bytes are read. *)
Definition decoded_color (d : color_depth) (c : Z) : Z :=
  match d with
  | Depth32 => Z.land c 16777215
  | _ => c
  end.

(** The colour the per-pixel path stores for pixel [idx] of the source. *)
Definition general_px (env : draw_env) (map_p : list Z) (idx : Z) : Z :=
  decoded_color (LV_COLOR_DEPTH env)
    (as_color_array (LV_COLOR_DEPTH env) map_p !!! Z.to_nat idx).

(** Index in the source of the pixel drawn at display position [(X, Y)]. *)
Definition src_index (map_area : lv_area_t) (X Y : Z) : Z :=
  (Y - y1 map_area) * (x2 map_area - x1 map_area + 1) + (X - x1 map_area).

(** Loop invariant of the per-pixel path when it only copies: [r] rows of
    the draw area are decoded, those from row [s] on are still in [map2],
    the earlier ones have been blended. *)
Record general_inv (env : draw_env) (map_area draw : lv_area_t) (map_p : list Z)
    (blend_other : blend_call -> canvas -> canvas) (dest : canvas)
    (r s : Z) (st : map_state) : Prop := {
  inv_rows : 0 <= s <= r;
  inv_tmp : map_buf_tmp st
            = src_index map_area (x1 draw) (y1 draw + r)
              * sizeof_lv_color_t (LV_COLOR_DEPTH env);
  inv_px_i : st_px_i st = (r - s) * (x2 draw - x1 draw + 1);
  inv_room : (r - s) * (x2 draw - x1 draw + 1) + (x2 draw - x1 draw + 1)
             <= LV_HOR_RES_MAX env;
  inv_len2 : Z.of_nat (length (st_map2 st)) = LV_HOR_RES_MAX env;
  inv_lenb : Z.of_nat (length (st_mask_buf st)) = LV_HOR_RES_MAX env;
  inv_area : blend_area st
             = {| x1 := x1 draw; y1 := y1 draw + s; x2 := x2 draw; y2 := y1 draw + r |};
  inv_res : st_mask_res st = LV_MASK_RES_FULL_COVER;
  inv_map2 : forall j i,
      0 <= j < r - s -> 0 <= i < x2 draw - x1 draw + 1 ->
      st_map2 st !! Z.to_nat (j * (x2 draw - x1 draw + 1) + i)
      = Some (general_px env map_p (src_index map_area (x1 draw + i) (y1 draw + s + j)));
  inv_canvas : forall X Y,
      run_blends blend_other (st_calls st) dest X Y
      = if bool_decide (x1 draw <= X <= x2 draw /\ y1 draw <= Y < y1 draw + s)
        then general_px env map_p (src_index map_area X Y)
        else dest X Y
}.

(** ** Vocabulary of the codec and drawing properties, continued *)

(** What a write into an indexed image does, as seen through the getter:
    the pixel reads back as [c] cut to [bits] bits, the other pixels and the
    bytes below [off] keep their values. *)
Definition indexed_write_facts (d : color_depth) (dsc : lv_img_dsc_t) (x y c : Z)
    (style : option lv_style_t) (bits off : Z) (dsc' : lv_img_dsc_t) : Prop :=
  lv_img_buf_set_px_color d dsc x y c = Some dsc'
  /\ lv_img_buf_get_px_color d dsc' x y style = Some (c `mod` 2 ^ bits)
  /\ (forall x' y',
        0 <= x' < header_w (header dsc) -> 0 <= y' < header_h (header dsc) ->
        (x', y') <> (x, y) ->
        lv_img_buf_get_px_color d dsc' x' y' style
        = lv_img_buf_get_px_color d dsc x' y' style)
  /\ (forall k : nat, Z.of_nat k < off -> data dsc' !! k = data dsc !! k).

(** A write of the alpha of pixel [(x, y)] that leaves the alpha of every
    other pixel as it was. *)
Definition alpha_write_frame (d : color_depth) (dsc : lv_img_dsc_t) (x y opa : Z)
    (dsc' : lv_img_dsc_t) : Prop :=
  lv_img_buf_set_px_alpha d dsc x y opa = Some dsc'
  /\ forall x' y',
       0 <= x' < header_w (header dsc) -> 0 <= y' < header_h (header dsc) ->
       (x', y') <> (x, y) ->
       lv_img_buf_get_px_alpha d dsc' x' y' = lv_img_buf_get_px_alpha d dsc x' y'.

(** The formats that store one [lv_color_t] per pixel, with or without
    an alpha byte after it. *)
Definition true_color (cf : lv_img_cf_t) : Prop :=
  cf = LV_IMG_CF_TRUE_COLOR \/ cf = LV_IMG_CF_TRUE_COLOR_ALPHA \/
  cf = LV_IMG_CF_TRUE_COLOR_CHROMA_KEYED.

(** Bytes from one pixel of a true colour image to the next:
    [lv_img_color_format_get_px_size(cf) >> 3]. *)
Definition tc_pitch (d : color_depth) (cf : lv_img_cf_t) : Z :=
  to_u8 (Z.shiftr (lv_img_color_format_get_px_size d cf) 3).

(** Bytes [lv_img_buf_set_px_color] copies: all of the pixel, or all but the
    alpha byte. *)
Definition tc_written (d : color_depth) (cf : lv_img_cf_t) : Z :=
  match cf with
  | LV_IMG_CF_TRUE_COLOR_ALPHA => tc_pitch d cf - 1
  | _ => tc_pitch d cf
  end.

(** [p_color.ch.alpha = 0xFF] under [#if LV_COLOR_SIZE == 32]. *)
Definition force_alpha (d : color_depth) (c : Z) : Z :=
  match d with
  | Depth32 => Z.lor (Z.land c 16777215) (Z.shiftl 255 24)
  | _ => c
  end.

(** What [lv_img_buf_get_px_color] returns for a colour [c] written with
    [lv_img_buf_set_px_color]. *)
Definition color_readback (d : color_depth) (c : Z) : Z :=
  match d with
  | Depth8 => c `mod` 2 ^ 8
  | Depth16 => c `mod` 2 ^ 16
  | Depth32 => Z.lor (c `mod` 2 ^ 24) (Z.shiftl 255 24)
  end.

(** What a write of [bs] at byte [q] leaves in the buffer. *)
Definition written_at (buf buf' : list Z) (q : Z) (bs : list Z) : Prop :=
  length buf' = length buf
  /\ forall k : nat,
       buf' !! k = if bool_decide (q <= Z.of_nat k < q + Z.of_nat (length bs))
                   then bs !! (k - Z.to_nat q)%nat
                   else buf !! k.

(** The opacity [lv_img_buf_get_px_alpha] returns for a pixel written with
    [lv_img_buf_set_px_alpha]: the 2 and 4 bit formats keep the upper bits
    and scale them back. *)
Definition alpha_readback (cf : lv_img_cf_t) (v : Z) : Z :=
  match cf with
  | LV_IMG_CF_ALPHA_2BIT => 85 * (v `div` 64)
  | LV_IMG_CF_ALPHA_4BIT => 17 * (v `div` 16)
  | _ => v
  end.

(** Distance between two neighbouring opacities of a format. *)
Definition alpha_step (cf : lv_img_cf_t) : Z :=
  match cf with
  | LV_IMG_CF_ALPHA_2BIT => 85
  | LV_IMG_CF_ALPHA_4BIT => 17
  | _ => 1
  end.

(** The formats whose alpha channel survives a write followed by a read. *)
Definition alpha_multibit (cf : lv_img_cf_t) : Prop :=
  cf = LV_IMG_CF_ALPHA_2BIT \/ cf = LV_IMG_CF_ALPHA_4BIT \/
  cf = LV_IMG_CF_ALPHA_8BIT \/ cf = LV_IMG_CF_TRUE_COLOR_ALPHA.

(** What every call of [lv_blend_map] made by [lv_draw_map] has in common:
    the clip area handed through, full opacity, the normal blend mode. *)
Definition opaque_call (clip_area : lv_area_t) (c : blend_call) : Prop :=
  bc_clip c = clip_area /\ bc_opa c = LV_OPA_COVER /\ bc_mode c = LV_BLEND_MODE_NORMAL.

(** The conditions under which [lv_draw_map] cannot take the bulk copy,
    whatever the opacity. *)
Definition per_pixel_only (env : draw_env) (chroma_key alpha_byte : bool)
    (recolor_opa : Z) : Prop :=
  lv_draw_mask_get_cnt env <> 0 \/ chroma_key = true \/ alpha_byte = true
  \/ recolor_opa <> LV_OPA_TRANSP.

(** ** Pixel rules of the per-pixel path *)

Section PixelRules.
Variable env : draw_env.
Variable map_p : list Z.
Variables (chroma_key alpha_byte : bool) (recolor recolor_opa : Z).

(** The alpha of source pixel [idx]: its last byte, or full cover when the
    format has no alpha byte. *)
Definition px_alpha (idx : Z) : Z :=
  if alpha_byte
  then map_p !!! Z.to_nat (idx * px_size_byte env alpha_byte
                           + (LV_IMG_PX_SIZE_ALPHA_BYTE (LV_COLOR_DEPTH env) - 1))
  else LV_OPA_COVER.

(** The colour decoded from source pixel [idx]. *)
Definition px_color (idx : Z) : Z :=
  default 0 (read_px_color env map_p (idx * px_size_byte env alpha_byte)).

(** A pixel left out because its alpha is below [LV_OPA_MIN]. *)
Definition px_skipped (idx : Z) : bool :=
  alpha_byte && bool_decide (px_alpha idx < LV_OPA_MIN env).

(** A decoded pixel that has the chroma key colour. *)
Definition px_keyed (idx : Z) : bool :=
  negb (px_skipped idx) && chroma_key
  && bool_decide (px_color idx = LV_COLOR_TRANSP env).

(** The mask value of source pixel [idx]. *)
Definition px_mask (idx : Z) : Z :=
  if px_keyed idx then LV_OPA_TRANSP else px_alpha idx.

(** The colour stored for source pixel [idx], if any is. *)
Definition px_out (idx : Z) : option Z :=
  if px_skipped idx || px_keyed idx then None
  else Some (if bool_decide (recolor_opa <> 0)
             then lv_color_mix env recolor (px_color idx) recolor_opa
             else px_color idx).
End PixelRules.

(** [mask_res] of a row when no other mask is active:
    [(alpha_byte || chroma_key) ? LV_MASK_RES_CHANGED : LV_MASK_RES_FULL_COVER]. *)
Definition flag_mask_res (chroma_key alpha_byte : bool) : lv_mask_res_t :=
  if alpha_byte || chroma_key then LV_MASK_RES_CHANGED else LV_MASK_RES_FULL_COVER.

(** Rows gathered in [map2] before a flush, for rows of [W] pixels. *)
Definition block_rows (env : draw_env) (W : Z) : Z :=
  Z.max 1 ((LV_HOR_RES_MAX env - 1) `div` W).

(** The [k]-th block of [n] full rows of the area [a]. *)
Definition full_block (a : lv_area_t) (n k : Z) : lv_area_t :=
  {| x1 := x1 a; y1 := y1 a + k * n; x2 := x2 a; y2 := y1 a + k * n + n - 1 |}.

(** The area [a] cut into blocks of [n] rows from the top, the last block
    holding the rows that are left. *)
Definition row_blocks (a : lv_area_t) (n : Z) : list lv_area_t :=
  let H := y2 a - y1 a + 1 in
  (full_block a n <$> seqZ 0 (H `div` n))
  ++ (if bool_decide (H `mod` n = 0) then []
      else [ {| x1 := x1 a; y1 := y1 a + H `div` n * n; x2 := x2 a; y2 := y2 a |} ]).

(** Place of display position [(X, Y)] in the arrays of a blend call. *)
Definition call_offset (c : blend_call) (X Y : Z) : nat :=
  Z.to_nat ((Y - y1 (bc_area c)) * (x2 (bc_area c) - x1 (bc_area c) + 1)
            + (X - x1 (bc_area c))).

(** A blend call whose mask and colour arrays hold, for every position of
    its area, what the pixel rules give for the source pixel shown there. *)
Definition call_decodes (env : draw_env) (map_area : lv_area_t) (map_p : list Z)
    (chroma_key alpha_byte : bool) (recolor recolor_opa : Z) (c : blend_call) : Prop :=
  bc_mask_res c = flag_mask_res chroma_key alpha_byte
  /\ forall X Y,
       x1 (bc_area c) <= X <= x2 (bc_area c) -> y1 (bc_area c) <= Y <= y2 (bc_area c) ->
       (exists mb, bc_mask c = Some mb
                   /\ mb !! call_offset c X Y
                      = Some (px_mask env map_p chroma_key alpha_byte
                                (src_index map_area X Y)))
       /\ forall col,
            px_out env map_p chroma_key alpha_byte recolor recolor_opa
              (src_index map_area X Y) = Some col ->
            bc_map c !! call_offset c X Y = Some col.

(** Loop invariant of the per-pixel path: [r] rows are decoded, [q] full
    blocks are flushed and [p] rows wait in the arrays; what the arrays hold
    is known when no other mask is active. *)
Record block_inv (env : draw_env) (map_area clip_area draw : lv_area_t) (map_p : list Z)
    (chroma_key alpha_byte : bool) (recolor recolor_opa : Z)
    (r q p : Z) (st : map_state) : Prop := {
  bi_split : r = q * block_rows env (x2 draw - x1 draw + 1) + p /\ 0 <= q
             /\ 0 <= p < block_rows env (x2 draw - x1 draw + 1);
  bi_tmp : map_buf_tmp st
           = src_index map_area (x1 draw) (y1 draw + r) * px_size_byte env alpha_byte;
  bi_px_i : st_px_i st = p * (x2 draw - x1 draw + 1);
  bi_len2 : Z.of_nat (length (st_map2 st)) = LV_HOR_RES_MAX env;
  bi_lenb : Z.of_nat (length (st_mask_buf st)) = LV_HOR_RES_MAX env;
  bi_area : blend_area st
            = {| x1 := x1 draw;
                 y1 := y1 draw + q * block_rows env (x2 draw - x1 draw + 1);
                 x2 := x2 draw; y2 := y1 draw + r |};
  bi_res : lv_draw_mask_get_cnt env = 0 -> 0 < r ->
           st_mask_res st = flag_mask_res chroma_key alpha_byte;
  bi_pending : lv_draw_mask_get_cnt env = 0 -> forall j i,
      0 <= j < p -> 0 <= i < x2 draw - x1 draw + 1 ->
      st_mask_buf st !! Z.to_nat (j * (x2 draw - x1 draw + 1) + i)
      = Some (px_mask env map_p chroma_key alpha_byte
                (src_index map_area (x1 draw + i)
                   (y1 draw + q * block_rows env (x2 draw - x1 draw + 1) + j)))
      /\ forall col,
           px_out env map_p chroma_key alpha_byte recolor recolor_opa
             (src_index map_area (x1 draw + i)
                (y1 draw + q * block_rows env (x2 draw - x1 draw + 1) + j)) = Some col ->
           st_map2 st !! Z.to_nat (j * (x2 draw - x1 draw + 1) + i) = Some col;
  bi_areas : bc_area <$> st_calls st
             = full_block draw (block_rows env (x2 draw - x1 draw + 1)) <$> seqZ 0 q;
  bi_calls : Forall (fun c => bc_clip c = clip_area
                              /\ (lv_draw_mask_get_cnt env = 0 ->
                                  call_decodes env map_area map_p chroma_key alpha_byte
                                    recolor recolor_opa c))
                    (st_calls st)
}.

(** The two calls [lv_draw_img] makes when it has nothing to show. *)
Definition placeholder (coords mask : lv_area_t) : list draw_event :=
  [EvDrawRect coords mask; EvDrawLabel coords mask no_data].

(** The inputs with which [lv_draw_map], from [LV_OPA_MIN] on, checks every
    pixel: the bulk copy is ruled out, or the opacity is neither
    [LV_OPA_COVER] nor above [LV_OPA_MAX]. *)
Definition per_pixel_path (env : draw_env) (chroma_key alpha_byte : bool)
    (recolor_opa opa : Z) : Prop :=
  per_pixel_only env chroma_key alpha_byte recolor_opa
  \/ (opa <= LV_OPA_MAX env /\ opa <> LV_OPA_COVER).

(** ** Concrete inputs used by the examples *)

Definition img (cf : lv_img_cf_t) (w h : Z) (buf : list Z) : lv_img_dsc_t :=
  {| header := {| header_cf := cf; header_w := w; header_h := h |}; data := buf |}.

Definition area (a b c e : Z) : lv_area_t := {| x1 := a; y1 := b; x2 := c; y2 := e |}.

(** A display buffer 8 pixels wide and 10 rows high, no masks active,
    [LV_COLOR_TRANSP] the 16-bit lime of the icon sources. *)
Definition env_ex (d : color_depth) : draw_env :=
  {| LV_COLOR_DEPTH := d; LV_HOR_RES_MAX := 8; LV_OPA_MIN := 16; LV_OPA_MAX := 251;
     LV_COLOR_TRANSP := 2016; vdb_area := area 0 0 7 9; lv_draw_mask_get_cnt := 0;
     lv_draw_mask_apply := fun line _ _ _ => (LV_MASK_RES_FULL_COVER, line);
     lv_color_mix := fun c1 c2 _ => c2;
     map2_init := replicate 8 0; mask_buf_init := replicate 8 0 |}.

Definition style_ex : lv_style_t :=
  {| image_color := 0; image_intense := 0; image_opa := 255 |}.

Definition entry_ex (cf : lv_img_cf_t) (w h : Z) (pixels : option (list Z))
    (lines : Z -> Z -> Z -> option (list Z)) : lv_img_cache_entry_t :=
  {| dec_dsc := {| dec_header := {| header_cf := cf; header_w := w; header_h := h |};
                   error_msg := None; img_data := pixels; read_line := lines |} |}.

(** A 2 x 10 true colour image read line by line; line 5 cannot be read. *)
Definition lines_ex (x y len : Z) : option (list Z) :=
  if bool_decide (y = 5) then None else Some [y; 0; y; 1; 0; 0].

Definition streaming_ex : lv_img_cache_entry_t :=
  entry_ex LV_IMG_CF_TRUE_COLOR 2 10 None lines_ex.

Definition rows_ex : list (list blend_call) :=
  (fun j => draw_map_fast (env_ex Depth16) (shift_line (area 0 0 1 0) j) (area 0 0 7 9)
              [j; 0; j; 1; 0; 0]) <$> [0; 1; 2; 3; 4].

(** A 2 x 2 image that is fully decoded. *)
Definition full_ex (cf : lv_img_cf_t) : lv_img_cache_entry_t :=
  entry_ex cf 2 2 (Some [1; 0; 2; 0; 3; 0; 4; 0]) (fun _ _ _ => None).

Definition indexed_call_ex : blend_call :=
  {| bc_clip := area 0 0 7 9; bc_area := area 0 0 1 1;
     bc_map := [1; 2; 3; 4; 0; 0; 0; 0];
     bc_mask := Some [255; 255; 255; 255; 0; 0; 0; 0];
     bc_mask_res := LV_MASK_RES_CHANGED; bc_opa := 255; bc_mode := LV_BLEND_MODE_NORMAL |}.

(** The call the per-pixel path makes for the single 32-bit pixel
    [1; 2; 3; 255] drawn at the origin. *)
Definition general_call_32_ex : blend_call :=
  {| bc_clip := area 0 0 7 9; bc_area := area 0 0 0 0;
     bc_map := [197121; 0; 0; 0; 0; 0; 0; 0];
     bc_mask := Some [255; 0; 0; 0; 0; 0; 0; 0];
     bc_mask_res := LV_MASK_RES_FULL_COVER; bc_opa := 255; bc_mode := LV_BLEND_MODE_NORMAL |}.

Definition blend_ignore (c : blend_call) (dest : canvas) : canvas := dest.

Definition blank : canvas := fun _ _ => 0.

(** A 3 x 5 chroma-keyed 16-bit image whose first pixel is the key. *)
Definition keyed_map_ex : list Z := [224; 7] ++ replicate 28 1.

(** The trace of drawing [streaming_ex] over ten rows: five rows drawn, the
    failed read, the close and the placeholder. *)
Definition failed_trace_ex : list draw_event :=
  EvCacheOpen true
    :: rows_trace 0 0 2 rows_ex
    ++ [EvReadLine 0 5 2 false; EvDecoderClose]
    ++ placeholder (area 0 0 1 9) (area 0 0 7 9).

(** * Properties *)

(** ** Integer conversions and bit fields *)

Lemma to_u8_id z : 0 <= z < 256 -> to_u8 z = z.
Proof. intros. unfold to_u8. apply Z.mod_small. lia. Qed.

Lemma to_u32_id z : 0 <= z < 2 ^ 32 -> to_u32 z = z.
Proof. intros. unfold to_u32. apply Z.mod_small. lia. Qed.

Lemma to_coord_id z : -32768 <= z < 32768 -> to_coord z = z.
Proof. intros. unfold to_coord. rewrite Z.mod_small by lia. lia. Qed.

Lemma extract_bits_spec b m sh :
  0 <= sh -> extract_bits b m sh = Z.land (Z.shiftr b sh) m.
Proof.
  intros Hsh. unfold extract_bits.
  rewrite Z.shiftr_land, Z.shiftr_shiftl_l by lia.
  rewrite Z.sub_diag, Z.shiftl_0_r. reflexivity.
Qed.

Lemma extract_bits_mod b n sh :
  0 <= sh -> 0 <= n ->
  extract_bits b (Z.ones n) sh = (b `div` 2 ^ sh) `mod` 2 ^ n.
Proof.
  intros Hsh Hn. rewrite extract_bits_spec by lia.
  rewrite Z.land_ones, Z.shiftr_div_pow2 by lia. reflexivity.
Qed.

Lemma testbit_to_u8 z i : Z.testbit (to_u8 z) i = (i <? 8) && Z.testbit z i.
Proof. unfold to_u8. change 256 with (2 ^ 8). apply Z.testbit_mod_pow2. lia. Qed.

Lemma extract_insert_bits b n sh v :
  0 <= n -> 0 <= sh -> sh + n <= 8 ->
  extract_bits (insert_bits b (Z.ones n) sh v) (Z.ones n) sh = Z.land v (Z.ones n).
Proof.
  intros Hn Hsh Hle. rewrite extract_bits_spec by lia.
  apply Z.bits_inj'. intros i Hi.
  rewrite !Z.land_spec, Z.shiftr_spec by lia.
  rewrite Z.testbit_ones_nonneg by lia.
  destruct (Z.ltb_spec i n) as [Hlt|Hge]; [|rewrite !andb_false_r; reflexivity].
  rewrite !andb_true_r. unfold insert_bits.
  rewrite testbit_to_u8, Z.lor_spec, testbit_to_u8, Z.land_spec, Z.lnot_spec by lia.
  rewrite !Z.shiftl_spec by lia.
  replace (i + sh - sh) with i by lia.
  rewrite Z.land_spec, Z.testbit_ones_nonneg by lia.
  destruct (Z.ltb_spec (i + sh) 8); [|lia].
  destruct (Z.ltb_spec i n); [|lia].
  simpl. rewrite andb_false_r, andb_true_r. reflexivity.
Qed.

(** ** Addressing of bit-packed rows *)

Lemma packed_px_spec bpp r s w x y :
  packing bpp r s ->
  0 < w < 2048 -> 0 <= x < w -> 0 <= y < 2048 ->
  packed_px w x y r s = row_stride bpp w * y + x `div` (8 `div` bpp)
  /\ 0 <= row_stride bpp w * y + x `div` (8 `div` bpp) < row_stride bpp w * (y + 1).
Proof.
  intros Hp Hw Hx Hy. unfold packed_px, row_stride.
  rewrite !Z.shiftr_div_pow2 by (destruct Hp; lia).
  assert (Hs : (w + r) `div` 2 ^ s = (w * bpp + 7) `div` 8
               /\ 2 ^ s = 8 `div` bpp /\ 0 < 2 ^ s <= 8).
  { destruct Hp; simpl; repeat split; try lia; Z.div_mod_to_equations; lia. }
  destruct Hs as (-> & Hs2 & Hs3). rewrite <- Hs2.
  assert (0 <= x `div` 2 ^ s < (w * bpp + 7) `div` 8).
  { destruct Hp; simpl in *; Z.div_mod_to_equations; lia. }
  assert (0 <= (w * bpp + 7) `div` 8 <= 2048).
  { destruct Hp; Z.div_mod_to_equations; lia. }
  rewrite to_coord_id by lia.
  rewrite to_u32_id by nia.
  split; [reflexivity | nia].
Qed.

Lemma clamp_coord_in_range v lim : 0 <= v < lim -> clamp_coord v lim = v.
Proof.
  intros. unfold clamp_coord.
  rewrite !bool_decide_eq_false_2 by lia. reflexivity.
Qed.

Lemma clamp_coord_spec v lim :
  0 < lim <= 32768 -> clamp_coord v lim = Z.max 0 (Z.min v (lim - 1)).
Proof.
  intros. unfold clamp_coord. repeat case_bool_decide; rewrite ?to_coord_id by lia; lia.
Qed.

Lemma bit_pos_spec bpp r s x :
  packing bpp r s -> 0 <= x ->
  8 - bpp - to_u8 (Z.land x (Z.ones s) * bpp) = 8 - bpp * (x `mod` (8 `div` bpp) + 1)
  /\ 0 <= 8 - bpp * (x `mod` (8 `div` bpp) + 1)
  /\ 8 - bpp * (x `mod` (8 `div` bpp) + 1) + bpp <= 8.
Proof.
  intros Hp Hx. rewrite Z.land_ones by (destruct Hp; lia).
  assert (2 ^ s = 8 `div` bpp) as -> by (destruct Hp; reflexivity).
  assert (0 <= x `mod` (8 `div` bpp) < 8 `div` bpp)
    by (apply Z.mod_pos_bound; destruct Hp; reflexivity).
  assert (0 < bpp /\ bpp * (8 `div` bpp) = 8) as [? ?] by (destruct Hp; split; reflexivity).
  rewrite to_u8_id by nia. nia.
Qed.

(** Reading a bit field through the code's mask and shift gives the stored
    bits of the layout. *)
Lemma load_extract_stored bpp r s off dsc x y raw :
  packing bpp r s -> 0 <= off ->
  0 < header_w (header dsc) < 2048 -> 0 <= x < header_w (header dsc) ->
  0 <= y < 2048 ->
  stored_bits bpp off dsc x y = Some raw ->
  exists b,
    buf_load (data dsc) off (packed_px (header_w (header dsc)) x y r s) = Some b
    /\ extract_bits b (Z.ones bpp) (8 - bpp - to_u8 (Z.land x (Z.ones s) * bpp)) = raw
    /\ 0 <= raw < 2 ^ bpp.
Proof.
  intros Hp Hoff Hw Hx Hy Hst. unfold stored_bits in Hst.
  destruct (packed_px_spec bpp r s _ x y Hp Hw Hx Hy) as [Hpx Hrange].
  destruct (bit_pos_spec bpp r s x Hp) as (Hbit & Hlo & Hhi); [lia|].
  rewrite Hpx, Hbit. unfold buf_load.
  rewrite bool_decide_eq_true_2 by lia.
  rewrite <- Z.add_assoc in Hst.
  destruct (data dsc !! _) as [b|]; [|discriminate].
  simpl in Hst. injection Hst as <-. exists b. split; [reflexivity|].
  assert (0 < bpp) by (destruct Hp; lia).
  rewrite extract_bits_mod by lia. split; [reflexivity|].
  apply Z.mod_pos_bound. lia.
Qed.

(** ** Reading alpha values *)

Section AlphaGet.
Variables (d : color_depth) (dsc : lv_img_dsc_t) (x y : Z).
Hypothesis Hw : 0 < header_w (header dsc) < 2048.
Hypothesis Hh : 0 < header_h (header dsc) < 2048.
Hypothesis Hx : 0 <= x < header_w (header dsc).
Hypothesis Hy : 0 <= y < header_h (header dsc).

Lemma get_px_alpha_1bit raw :
  header_cf (header dsc) = LV_IMG_CF_ALPHA_1BIT ->
  stored_bits 1 0 dsc x y = Some raw ->
  lv_img_buf_get_px_alpha d dsc x y
  = Some (if bool_decide (raw = 1) then LV_OPA_TRANSP else LV_OPA_COVER)
  /\ 0 <= raw <= 1.
Proof.
  intros Hcf Hst. unfold lv_img_buf_get_px_alpha. rewrite Hcf.
  rewrite !clamp_coord_in_range by lia.
  destruct (load_extract_stored 1 7 3 0 dsc x y raw packing_1) as (b & Hb & He & Hr);
    [lia..|assumption|].
  rewrite Hb. simpl. change (Z.ones 1) with 1 in He. change (Z.ones 3) with 7 in He.
  rewrite Z.mul_1_r in He. change (8 - 1) with 7 in He. rewrite He.
  change (2 ^ 1) with 2 in Hr. rewrite to_u8_id by lia.
  split; [|lia]. repeat case_bool_decide; try reflexivity; lia.
Qed.

Lemma get_px_alpha_2bit raw :
  header_cf (header dsc) = LV_IMG_CF_ALPHA_2BIT ->
  stored_bits 2 0 dsc x y = Some raw ->
  lv_img_buf_get_px_alpha d dsc x y = [0; 85; 170; 255] !! Z.to_nat raw
  /\ lv_img_buf_get_px_alpha d dsc x y = Some (85 * raw)
  /\ 0 <= raw <= 3.
Proof.
  intros Hcf Hst. unfold lv_img_buf_get_px_alpha. rewrite Hcf.
  rewrite !clamp_coord_in_range by lia.
  destruct (load_extract_stored 2 3 2 0 dsc x y raw packing_2) as (b & Hb & He & Hr);
    [lia..|assumption|].
  rewrite Hb. simpl. change (Z.ones 2) with 3 in He.
  change (8 - 2) with 6 in He. rewrite He.
  change (2 ^ 2) with 4 in Hr. rewrite to_u8_id by lia.
  assert (raw = 0 \/ raw = 1 \/ raw = 2 \/ raw = 3) as [E|[E|[E|E]]] by lia; clear He Hst; subst raw;
    (split; [reflexivity|split; [reflexivity|lia]]).
Qed.

Lemma get_px_alpha_4bit raw :
  header_cf (header dsc) = LV_IMG_CF_ALPHA_4BIT ->
  stored_bits 4 0 dsc x y = Some raw ->
  lv_img_buf_get_px_alpha d dsc x y
  = [0; 17; 34; 51; 68; 85; 102; 119; 136; 153; 170; 187; 204; 221; 238; 255]
      !! Z.to_nat raw
  /\ lv_img_buf_get_px_alpha d dsc x y = Some (17 * raw)
  /\ 0 <= raw <= 15.
Proof.
  intros Hcf Hst. unfold lv_img_buf_get_px_alpha. rewrite Hcf.
  rewrite !clamp_coord_in_range by lia.
  destruct (load_extract_stored 4 1 1 0 dsc x y raw packing_4) as (b & Hb & He & Hr);
    [lia..|assumption|].
  rewrite Hb. simpl. change (Z.ones 4) with 15 in He. change (Z.ones 1) with 1 in He.
  change (8 - 4) with 4 in He. rewrite He.
  change (2 ^ 4) with 16 in Hr. rewrite to_u8_id by lia.
  assert (Hc : exists n : nat, raw = Z.of_nat n /\ (n < 16)%nat)
    by (exists (Z.to_nat raw); lia).
  destruct Hc as (n & -> & Hn). rewrite Nat2Z.id.
  do 16 (destruct n as [|n]; [split; [reflexivity|split; [reflexivity|lia]]|]).
  lia.
Qed.
(** C5: at an in-range coordinate [lv_img_buf_get_px_alpha] maps the stored
    bit of an Alpha-1-bit image to transparent when it is 1 and to opaque
    when it is 0, the stored 2-bit value through the table 0, 85, 170, 255,
    and the stored 4-bit value through the sixteen steps 0, 17, ..., 255. *)
Theorem get_px_alpha_tables raw :
  (header_cf (header dsc) = LV_IMG_CF_ALPHA_1BIT ->
   stored_bits 1 0 dsc x y = Some raw ->
   lv_img_buf_get_px_alpha d dsc x y
   = Some (if bool_decide (raw = 1) then LV_OPA_TRANSP else LV_OPA_COVER)
   /\ 0 <= raw <= 1)
  /\ (header_cf (header dsc) = LV_IMG_CF_ALPHA_2BIT ->
      stored_bits 2 0 dsc x y = Some raw ->
      lv_img_buf_get_px_alpha d dsc x y = [0; 85; 170; 255] !! Z.to_nat raw
      /\ 0 <= raw <= 3)
  /\ (header_cf (header dsc) = LV_IMG_CF_ALPHA_4BIT ->
      stored_bits 4 0 dsc x y = Some raw ->
      lv_img_buf_get_px_alpha d dsc x y
      = [0; 17; 34; 51; 68; 85; 102; 119; 136; 153; 170; 187; 204; 221; 238; 255]
          !! Z.to_nat raw
      /\ lv_img_buf_get_px_alpha d dsc x y = Some (17 * raw)
      /\ 0 <= raw <= 15).
Proof.
  split; [|split]; intros Hcf Hst.
  - apply get_px_alpha_1bit; assumption.
  - destruct (get_px_alpha_2bit raw Hcf Hst) as (Ht & _ & Hr). split; assumption.
  - apply get_px_alpha_4bit; assumption.
Qed.
End AlphaGet.

Lemma get_px_alpha_tables_witness :
  lv_img_buf_get_px_alpha Depth16 (img LV_IMG_CF_ALPHA_2BIT 4 1 [128]) 0 0
  = [0; 85; 170; 255] !! Z.to_nat 2
  /\ 0 <= 2 <= 3.
Proof.
  refine (proj1 (proj2 (get_px_alpha_tables Depth16 (img LV_IMG_CF_ALPHA_2BIT 4 1 [128])
                          0 0 _ _ _ _ 2)) _ _);
    first [reflexivity | simpl; lia].
Defined.

(** ** Writing, then reading, an alpha value *)

Lemma buf_store_load buf off px v :
  0 <= off + px < Z.of_nat (length buf) ->
  exists buf', buf_store buf off px v = Some buf'
    /\ length buf' = length buf
    /\ buf_load buf' off px = Some v.
Proof.
  intros H. unfold buf_store, buf_load. rewrite !bool_decide_eq_true_2 by lia.
  eexists. split; [reflexivity|]. split; [apply length_insert|].
  apply list_lookup_insert_eq. lia.
Qed.

Lemma buf_load_in_range buf off px :
  0 <= off + px < Z.of_nat (length buf) -> is_Some (buf_load buf off px).
Proof.
  intros H. unfold buf_load. rewrite bool_decide_eq_true_2 by lia.
  apply lookup_lt_is_Some. lia.
Qed.

Lemma buf_set_bits_stored bpp r s dsc x y val :
  packing bpp r s ->
  0 < header_w (header dsc) < 2048 -> 0 < header_h (header dsc) < 2048 ->
  0 <= x < header_w (header dsc) -> 0 <= y < header_h (header dsc) ->
  row_stride bpp (header_w (header dsc)) * header_h (header dsc)
    <= Z.of_nat (length (data dsc)) ->
  exists buf',
    buf_set_bits (data dsc) 0 (packed_px (header_w (header dsc)) x y r s)
      (Z.ones bpp) (8 - bpp - to_u8 (Z.land x (Z.ones s) * bpp)) val = Some buf'
    /\ length buf' = length (data dsc)
    /\ stored_bits bpp 0 (with_data dsc buf') x y = Some (Z.land val (Z.ones bpp)).
Proof.
  intros Hp Hw Hh Hx Hy Hlen.
  destruct (packed_px_spec bpp r s _ x y Hp Hw Hx) as [Hpx Hrange]; [lia|].
  destruct (bit_pos_spec bpp r s x Hp) as (Hbit & Hlo & Hhi); [lia|].
  assert (Hin : 0 <= 0 + packed_px (header_w (header dsc)) x y r s
                < Z.of_nat (length (data dsc))).
  { rewrite Hpx. assert (0 <= row_stride bpp (header_w (header dsc))) by nia. nia. }
  unfold buf_set_bits.
  destruct (buf_load_in_range _ _ _ Hin) as [b Hb]. rewrite Hb. simpl.
  destruct (buf_store_load (data dsc) 0 _
              (insert_bits b (Z.ones bpp)
                 (8 - bpp - to_u8 (Z.land x (Z.ones s) * bpp)) val) Hin)
    as (buf' & Hst & Hl & Hld).
  exists buf'. split; [assumption|]. split; [assumption|].
  unfold stored_bits. simpl.
  unfold buf_load in Hld. rewrite bool_decide_eq_true_2 in Hld by lia.
  rewrite Hpx in Hld. rewrite <- Z.add_assoc, Hld. simpl. f_equal.
  assert (0 < bpp) by (destruct Hp; lia).
  rewrite <- extract_bits_mod by lia. rewrite <- Hbit.
  apply extract_insert_bits; lia.
Qed.

Section AlphaRoundTrip.
Variables (d : color_depth) (dsc : lv_img_dsc_t) (x y v : Z).
Hypothesis Hwf : dsc_wf d dsc.
Hypothesis Hx : 0 <= x < header_w (header dsc).
Hypothesis Hy : 0 <= y < header_h (header dsc).
Hypothesis Hv : 0 <= v <= 255.

Lemma shifted_opa_small k : 0 <= k <= 8 -> Z.land (Z.shiftr v k) (Z.ones (8 - k)) = v `div` 2 ^ k.
Proof.
  intros Hk. rewrite Z.land_ones, Z.shiftr_div_pow2 by lia.
  apply Z.mod_small. split; [apply Z.div_pos; lia|].
  apply Z.div_lt_upper_bound; [lia|].
  rewrite <- Z.pow_add_r by lia. replace (k + (8 - k)) with 8 by lia. lia.
Qed.

Lemma set_get_px_alpha_1bit :
  header_cf (header dsc) = LV_IMG_CF_ALPHA_1BIT ->
  exists dsc',
    lv_img_buf_set_px_alpha d dsc x y v = Some dsc'
    /\ lv_img_buf_get_px_alpha d dsc' x y
       = Some (if bool_decide (v < 128) then LV_OPA_COVER else LV_OPA_TRANSP).
Proof.
  intros Hcf. destruct Hwf as (Hw & Hh & Hlen).
  unfold img_buf_size in Hlen. rewrite Hcf in Hlen. simpl in Hlen.
  destruct (buf_set_bits_stored 1 7 3 dsc x y (Z.shiftr v 7) packing_1)
    as (buf' & Hset & Hl & Hst); [lia..|].
  exists (with_data dsc buf'). split.
  - unfold lv_img_buf_set_px_alpha. rewrite Hcf.
    change (Z.ones 1) with 1 in Hset. change (Z.ones 3) with 7 in Hset.
    rewrite Z.mul_1_r in Hset. change (8 - 1) with 7 in Hset.
    rewrite Hset. reflexivity.
  - change (Z.ones 1) with (Z.ones (8 - 7)) in Hst.
    rewrite shifted_opa_small in Hst by lia.
    destruct (get_px_alpha_1bit d (with_data dsc buf') x y) with (raw := v `div` 2 ^ 7)
      as [Hg _]; try assumption.
    rewrite Hg. f_equal.
    repeat case_bool_decide; try reflexivity; Z.div_mod_to_equations; lia.
Qed.

Lemma set_get_px_alpha_2bit :
  header_cf (header dsc) = LV_IMG_CF_ALPHA_2BIT ->
  exists dsc',
    lv_img_buf_set_px_alpha d dsc x y v = Some dsc'
    /\ lv_img_buf_get_px_alpha d dsc' x y = Some (85 * (v `div` 64)).
Proof.
  intros Hcf. destruct Hwf as (Hw & Hh & Hlen).
  unfold img_buf_size in Hlen. rewrite Hcf in Hlen. simpl in Hlen.
  destruct (buf_set_bits_stored 2 3 2 dsc x y (Z.shiftr v 6) packing_2)
    as (buf' & Hset & Hl & Hst); [lia..|].
  exists (with_data dsc buf'). split.
  - unfold lv_img_buf_set_px_alpha. rewrite Hcf.
    change (Z.ones 2) with 3 in Hset. change (8 - 2) with 6 in Hset.
    rewrite Hset. reflexivity.
  - change (Z.ones 2) with (Z.ones (8 - 6)) in Hst.
    rewrite shifted_opa_small in Hst by lia.
    destruct (get_px_alpha_2bit d (with_data dsc buf') x y) with (raw := v `div` 2 ^ 6)
      as (_ & Hg & _); try assumption.
Qed.

Lemma set_get_px_alpha_4bit :
  header_cf (header dsc) = LV_IMG_CF_ALPHA_4BIT ->
  exists dsc',
    lv_img_buf_set_px_alpha d dsc x y v = Some dsc'
    /\ lv_img_buf_get_px_alpha d dsc' x y = Some (17 * (v `div` 16)).
Proof.
  intros Hcf. destruct Hwf as (Hw & Hh & Hlen).
  unfold img_buf_size in Hlen. rewrite Hcf in Hlen. simpl in Hlen.
  destruct (buf_set_bits_stored 4 1 1 dsc x y (Z.shiftr v 4) packing_4)
    as (buf' & Hset & Hl & Hst); [lia..|].
  exists (with_data dsc buf'). split.
  - unfold lv_img_buf_set_px_alpha. rewrite Hcf.
    change (Z.ones 4) with 15 in Hset. change (Z.ones 1) with 1 in Hset.
    change (8 - 4) with 4 in Hset.
    rewrite Hset. reflexivity.
  - change (Z.ones 4) with (Z.ones (8 - 4)) in Hst.
    rewrite shifted_opa_small in Hst by lia.
    destruct (get_px_alpha_4bit d (with_data dsc buf') x y) with (raw := v `div` 2 ^ 4)
      as (_ & Hg & _); try assumption.
Qed.

Lemma set_get_px_alpha_8bit :
  header_cf (header dsc) = LV_IMG_CF_ALPHA_8BIT ->
  exists dsc',
    lv_img_buf_set_px_alpha d dsc x y v = Some dsc'
    /\ lv_img_buf_get_px_alpha d dsc' x y = Some v.
Proof.
  intros Hcf. destruct Hwf as (Hw & Hh & Hlen).
  unfold img_buf_size, row_stride in Hlen. rewrite Hcf in Hlen. simpl in Hlen.
  assert (Hpx : to_u32 (header_w (header dsc) * y + x) = header_w (header dsc) * y + x)
    by (apply to_u32_id; nia).
  assert (Hin : 0 <= 0 + (header_w (header dsc) * y + x) < Z.of_nat (length (data dsc))).
  { replace ((header_w (header dsc) * 8 + 7) `div` 8) with (header_w (header dsc)) in Hlen
      by (Z.div_mod_to_equations; lia). nia. }
  destruct (buf_store_load (data dsc) 0 _ v Hin) as (buf' & Hst & Hl & Hld).
  exists (with_data dsc buf'). split.
  - unfold lv_img_buf_set_px_alpha. rewrite Hcf, Hpx, Hst. reflexivity.
  - unfold lv_img_buf_get_px_alpha. simpl. rewrite Hcf.
    rewrite !clamp_coord_in_range by lia. rewrite Hpx. assumption.
Qed.
End AlphaRoundTrip.

(** ** Clamping and buffer bounds of the accessors *)

Lemma buf_load_n_in_range buf px n :
  0 <= px -> px + Z.of_nat n <= Z.of_nat (length buf) ->
  is_Some (buf_load_n buf px n).
Proof.
  revert px. induction n as [|n IH]; intros px Hpx Hlen; simpl; [eauto|].
  destruct (buf_load_in_range buf 0 px) as [b Hb]; [lia|]. rewrite Hb. simpl.
  destruct (IH (px + 1)) as [bs Hbs]; [lia..|]. rewrite Hbs. simpl. eauto.
Qed.

Lemma extract_bits_range b n sh :
  0 <= sh -> 0 <= n -> 0 <= extract_bits b (Z.ones n) sh < 2 ^ n.
Proof.
  intros. rewrite extract_bits_mod by lia. apply Z.mod_pos_bound. lia.
Qed.

Section Getters.
Variables (d : color_depth) (dsc : lv_img_dsc_t).
Hypothesis Hwf : dsc_wf d dsc.

Lemma get_px_color_clamps x y style :
  lv_img_buf_get_px_color d dsc x y style
  = lv_img_buf_get_px_color d dsc (clamped x (header_w (header dsc)))
      (clamped y (header_h (header dsc))) style.
Proof.
  destruct Hwf as (Hw & Hh & _). unfold lv_img_buf_get_px_color, clamped.
  rewrite !clamp_coord_spec by lia.
  replace (Z.max 0 (Z.min (Z.max 0 (Z.min x (header_w (header dsc) - 1)))
                      (header_w (header dsc) - 1)))
    with (Z.max 0 (Z.min x (header_w (header dsc) - 1))) by lia.
  replace (Z.max 0 (Z.min (Z.max 0 (Z.min y (header_h (header dsc) - 1)))
                      (header_h (header dsc) - 1)))
    with (Z.max 0 (Z.min y (header_h (header dsc) - 1))) by lia.
  reflexivity.
Qed.

Lemma get_px_alpha_clamps x y :
  lv_img_buf_get_px_alpha d dsc x y
  = lv_img_buf_get_px_alpha d dsc (clamped x (header_w (header dsc)))
      (clamped y (header_h (header dsc))).
Proof.
  destruct Hwf as (Hw & Hh & _). unfold lv_img_buf_get_px_alpha, clamped.
  rewrite !clamp_coord_spec by lia.
  replace (Z.max 0 (Z.min (Z.max 0 (Z.min x (header_w (header dsc) - 1)))
                      (header_w (header dsc) - 1)))
    with (Z.max 0 (Z.min x (header_w (header dsc) - 1))) by lia.
  replace (Z.max 0 (Z.min (Z.max 0 (Z.min y (header_h (header dsc) - 1)))
                      (header_h (header dsc) - 1)))
    with (Z.max 0 (Z.min y (header_h (header dsc) - 1))) by lia.
  reflexivity.
Qed.

Lemma packed_load_in_range bpp r s off x y :
  packing bpp r s -> 0 <= off ->
  0 <= x < header_w (header dsc) -> 0 <= y < header_h (header dsc) ->
  off + row_stride bpp (header_w (header dsc)) * header_h (header dsc)
    <= Z.of_nat (length (data dsc)) ->
  is_Some (buf_load (data dsc) off (packed_px (header_w (header dsc)) x y r s)).
Proof.
  intros Hp Hoff Hx Hy Hlen. destruct Hwf as (Hw & Hh & _).
  destruct (packed_px_spec bpp r s _ x y Hp Hw Hx) as [Hpx Hrange]; [lia|].
  apply buf_load_in_range. rewrite Hpx.
  assert (0 <= row_stride bpp (header_w (header dsc))) by nia. nia.
Qed.

Lemma true_color_px_in_range sz x y :
  0 < sz <= 4 ->
  0 <= x < header_w (header dsc) -> 0 <= y < header_h (header dsc) ->
  to_u32 (header_w (header dsc) * y * sz + x * sz)
  = (header_w (header dsc) * y + x) * sz
  /\ 0 <= (header_w (header dsc) * y + x) * sz <= 2048 * 2048 * 4
  /\ (header_w (header dsc) * y + x) * sz + sz
     <= row_stride (sz * 8) (header_w (header dsc)) * header_h (header dsc).
Proof.
  intros Hsz Hx Hy. destruct Hwf as (Hw & Hh & _).
  replace (header_w (header dsc) * y * sz + x * sz)
    with ((header_w (header dsc) * y + x) * sz) by ring.
  assert (0 <= header_w (header dsc) * y + x < 2048 * 2048) by nia.
  assert (0 <= (header_w (header dsc) * y + x) * sz <= 2048 * 2048 * 4) by nia.
  rewrite to_u32_id by (change (2 ^ 32) with 4294967296; lia).
  split; [reflexivity|]. split; [lia|].
  unfold row_stride.
  replace ((header_w (header dsc) * (sz * 8) + 7) `div` 8) with (header_w (header dsc) * sz)
    by (Z.div_mod_to_equations; lia).
  assert (header_w (header dsc) * y + x + 1 <= header_w (header dsc) * header_h (header dsc))
    by nia.
  nia.
Qed.

(** In-range reads stay inside the buffer. *)
Lemma getters_in_buffer x y style :
  is_Some (lv_img_buf_get_px_color d dsc x y style)
  /\ is_Some (lv_img_buf_get_px_alpha d dsc x y).
Proof.
  rewrite get_px_color_clamps, get_px_alpha_clamps.
  pose proof Hwf as (Hw & Hh & Hlen).
  assert (Hx : 0 <= clamped x (header_w (header dsc)) < header_w (header dsc))
    by (unfold clamped; lia).
  assert (Hy : 0 <= clamped y (header_h (header dsc)) < header_h (header dsc))
    by (unfold clamped; lia).
  generalize dependent (clamped x (header_w (header dsc))).
  generalize dependent (clamped y (header_h (header dsc))).
  intros y' Hy x' Hx.
  unfold lv_img_buf_get_px_color, lv_img_buf_get_px_alpha, img_buf_size in *.
  rewrite !clamp_coord_in_range by lia.
  destruct (header_cf (header dsc)) eqn:Hcf; simpl in Hlen; simpl;
    try (split; [|eauto]); try (split; [eauto|]); eauto;
    try (destruct style; eauto; fail).
  - (* true color *)
    destruct (true_color_px_in_range (sizeof_lv_color_t d) x' y') as (E & Hlo & Hhi);
      [destruct d; simpl; lia|lia..|].
    replace (to_u8 (Z.shiftr (LV_COLOR_SIZE d) 3)) with (sizeof_lv_color_t d) by (destruct d; reflexivity).
    replace (LV_COLOR_SIZE d) with (sizeof_lv_color_t d * 8) in Hlen by (destruct d; reflexivity).
    rewrite E.
    destruct (buf_load_n_in_range (data dsc)
                ((header_w (header dsc) * y' + x') * sizeof_lv_color_t d)
                (Z.to_nat (sizeof_lv_color_t d))) as [bs Hbs];
      [lia|destruct d; simpl in *; lia|].
    rewrite Hbs. simpl. eauto.
  - (* true color with alpha: colour *)
    destruct (true_color_px_in_range (LV_IMG_PX_SIZE_ALPHA_BYTE d) x' y') as (E & Hlo & Hhi);
      [destruct d; simpl; lia|lia..|].
    replace (to_u8 (Z.shiftr (Z.shiftl (LV_IMG_PX_SIZE_ALPHA_BYTE d) 3) 3)) with (LV_IMG_PX_SIZE_ALPHA_BYTE d)
      by (destruct d; reflexivity).
    replace (Z.shiftl (LV_IMG_PX_SIZE_ALPHA_BYTE d) 3) with (LV_IMG_PX_SIZE_ALPHA_BYTE d * 8) in Hlen
      by (destruct d; reflexivity).
    rewrite E.
    destruct (buf_load_n_in_range (data dsc)
                ((header_w (header dsc) * y' + x') * LV_IMG_PX_SIZE_ALPHA_BYTE d)
                (Z.to_nat (sizeof_lv_color_t d))) as [bs Hbs];
      [lia|destruct d; simpl in *; lia|].
    rewrite Hbs. simpl. eauto.
  - (* true color with alpha: alpha *)
    destruct (true_color_px_in_range (LV_IMG_PX_SIZE_ALPHA_BYTE d) x' y') as (E & Hlo & Hhi);
      [destruct d; simpl; lia|lia..|].
    replace (Z.shiftl (LV_IMG_PX_SIZE_ALPHA_BYTE d) 3) with (LV_IMG_PX_SIZE_ALPHA_BYTE d * 8) in Hlen
      by (destruct d; reflexivity).
    rewrite E.
    assert (0 < LV_IMG_PX_SIZE_ALPHA_BYTE d <= 4) by (destruct d; simpl; lia).
    rewrite to_u32_id by (change (2 ^ 32) with 4294967296; lia).
    apply buf_load_in_range. lia.
  - (* true color chroma keyed *)
    destruct (true_color_px_in_range (sizeof_lv_color_t d) x' y') as (E & Hlo & Hhi);
      [destruct d; simpl; lia|lia..|].
    replace (to_u8 (Z.shiftr (LV_COLOR_SIZE d) 3)) with (sizeof_lv_color_t d) by (destruct d; reflexivity).
    replace (LV_COLOR_SIZE d) with (sizeof_lv_color_t d * 8) in Hlen by (destruct d; reflexivity).
    rewrite E.
    destruct (buf_load_n_in_range (data dsc)
                ((header_w (header dsc) * y' + x') * sizeof_lv_color_t d)
                (Z.to_nat (sizeof_lv_color_t d))) as [bs Hbs];
      [lia|destruct d; simpl in *; lia|].
    rewrite Hbs. simpl. eauto.
  - destruct (packed_load_in_range 1 7 3 (4 * 2) x' y' packing_1) as [b Hb]; [lia..|].
    rewrite Hb. simpl. eauto.
  - destruct (packed_load_in_range 2 3 2 (4 * 4) x' y' packing_2) as [b Hb]; [lia..|].
    rewrite Hb. simpl. eauto.
  - destruct (packed_load_in_range 4 1 1 (4 * 16) x' y' packing_4) as [b Hb]; [lia..|].
    rewrite Hb. simpl. eauto.
  - destruct (true_color_px_in_range 1 x' y') as (E & Hlo & Hhi); [lia..|].
    rewrite !Z.mul_1_r in E. rewrite E. apply buf_load_in_range.
    change (1 * 8) with 8 in Hhi. lia.
  - destruct (packed_load_in_range 1 7 3 0 x' y' packing_1) as [b Hb]; [lia..|].
    rewrite Hb. simpl. eauto.
  - destruct (packed_load_in_range 2 3 2 0 x' y' packing_2) as [b Hb]; [lia..|].
    rewrite Hb. simpl.
    apply lookup_lt_is_Some. simpl.
    destruct (bit_pos_spec 2 3 2 x' packing_2) as (Hbit & ? & ?); [lia|].
    change (Z.ones 2) with 3 in Hbit. change (8 - 2) with 6 in Hbit. rewrite Hbit.
    pose proof (extract_bits_range b 2 (8 - 2 * (x' `mod` (8 `div` 2) + 1))) as Hr.
    change (Z.ones 2) with 3 in Hr. change (2 ^ 2) with 4 in Hr.
    rewrite to_u8_id; lia.
  - destruct (packed_load_in_range 4 1 1 0 x' y' packing_4) as [b Hb]; [lia..|].
    rewrite Hb. simpl.
    apply lookup_lt_is_Some. simpl.
    destruct (bit_pos_spec 4 1 1 x' packing_4) as (Hbit & ? & ?); [lia|].
    change (Z.ones 1) with 1 in Hbit. change (8 - 4) with 4 in Hbit. rewrite Hbit.
    pose proof (extract_bits_range b 4 (8 - 4 * (x' `mod` (8 `div` 4) + 1))) as Hr.
    change (Z.ones 4) with 15 in Hr. change (2 ^ 4) with 16 in Hr.
    rewrite to_u8_id; lia.
  - destruct (true_color_px_in_range 1 x' y') as (E & Hlo & Hhi); [lia..|].
    rewrite !Z.mul_1_r in E. rewrite E. apply buf_load_in_range.
    change (1 * 8) with 8 in Hhi. lia.
Qed.
Lemma buf_store_n_in_range bs :
  forall buf px,
    0 <= px -> px + Z.of_nat (length bs) <= Z.of_nat (length buf) ->
    is_Some (buf_store_n buf px bs).
Proof.
  induction bs as [|b bs IH]; intros buf px Hpx Hlen; simpl; [eauto|].
  destruct (buf_store_load buf 0 px b) as (buf' & Hst & Hl & _); [simpl in Hlen; lia|].
  rewrite Hst. simpl. apply IH; [lia|]. rewrite Hl. simpl in Hlen. lia.
Qed.

Lemma buf_set_bits_in_range buf off px m sh v :
  0 <= off + px < Z.of_nat (length buf) -> is_Some (buf_set_bits buf off px m sh v).
Proof.
  intros Hin. unfold buf_set_bits.
  destruct (buf_load_in_range buf off px Hin) as [b Hb]. rewrite Hb. simpl.
  destruct (buf_store_load buf off px (insert_bits b m sh v) Hin) as (buf' & Hst & _).
  rewrite Hst. eauto.
Qed.

Lemma packed_set_in_range bpp r s off x y m sh v :
  packing bpp r s -> 0 <= off ->
  0 <= x < header_w (header dsc) -> 0 <= y < header_h (header dsc) ->
  off + row_stride bpp (header_w (header dsc)) * header_h (header dsc)
    <= Z.of_nat (length (data dsc)) ->
  is_Some (with_data dsc
             <$> buf_set_bits (data dsc) off (packed_px (header_w (header dsc)) x y r s)
                   m sh v).
Proof.
  intros Hp Hoff Hx Hy Hlen. destruct Hwf as (Hw & Hh & _).
  destruct (packed_px_spec bpp r s _ x y Hp Hw Hx) as [Hpx Hrange]; [lia|].
  apply fmap_is_Some, buf_set_bits_in_range. rewrite Hpx.
  assert (0 <= row_stride bpp (header_w (header dsc))) by nia. nia.
Qed.

(** In-range writes stay inside the buffer. *)
Lemma setters_in_buffer x y c opa :
  0 <= x < header_w (header dsc) -> 0 <= y < header_h (header dsc) ->
  is_Some (lv_img_buf_set_px_color d dsc x y c)
  /\ is_Some (lv_img_buf_set_px_alpha d dsc x y opa).
Proof.
  intros Hx Hy. pose proof Hwf as (Hw & Hh & Hlen).
  unfold lv_img_buf_set_px_color, lv_img_buf_set_px_alpha, img_buf_size in *.
  destruct (header_cf (header dsc)) eqn:Hcf; simpl in Hlen; simpl;
    try (split; eauto; fail).
  - (* true color *)
    split; [|eauto].
    destruct (true_color_px_in_range (sizeof_lv_color_t d) x y) as (E & Hlo & Hhi);
      [destruct d; simpl; lia|lia..|].
    replace (to_u8 (Z.shiftr (LV_COLOR_SIZE d) 3)) with (sizeof_lv_color_t d)
      by (destruct d; reflexivity).
    replace (LV_COLOR_SIZE d) with (sizeof_lv_color_t d * 8) in Hlen
      by (destruct d; reflexivity).
    rewrite E. apply fmap_is_Some, buf_store_n_in_range; [lia|].
    rewrite length_Z_to_little_endian by (destruct d; simpl; lia). lia.
  - (* true color with alpha *)
    destruct (true_color_px_in_range (LV_IMG_PX_SIZE_ALPHA_BYTE d) x y) as (E & Hlo & Hhi);
      [destruct d; simpl; lia|lia..|].
    replace (to_u8 (Z.shiftr (Z.shiftl (LV_IMG_PX_SIZE_ALPHA_BYTE d) 3) 3))
      with (LV_IMG_PX_SIZE_ALPHA_BYTE d) by (destruct d; reflexivity).
    replace (Z.shiftl (LV_IMG_PX_SIZE_ALPHA_BYTE d) 3)
      with (LV_IMG_PX_SIZE_ALPHA_BYTE d * 8) in Hlen by (destruct d; reflexivity).
    rewrite E.
    assert (0 < LV_IMG_PX_SIZE_ALPHA_BYTE d <= 4) by (destruct d; simpl; lia).
    split.
    + apply fmap_is_Some, buf_store_n_in_range; [lia|].
      rewrite length_Z_to_little_endian by lia. lia.
    + rewrite to_u32_id by (change (2 ^ 32) with 4294967296; lia).
      apply fmap_is_Some.
      destruct (buf_store_load (data dsc) 0
                  ((header_w (header dsc) * y + x) * LV_IMG_PX_SIZE_ALPHA_BYTE d
                   + LV_IMG_PX_SIZE_ALPHA_BYTE d - 1) opa) as (buf' & Hst & _); [lia|].
      rewrite Hst. eauto.
  - (* true color chroma keyed *)
    split; [|eauto].
    destruct (true_color_px_in_range (sizeof_lv_color_t d) x y) as (E & Hlo & Hhi);
      [destruct d; simpl; lia|lia..|].
    replace (to_u8 (Z.shiftr (LV_COLOR_SIZE d) 3)) with (sizeof_lv_color_t d)
      by (destruct d; reflexivity).
    replace (LV_COLOR_SIZE d) with (sizeof_lv_color_t d * 8) in Hlen
      by (destruct d; reflexivity).
    rewrite E. apply fmap_is_Some, buf_store_n_in_range; [lia|].
    rewrite length_Z_to_little_endian by (destruct d; simpl; lia). lia.
  - split; [|eauto]. apply (packed_set_in_range 1 7 3 (4 * 2)); [constructor|lia..].
  - split; [|eauto]. apply (packed_set_in_range 2 3 2 (4 * 4)); [constructor|lia..].
  - split; [|eauto]. apply (packed_set_in_range 4 1 1 (4 * 16)); [constructor|lia..].
  - split; [|eauto].
    destruct (true_color_px_in_range 1 x y) as (E & Hlo & Hhi); [lia..|].
    rewrite !Z.mul_1_r in E. rewrite E. change (1 * 8) with 8 in Hhi.
    apply fmap_is_Some.
    destruct (buf_store_load (data dsc) (4 * 256) (header_w (header dsc) * y + x)
                (to_u8 c)) as (buf' & Hst & _); [lia|].
    rewrite Hst. eauto.
  - split; [eauto|]. apply (packed_set_in_range 1 7 3 0); [constructor|lia..].
  - split; [eauto|]. apply (packed_set_in_range 2 3 2 0); [constructor|lia..].
  - split; [eauto|]. apply (packed_set_in_range 4 1 1 0); [constructor|lia..].
  - split; [eauto|].
    destruct (true_color_px_in_range 1 x y) as (E & Hlo & Hhi); [lia..|].
    rewrite !Z.mul_1_r in E. rewrite E. change (1 * 8) with 8 in Hhi.
    apply fmap_is_Some.
    destruct (buf_store_load (data dsc) 0 (header_w (header dsc) * y + x) opa)
      as (buf' & Hst & _); [lia|].
    rewrite Hst. eauto.
Qed.

(** C4 (amended): [lv_img_buf_get_px_color] and [lv_img_buf_get_px_alpha]
    clamp their coordinates before addressing and never read outside the
    buffer, so reading at (-1, -1) is reading at (0, 0) and reading at
    (w, h) is reading at (w - 1, h - 1); [lv_img_buf_set_px_color] and
    [lv_img_buf_set_px_alpha] do not clamp, and stay inside the buffer when
    the coordinates are in range. *)
Theorem getters_clamp_setters_need_range x y style :
  lv_img_buf_get_px_color d dsc x y style
  = lv_img_buf_get_px_color d dsc (clamped x (header_w (header dsc)))
      (clamped y (header_h (header dsc))) style
  /\ lv_img_buf_get_px_alpha d dsc x y
     = lv_img_buf_get_px_alpha d dsc (clamped x (header_w (header dsc)))
         (clamped y (header_h (header dsc)))
  /\ is_Some (lv_img_buf_get_px_color d dsc x y style)
  /\ is_Some (lv_img_buf_get_px_alpha d dsc x y)
  /\ lv_img_buf_get_px_color d dsc (-1) (-1) style
     = lv_img_buf_get_px_color d dsc 0 0 style
  /\ lv_img_buf_get_px_color d dsc (header_w (header dsc)) (header_h (header dsc)) style
     = lv_img_buf_get_px_color d dsc (header_w (header dsc) - 1)
         (header_h (header dsc) - 1) style
  /\ (0 <= x < header_w (header dsc) -> 0 <= y < header_h (header dsc) ->
      forall c opa,
        is_Some (lv_img_buf_set_px_color d dsc x y c)
        /\ is_Some (lv_img_buf_set_px_alpha d dsc x y opa)).
Proof.
  pose proof Hwf as (Hw & Hh & _).
  destruct (getters_in_buffer x y style) as [Hgc Hga].
  refine (conj (get_px_color_clamps x y style)
            (conj (get_px_alpha_clamps x y) (conj Hgc (conj Hga (conj _ (conj _ _)))))).
  - rewrite (get_px_color_clamps (-1) (-1)), (get_px_color_clamps 0 0).
    unfold clamped. f_equal; lia.
  - rewrite (get_px_color_clamps (header_w (header dsc)) (header_h (header dsc))).
    rewrite (get_px_color_clamps (header_w (header dsc) - 1) (header_h (header dsc) - 1)).
    unfold clamped. f_equal; lia.
  - intros Hx Hy c opa. apply setters_in_buffer; assumption.
Qed.
End Getters.

(** On the 2 x 2 true colour image with alpha byte whose pixels are all
    different, the getters at (5, -3) read pixel (1, 0): colour 1284 and
    alpha 6; at (-1, -1) they read pixel (0, 0) and at (2, 2) pixel (1, 1).
    The setters at the in-range (1, 1) return. *)
Lemma getters_clamp_setters_need_range_witness :
  (lv_img_buf_get_px_color Depth16
     (img LV_IMG_CF_TRUE_COLOR_ALPHA 2 2 [1; 2; 3; 4; 5; 6; 7; 8; 9; 10; 11; 12]) 5 (-3) None
   = lv_img_buf_get_px_color Depth16
       (img LV_IMG_CF_TRUE_COLOR_ALPHA 2 2 [1; 2; 3; 4; 5; 6; 7; 8; 9; 10; 11; 12]) 1 0 None
   /\ lv_img_buf_get_px_alpha Depth16
        (img LV_IMG_CF_TRUE_COLOR_ALPHA 2 2 [1; 2; 3; 4; 5; 6; 7; 8; 9; 10; 11; 12]) 5 (-3)
      = lv_img_buf_get_px_alpha Depth16
          (img LV_IMG_CF_TRUE_COLOR_ALPHA 2 2 [1; 2; 3; 4; 5; 6; 7; 8; 9; 10; 11; 12]) 1 0
   /\ is_Some (lv_img_buf_get_px_color Depth16
                 (img LV_IMG_CF_TRUE_COLOR_ALPHA 2 2 [1; 2; 3; 4; 5; 6; 7; 8; 9; 10; 11; 12])
                 5 (-3) None)
   /\ is_Some (lv_img_buf_get_px_alpha Depth16
                 (img LV_IMG_CF_TRUE_COLOR_ALPHA 2 2 [1; 2; 3; 4; 5; 6; 7; 8; 9; 10; 11; 12])
                 5 (-3))
   /\ lv_img_buf_get_px_color Depth16
        (img LV_IMG_CF_TRUE_COLOR_ALPHA 2 2 [1; 2; 3; 4; 5; 6; 7; 8; 9; 10; 11; 12])
        (-1) (-1) None
      = lv_img_buf_get_px_color Depth16
          (img LV_IMG_CF_TRUE_COLOR_ALPHA 2 2 [1; 2; 3; 4; 5; 6; 7; 8; 9; 10; 11; 12]) 0 0 None
   /\ lv_img_buf_get_px_color Depth16
        (img LV_IMG_CF_TRUE_COLOR_ALPHA 2 2 [1; 2; 3; 4; 5; 6; 7; 8; 9; 10; 11; 12]) 2 2 None
      = lv_img_buf_get_px_color Depth16
          (img LV_IMG_CF_TRUE_COLOR_ALPHA 2 2 [1; 2; 3; 4; 5; 6; 7; 8; 9; 10; 11; 12]) 1 1 None
   /\ (0 <= 5 < 2 -> 0 <= -3 < 2 ->
       forall c opa,
         is_Some (lv_img_buf_set_px_color Depth16
                    (img LV_IMG_CF_TRUE_COLOR_ALPHA 2 2
                       [1; 2; 3; 4; 5; 6; 7; 8; 9; 10; 11; 12]) 5 (-3) c)
         /\ is_Some (lv_img_buf_set_px_alpha Depth16
                       (img LV_IMG_CF_TRUE_COLOR_ALPHA 2 2
                          [1; 2; 3; 4; 5; 6; 7; 8; 9; 10; 11; 12]) 5 (-3) opa)))
  /\ lv_img_buf_get_px_color Depth16
       (img LV_IMG_CF_TRUE_COLOR_ALPHA 2 2 [1; 2; 3; 4; 5; 6; 7; 8; 9; 10; 11; 12]) 5 (-3) None
     = Some 1284
  /\ lv_img_buf_get_px_alpha Depth16
       (img LV_IMG_CF_TRUE_COLOR_ALPHA 2 2 [1; 2; 3; 4; 5; 6; 7; 8; 9; 10; 11; 12]) 5 (-3)
     = Some 6
  /\ (forall c opa,
        is_Some (lv_img_buf_set_px_color Depth16
                   (img LV_IMG_CF_TRUE_COLOR_ALPHA 2 2
                      [1; 2; 3; 4; 5; 6; 7; 8; 9; 10; 11; 12]) 1 1 c)
        /\ is_Some (lv_img_buf_set_px_alpha Depth16
                      (img LV_IMG_CF_TRUE_COLOR_ALPHA 2 2
                         [1; 2; 3; 4; 5; 6; 7; 8; 9; 10; 11; 12]) 1 1 opa)).
Proof.
  assert (Hwf : dsc_wf Depth16
                  (img LV_IMG_CF_TRUE_COLOR_ALPHA 2 2 [1; 2; 3; 4; 5; 6; 7; 8; 9; 10; 11; 12])).
  { unfold dsc_wf. vm_compute. repeat split; congruence. }
  split; [|split; [|split]].
  - exact (getters_clamp_setters_need_range Depth16 _ Hwf 5 (-3) None).
  - rewrite (proj1 (getters_clamp_setters_need_range Depth16 _ Hwf 5 (-3) None)).
    reflexivity.
  - rewrite (proj1 (proj2 (getters_clamp_setters_need_range Depth16 _ Hwf 5 (-3) None))).
    reflexivity.
  - apply (getters_clamp_setters_need_range Depth16 _ Hwf 1 1 None); simpl; lia.
Defined.

(** ** Colour of alpha-only images, palette, source classifier *)

(** C10: on an Alpha-1/2/4/8-bit image [lv_img_buf_set_px_color] changes
    nothing, whatever the coordinate and the colour, although
    [lv_img_buf_get_px_color] answers with the colour of the style there. *)
Theorem set_px_color_alpha_only_noop d dsc x y c st :
  alpha_only (header_cf (header dsc)) ->
  lv_img_buf_set_px_color d dsc x y c = Some dsc
  /\ lv_img_buf_get_px_color d dsc x y (Some st) = Some (image_color st).
Proof.
  intros Hcf. unfold lv_img_buf_set_px_color, lv_img_buf_get_px_color.
  destruct Hcf as [-> | [-> | [-> | ->]]]; split; reflexivity.
Qed.

Lemma set_px_color_alpha_only_noop_witness :
  lv_img_buf_set_px_color Depth16 (img LV_IMG_CF_ALPHA_4BIT 2 1 [165]) 1 0 63488
  = Some (img LV_IMG_CF_ALPHA_4BIT 2 1 [165])
  /\ lv_img_buf_get_px_color Depth16 (img LV_IMG_CF_ALPHA_4BIT 2 1 [165]) 1 0
       (Some {| image_color := 31; image_intense := 0; image_opa := 255 |})
     = Some 31.
Proof.
  apply (set_px_color_alpha_only_noop Depth16 (img LV_IMG_CF_ALPHA_4BIT 2 1 [165]) 1 0 63488
           {| image_color := 31; image_intense := 0; image_opa := 255 |}).
  right. right. left. reflexivity.
Defined.

(** C1: on an Alpha-1-bit image, writing full opacity and reading it back
    gives transparent, and writing transparent gives back full opacity: the
    setter stores [opa >> 7], the getter maps a stored 1 to
    [LV_OPA_TRANSP]. *)
Theorem alpha_1bit_round_trip_inverted :
  (dsc' ← lv_img_buf_set_px_alpha Depth16 (img LV_IMG_CF_ALPHA_1BIT 8 1 [0]) 0 0 255;
   lv_img_buf_get_px_alpha Depth16 dsc' 0 0) = Some LV_OPA_TRANSP
  /\ (dsc' ← lv_img_buf_set_px_alpha Depth16 (img LV_IMG_CF_ALPHA_1BIT 8 1 [255]) 0 0 0;
      lv_img_buf_get_px_alpha Depth16 dsc' 0 0) = Some LV_OPA_COVER.
Proof. split; vm_compute; reflexivity. Qed.

(** C4: the setters take the coordinates as they are.  On a 2 x 2 image,
    writing at x = 2 changes the first pixel of the next row, and writing
    at y = 2 or at x = -1 leaves the buffer. *)
Lemma setters_do_not_clamp :
  lv_img_buf_set_px_alpha Depth16 (img LV_IMG_CF_ALPHA_8BIT 2 2 [1; 2; 3; 4]) 2 0 9
  = Some (img LV_IMG_CF_ALPHA_8BIT 2 2 [1; 2; 9; 4])
  /\ lv_img_buf_set_px_alpha Depth16 (img LV_IMG_CF_ALPHA_8BIT 2 2 [1; 2; 3; 4]) 0 2 9 = None
  /\ lv_img_buf_set_px_alpha Depth16 (img LV_IMG_CF_ALPHA_8BIT 2 2 [1; 2; 3; 4]) (-1) 0 9 = None
  /\ lv_img_buf_set_px_color Depth16 (img LV_IMG_CF_TRUE_COLOR 2 2 [1; 2; 3; 4; 5; 6; 7; 8])
       2 0 43981
     = Some (img LV_IMG_CF_TRUE_COLOR 2 2 [1; 2; 3; 4; 205; 171; 7; 8])
  /\ lv_img_buf_set_px_color Depth16 (img LV_IMG_CF_TRUE_COLOR 2 2 [1; 2; 3; 4; 5; 6; 7; 8])
       2 1 43981 = None.
Proof. repeat split; vm_compute; reflexivity. Qed.

(** C8: on an Indexed-1-bit image, whose palette has two entries,
    [lv_img_buf_set_palette] with index 5 logs nothing and overwrites bytes
    20 to 23, which are pixel rows. *)
Theorem set_palette_indexed_unchecked :
  lv_img_buf_set_palette (fun c => c)
    (img LV_IMG_CF_INDEXED_1BIT 8 16 (replicate 24 0)) 5 4281558681
  = Some (false, img LV_IMG_CF_INDEXED_1BIT 8 16 (replicate 20 0 ++ [153; 102; 51; 255])).
Proof. vm_compute. reflexivity. Qed.

Lemma set_palette_guard lv_color_to32 dsc id c :
  (header_cf (header dsc) = LV_IMG_CF_ALPHA_1BIT /\ id > 1) \/
  (header_cf (header dsc) = LV_IMG_CF_ALPHA_2BIT /\ id > 3) \/
  (header_cf (header dsc) = LV_IMG_CF_ALPHA_4BIT /\ id > 15) \/
  header_cf (header dsc) = LV_IMG_CF_ALPHA_8BIT ->
  lv_img_buf_set_palette lv_color_to32 dsc id c = Some (true, dsc).
Proof.
  intros H. unfold lv_img_buf_set_palette. rewrite bool_decide_eq_true_2 by assumption.
  reflexivity.
Qed.

Lemma set_palette_indexed_any_id lv_color_to32 dsc id c :
  palette_entries (header_cf (header dsc)) <> 0 ->
  lv_img_buf_set_palette lv_color_to32 dsc id c
  = (buf ← buf_store_n (data dsc) (id * 4) (Z_to_little_endian 4 8 (lv_color_to32 c));
     Some (false, with_data dsc buf)).
Proof.
  intros H. unfold lv_img_buf_set_palette.
  rewrite bool_decide_eq_false_2; [reflexivity|].
  intros [[E _]|[[E _]|[[E _]|E]]]; rewrite E in H; apply H; reflexivity.
Qed.

(** C6: [lv_img_src_get_type] answers Unknown for [NULL]; otherwise File
    when the first byte is in 0x20..0x7F, Symbol when it is at least 0x80,
    Variable when it is below 0x20. *)
Theorem src_get_type_spec (b : Z) (rest : list Z) :
  0 <= b < 256 ->
  lv_img_src_get_type None = Some LV_IMG_SRC_UNKNOWN
  /\ (32 <= b <= 127 -> lv_img_src_get_type (Some (b :: rest)) = Some LV_IMG_SRC_FILE)
  /\ (128 <= b -> lv_img_src_get_type (Some (b :: rest)) = Some LV_IMG_SRC_SYMBOL)
  /\ (b < 32 -> lv_img_src_get_type (Some (b :: rest)) = Some LV_IMG_SRC_VARIABLE).
Proof.
  intros Hb. split; [reflexivity|]. unfold lv_img_src_get_type. simpl.
  repeat split; intros; repeat case_bool_decide; try reflexivity; lia.
Qed.

Lemma src_get_type_spec_witness :
  lv_img_src_get_type (Some [83; 58; 47]) = Some LV_IMG_SRC_FILE.
Proof.
  refine (proj1 (proj2 (src_get_type_spec 83 [58; 47] _)) _); lia.
Defined.


(** ** Call traces of the drawing routines *)

Section GeneralCalls.
Variable env : draw_env.
Variables (map_area clip_area : lv_area_t) (map_p : list Z).
Variables (chroma_key alpha_byte : bool) (recolor recolor_opa : Z).

Lemma draw_map_line_masks draw_area map_w y st st' :
  draw_map_line env clip_area map_p chroma_key alpha_byte recolor recolor_opa
    draw_area map_w y st = Some st' ->
  Forall has_mask (st_calls st) -> Forall has_mask (st_calls st').
Proof.
  unfold draw_map_line. intros H Hst.
  destruct (draw_map_row _ _ _ _ _ _ _ _ _ _) as [[px [m2 mb]]|]; [|discriminate].
  cbn [mbind option_bind] in H.
  destruct (if bool_decide (lv_draw_mask_get_cnt env <> 0) then _ else _) as [mr mb'].
  case_bool_decide; injection H as <-; simpl; [assumption|].
  apply Forall_app. split; [assumption|]. apply Forall_singleton. discriminate.
Qed.

Lemma draw_map_lines_masks draw_area map_w n :
  forall y st st',
    draw_map_lines env clip_area map_p chroma_key alpha_byte recolor recolor_opa
      draw_area map_w n y st = Some st' ->
    Forall has_mask (st_calls st) -> Forall has_mask (st_calls st').
Proof.
  induction n as [|n IH]; intros y st st' H Hst; simpl in H.
  - injection H as <-. assumption.
  - destruct (draw_map_line _ _ _ _ _ _ _ _ _ _ _) as [st1|] eqn:E; [|discriminate].
    simpl in H. eapply IH; [exact H|]. eapply draw_map_line_masks; eassumption.
Qed.

Lemma draw_map_general_masks draw_area calls :
  draw_map_general env map_area clip_area map_p chroma_key alpha_byte recolor recolor_opa
    draw_area = Some calls ->
  Forall has_mask calls.
Proof.
  unfold draw_map_general. intros H.
  destruct (draw_map_lines _ _ _ _ _ _ _ _ _ _ _ _) as [st|] eqn:E; [|discriminate].
  apply draw_map_lines_masks in E; [|apply Forall_nil_2].
  simpl in H. case_bool_decide; injection H as <-; [|assumption].
  apply Forall_app. split; [assumption|]. apply Forall_singleton. discriminate.
Qed.

(** With a chroma-keyed or alpha format the bulk copy is never chosen. *)
Lemma lv_draw_map_not_fast opa calls :
  chroma_key || alpha_byte = true ->
  lv_draw_map env map_area clip_area map_p chroma_key alpha_byte recolor recolor_opa opa
    = Some calls ->
  Forall has_mask calls.
Proof.
  unfold lv_draw_map. intros Hk H.
  case_bool_decide; [injection H as <-; apply Forall_nil_2|].
  destruct (lv_area_intersect map_area clip_area) as [da|];
    [|injection H as <-; apply Forall_nil_2].
  assert (Hc : bool_decide (lv_draw_mask_get_cnt env = 0) && negb chroma_key
               && negb alpha_byte = false).
  { destruct chroma_key, alpha_byte; try discriminate;
      rewrite ?andb_false_r; reflexivity. }
  rewrite Hc in H. simpl in H.
  eapply draw_map_general_masks. exact H.
Qed.
End GeneralCalls.

Section Lines.
Variable env : draw_env.
Variables (mask : lv_area_t) (style : lv_style_t).
Variables (cdsc : lv_img_cache_entry_t) (opa : Z) (chroma_keyed alpha_byte : bool).
Variables (width x : Z).

Lemma rows_trace_cons y calls rows :
  rows_trace x y width (calls :: rows)
  = EvReadLine x y width true :: (EvBlend <$> calls) ++ rows_trace x (y + 1) width rows.
Proof.
  unfold rows_trace. rewrite imap_cons. simpl. rewrite Z.add_0_r. do 2 f_equal.
  f_equal. apply imap_ext. intros j c _. simpl. do 2 f_equal. lia.
Qed.

Lemma shift_line_0 line : shift_line line 0 = line.
Proof. destruct line. unfold shift_line. simpl. rewrite !Z.add_0_r. reflexivity. Qed.

Lemma draw_core_lines_abort rows :
  forall (n : nat) (line : lv_area_t) (y : Z),
    (length rows < n)%nat ->
    -32768 <= y -> y + Z.of_nat n <= 32767 ->
    -32768 <= y1 line -> y1 line + Z.of_nat n <= 32767 ->
    -32768 <= y2 line -> y2 line + Z.of_nat n <= 32767 ->
    (forall (j : nat) calls, rows !! j = Some calls ->
       exists buf,
         read_line (dec_dsc cdsc) x (y + Z.of_nat j) width = Some buf
         /\ lv_draw_map env (shift_line line (Z.of_nat j)) mask buf chroma_keyed alpha_byte
              (image_color style) (image_intense style) opa = Some calls) ->
    read_line (dec_dsc cdsc) x (y + Z.of_nat (length rows)) width = None ->
    draw_core_lines env mask style cdsc opa chroma_keyed alpha_byte width x n line y
    = Some (LV_RES_INV,
            rows_trace x y width rows
            ++ [EvReadLine x (y + Z.of_nat (length rows)) width false; EvDecoderClose]).
Proof.
  induction rows as [|calls rows IH]; intros n line y Hn Hy1 Hy2 Hl1 Hl2 Hl3 Hl4 Hrows Hfail.
  - destruct n as [|n]; [simpl in Hn; lia|]. simpl in *.
    rewrite Z.add_0_r in Hfail. rewrite Hfail. rewrite Z.add_0_r. reflexivity.
  - destruct n as [|n]; [simpl in Hn; lia|].
    destruct (Hrows 0%nat calls eq_refl) as (buf & Hread & Hmap).
    simpl in Hread. rewrite Z.add_0_r in Hread. rewrite shift_line_0 in Hmap.
    cbn [draw_core_lines]. rewrite Hread, Hmap. cbn [mbind option_bind].
    rewrite !to_coord_id by lia.
    change {| x1 := x1 line; y1 := y1 line + 1; x2 := x2 line; y2 := y2 line + 1 |}
      with (shift_line line 1).
    rewrite (IH n (shift_line line 1) (y + 1)); try (simpl in *; lia).
    + cbn [mbind option_bind]. rewrite rows_trace_cons. simpl.
      do 3 f_equal. rewrite <- app_assoc. do 4 f_equal. lia.
    + intros j c Hj. destruct (Hrows (S j) c Hj) as (buf' & Hr' & Hm').
      exists buf'. split.
      * rewrite <- Hr'. f_equal. lia.
      * rewrite <- Hm'. f_equal. unfold shift_line. simpl. f_equal; lia.
    + rewrite <- Hfail. f_equal. simpl. lia.
Qed.

End Lines.

Section CoreEvents.
Variable env : draw_env.
Variables (mask : lv_area_t) (style : lv_style_t).

Lemma draw_core_lines_events cdsc opa chroma_keyed alpha_byte width x (n : nat) :
  forall (line : lv_area_t) (y : Z) res tr,
    draw_core_lines env mask style cdsc opa chroma_keyed alpha_byte width x n line y
    = Some (res, tr) ->
    (In EvDecoderClose tr <-> res = LV_RES_INV)
    /\ (forall b, ~ In (EvCacheOpen b) tr)
    /\ (chroma_keyed = true ->
        forall c, In (EvBlend c) tr -> has_mask c).
Proof.
  induction n as [|n IH]; intros line y res tr H; simpl in H.
  - injection H as <- <-. simpl. split; [split; [tauto|discriminate]|]. split; tauto.
  - destruct (read_line (dec_dsc cdsc) x y width) as [buf|].
    + destruct (lv_draw_map _ _ _ _ _ _ _ _ _) as [calls|] eqn:Ec; [|discriminate].
      cbn [mbind option_bind] in H.
      destruct (draw_core_lines _ _ _ _ _ _ _ _ _ _ _ _) as [[res' tr']|] eqn:El;
        [|discriminate].
      cbn [mbind option_bind] in H. injection H as <- <-.
      destruct (IH _ _ _ _ El) as (Hclose & Hopen & Hmask).
      assert (Hb : forall e, In e (EvBlend <$> calls) -> exists c, e = EvBlend c /\ In c calls).
      { intros e He. apply list_elem_of_In, list_elem_of_fmap in He.
        destruct He as (c & -> & Hc). exists c. split; [reflexivity|].
        apply list_elem_of_In. assumption. }
      split; [|split].
      * rewrite <- Hclose. simpl. rewrite in_app_iff. split; [|tauto].
        intros [Hd|[Hd|Hd]]; [discriminate| |assumption].
        apply Hb in Hd. destruct Hd as (c & Hd & _). discriminate.
      * intros b [Hd|Hd]; [discriminate|]. apply in_app_iff in Hd.
        destruct Hd as [Hd|Hd]; [|eapply Hopen; eassumption].
        apply Hb in Hd. destruct Hd as (c & Hd & _). discriminate.
      * intros Hk c [Hd|Hd]; [discriminate|]. apply in_app_iff in Hd.
        destruct Hd as [Hd|Hd]; [|eapply Hmask; eassumption].
        apply Hb in Hd. destruct Hd as (c' & Hd & Hin). injection Hd as ->.
        subst chroma_keyed.
        pose proof (lv_draw_map_not_fast env line mask buf true alpha_byte _ _ _ _
                      eq_refl Ec) as Hall.
        rewrite Forall_forall in Hall. apply Hall. apply list_elem_of_In. assumption.
    + injection H as <- <-. simpl. split; [split; [reflexivity|tauto]|].
      split.
      * intros b [Hd|[Hd|[]]]; discriminate.
      * intros _ c [Hd|[Hd|[]]]; discriminate.
Qed.
End CoreEvents.

Section Core.
Variable env : draw_env.
Variable lv_img_cache_open : list Z -> lv_style_t -> option lv_img_cache_entry_t.
Variables (coords mask : lv_area_t) (style : lv_style_t).
Variables (src : list Z) (opa_scale : Z).

Lemma intersect_small a b r :
  area_small a -> area_small b -> lv_area_intersect a b = Some r ->
  area_small r /\ x1 r <= x2 r /\ y1 r <= y2 r
  /\ x1 r = Z.max (x1 a) (x1 b) /\ y1 r = Z.max (y1 a) (y1 b)
  /\ x2 r = Z.min (x2 a) (x2 b) /\ y2 r = Z.min (y2 a) (y2 b).
Proof.
  unfold area_small, lv_area_intersect. intros Ha Hb H.
  case_bool_decide as Hd; [discriminate|]. injection H as <-. simpl in *. lia.
Qed.

(** C3: in the line-by-line branch, when the lines of the first rows are
    read and drawn and the read of the next row fails, [lv_img_draw_core]
    returns [LV_RES_INV]; its calls are, in order, the cache open, the read
    and the blends of each earlier row, the failed read and the decoder
    close: no later row is read or drawn. *)
Theorem scanline_failure_aborts cdsc mask_com (rows : list (list blend_call)) :
  let dec := dec_dsc cdsc in
  let cf := header_cf (dec_header dec) in
  let opa := if bool_decide (opa_scale = LV_OPA_COVER) then image_opa style
             else to_u8 (Z.shiftr (to_u16 (to_u16 (image_opa style) * opa_scale)) 8) in
  let x := x1 mask_com - x1 coords in
  let y := y1 mask_com - y1 coords in
  let width := x2 mask_com - x1 mask_com + 1 in
  let line := {| x1 := x1 mask_com; y1 := y1 mask_com;
                 x2 := x2 mask_com; y2 := y1 mask_com |} in
  area_small coords -> area_small mask ->
  lv_area_intersect mask coords = Some mask_com ->
  lv_img_cache_open src style = Some cdsc ->
  error_msg dec = None -> img_data dec = None ->
  Z.of_nat (length rows) < y2 mask_com - y1 mask_com + 1 ->
  (forall (j : nat) calls, rows !! j = Some calls ->
     exists buf,
       read_line dec x (y + Z.of_nat j) width = Some buf
       /\ lv_draw_map env (shift_line line (Z.of_nat j)) mask buf
            (lv_img_color_format_is_chroma_keyed cf) (lv_img_color_format_has_alpha cf)
            (image_color style) (image_intense style) opa = Some calls) ->
  read_line dec x (y + Z.of_nat (length rows)) width = None ->
  lv_img_draw_core env lv_img_cache_open coords mask style src opa_scale
  = Some (LV_RES_INV,
          EvCacheOpen true
            :: rows_trace x y width rows
            ++ [EvReadLine x (y + Z.of_nat (length rows)) width false; EvDecoderClose]).
Proof.
  intros dec cf opa x y width line Hc Hm Hint Hopen Herr Hdata Hlen Hrows Hfail.
  destruct (intersect_small _ _ _ Hm Hc Hint) as (Hs & Hx & Hy & _).
  unfold lv_img_draw_core. rewrite Hint, Hopen.
  fold dec. rewrite Herr, Hdata. fold cf. fold opa.
  unfold lv_area_get_width, lv_area_set_height.
  unfold area_small in *.
  rewrite !to_coord_id by lia.
  replace (y1 mask_com + 1 - 1) with (y1 mask_com) by lia.
  fold x y width line.
  rewrite (draw_core_lines_abort env mask style cdsc opa
             (lv_img_color_format_is_chroma_keyed cf) (lv_img_color_format_has_alpha cf)
             width x rows); try (subst y line; simpl; lia); try assumption.
  reflexivity.
Qed.
End Core.

Lemma scanline_failure_aborts_witness :
  lv_img_draw_core (env_ex Depth16) (fun _ _ => Some streaming_ex)
    (area 0 0 1 9) (area 0 0 7 9) style_ex [] 255
  = Some (LV_RES_INV,
          EvCacheOpen true
            :: rows_trace 0 0 2 rows_ex ++ [EvReadLine 0 5 2 false; EvDecoderClose]).
Proof.
  apply (scanline_failure_aborts (env_ex Depth16) (fun _ _ => Some streaming_ex)
           (area 0 0 1 9) (area 0 0 7 9) style_ex [] 255 streaming_ex (area 0 0 1 9) rows_ex).
  - unfold area_small; simpl; lia.
  - unfold area_small; simpl; lia.
  - reflexivity.
  - reflexivity.
  - reflexivity.
  - reflexivity.
  - simpl; lia.
  - intros j calls Hj.
    do 5 (destruct j as [|j];
          [injection Hj as <-; eexists; split; reflexivity|]).
    discriminate.
  - reflexivity.
Defined.

Lemma in_blend_events e calls :
  In e (EvBlend <$> calls) -> exists c, e = EvBlend c /\ In c calls.
Proof.
  intros He. apply list_elem_of_In, list_elem_of_fmap in He.
  destruct He as (c & -> & Hc). exists c. split; [reflexivity|].
  apply list_elem_of_In. assumption.
Qed.

Section LinesFailed.
Variable env : draw_env.
Variables (mask : lv_area_t) (style : lv_style_t).

Lemma draw_core_lines_failed cdsc opa chroma_keyed alpha_byte width x (n : nat) :
  forall (line : lv_area_t) (y : Z) res tr,
    draw_core_lines env mask style cdsc opa chroma_keyed alpha_byte width x n line y
    = Some (res, tr) ->
    (read_failed tr <-> res = LV_RES_INV).
Proof.
  induction n as [|n IH]; intros line y res tr H; simpl in H.
  - injection H as <- <-. split; [intros (? & ? & ? & [])|discriminate].
  - destruct (read_line (dec_dsc cdsc) x y width) as [buf|].
    + destruct (lv_draw_map _ _ _ _ _ _ _ _ _) as [calls|] eqn:Ec; [|discriminate].
      cbn [mbind option_bind] in H.
      destruct (draw_core_lines _ _ _ _ _ _ _ _ _ _ _ _) as [[res' tr']|] eqn:El;
        [|discriminate].
      cbn [mbind option_bind] in H. injection H as <- <-.
      rewrite <- (IH _ _ _ _ El). unfold read_failed. split.
      * intros (a & b & l & [Hd|Hd]); [discriminate|].
        apply in_app_iff in Hd. destruct Hd as [Hd|Hd]; [|eauto].
        apply in_blend_events in Hd. destruct Hd as (c & Hd & _). discriminate.
      * intros (a & b & l & Hd). exists a, b, l. right. apply in_app_iff. tauto.
    + injection H as <- <-. split; [reflexivity|]. intros _.
      exists x, y, width. left. reflexivity.
Qed.

End LinesFailed.

Section CoreTheorems.
Variable env : draw_env.
Variable lv_img_cache_open : list Z -> lv_style_t -> option lv_img_cache_entry_t.
Variables (coords mask : lv_area_t) (style : lv_style_t).

(** C7 (amended): a call of [lv_img_draw_core] that opened a cache entry
    closes its decoder exactly when a line read failed, which is exactly
    when it returns [LV_RES_INV]; on the full-buffer path, on the
    line-by-line path without a failure and on the decoder-error path the
    entry is left open. *)
Theorem decoder_closed_only_on_abort src opa_scale res tr :
  lv_img_draw_core env lv_img_cache_open coords mask style src opa_scale = Some (res, tr) ->
  In (EvCacheOpen true) tr ->
  (In EvDecoderClose tr <-> read_failed tr)
  /\ (In EvDecoderClose tr <-> res = LV_RES_INV).
Proof.
  unfold lv_img_draw_core. intros H Hopen.
  destruct (lv_area_intersect mask coords) as [mask_com|];
    [|injection H as <- <-; destruct Hopen].
  destruct (lv_img_cache_open src style) as [cdsc|];
    [|injection H as <- <-; destruct Hopen as [Hd|[]]; discriminate].
  destruct (error_msg (dec_dsc cdsc)) as [msg|].
  { injection H as <- <-. split; split.
    - intros [Hd|[Hd|[Hd|[]]]]; discriminate.
    - intros (a & b & l & [Hd|[Hd|[Hd|[]]]]); discriminate.
    - intros [Hd|[Hd|[Hd|[]]]]; discriminate.
    - discriminate. }
  destruct (img_data (dec_dsc cdsc)) as [map_p|].
  { destruct (lv_draw_map _ _ _ _ _ _ _ _ _) as [calls|]; [|discriminate].
    cbn [mbind option_bind] in H. injection H as <- <-. split; split.
    - intros [Hd|Hd]; [discriminate|].
      apply in_blend_events in Hd. destruct Hd as (c & Hd & _). discriminate.
    - intros (a & b & l & [Hd|Hd]); [discriminate|].
      apply in_blend_events in Hd. destruct Hd as (c & Hd & _). discriminate.
    - intros [Hd|Hd]; [discriminate|].
      apply in_blend_events in Hd. destruct Hd as (c & Hd & _). discriminate.
    - discriminate. }
  destruct (draw_core_lines _ _ _ _ _ _ _ _ _ _ _ _) as [[res' tr']|] eqn:El;
    [|discriminate].
  cbn [mbind option_bind] in H. injection H as <- <-.
  pose proof El as Hfail. apply draw_core_lines_failed in Hfail.
  apply draw_core_lines_events in El. destruct El as (Hclose & _ & _).
  assert (Hc : In EvDecoderClose (EvCacheOpen true :: tr') <-> res' = LV_RES_INV).
  { simpl. split; [intros [Hd|Hd]; [discriminate|]|]; tauto. }
  split; [|exact Hc]. rewrite Hc, <- Hfail. unfold read_failed. split.
  - intros (a & b & l & Hd). exists a, b, l. right. assumption.
  - intros (a & b & l & [Hd|Hd]); [discriminate|]. eauto.
Qed.

(** C9: the chroma-key look-up is true for the chroma-keyed true colour
    and raw formats and for the four indexed formats, false for the others;
    so no blend call of [lv_img_draw_core] on an indexed source is the bulk
    copy (they all pass a mask array). *)
Theorem indexed_source_never_bulk_copied :
  (forall cf,
     lv_img_color_format_is_chroma_keyed cf = true <->
     cf = LV_IMG_CF_TRUE_COLOR_CHROMA_KEYED \/ cf = LV_IMG_CF_RAW_CHROMA_KEYED \/
     indexed cf)
  /\ (forall src opa_scale cdsc res tr c,
        lv_img_cache_open src style = Some cdsc ->
        indexed (header_cf (dec_header (dec_dsc cdsc))) ->
        lv_img_draw_core env lv_img_cache_open coords mask style src opa_scale
          = Some (res, tr) ->
        In (EvBlend c) tr -> bc_mask c <> None).
Proof.
  split.
  - intros cf. unfold indexed. split.
    + destruct cf; simpl; intros H; try discriminate; tauto.
    + intros [->|[->|[->|[->|[->| ->]]]]]; reflexivity.
  - intros src opa_scale cdsc res tr c Hopen Hidx H Hin.
    assert (Hk : lv_img_color_format_is_chroma_keyed
                   (header_cf (dec_header (dec_dsc cdsc))) = true).
    { destruct Hidx as [-> | [-> | [-> | ->]]]; reflexivity. }
    unfold lv_img_draw_core in H.
    destruct (lv_area_intersect mask coords) as [mask_com|];
      [|injection H as <- <-; destruct Hin].
    rewrite Hopen, Hk in H.
    destruct (error_msg (dec_dsc cdsc)) as [msg|].
    { injection H as <- <-. destruct Hin as [Hd|[Hd|[Hd|[]]]]; discriminate. }
    destruct (img_data (dec_dsc cdsc)) as [map_p|].
    { destruct (lv_draw_map _ _ _ _ _ _ _ _ _) as [calls|] eqn:Ec; [|discriminate].
      cbn [mbind option_bind] in H. injection H as <- <-.
      destruct Hin as [Hd|Hd]; [discriminate|].
      apply in_blend_events in Hd. destruct Hd as (c' & Hd & Hc). injection Hd as ->.
      pose proof (lv_draw_map_not_fast env coords mask map_p true _ _ _ _ _ eq_refl Ec)
        as Hall.
      rewrite Forall_forall in Hall. apply Hall. apply list_elem_of_In. assumption. }
    destruct (draw_core_lines _ _ _ _ _ _ _ _ _ _ _ _) as [[res' tr']|] eqn:El;
      [|discriminate].
    cbn [mbind option_bind] in H. injection H as <- <-.
    apply draw_core_lines_events in El. destruct El as (_ & _ & Hmask).
    destruct Hin as [Hd|Hd]; [discriminate|].
    apply (Hmask eq_refl c Hd).
Qed.
End CoreTheorems.

Lemma decoder_closed_only_on_abort_witness :
  (In EvDecoderClose
     (EvCacheOpen true
        :: rows_trace 0 0 2 rows_ex ++ [EvReadLine 0 5 2 false; EvDecoderClose])
   <-> read_failed
         (EvCacheOpen true
            :: rows_trace 0 0 2 rows_ex ++ [EvReadLine 0 5 2 false; EvDecoderClose]))
  /\ (In EvDecoderClose
        (EvCacheOpen true
           :: rows_trace 0 0 2 rows_ex ++ [EvReadLine 0 5 2 false; EvDecoderClose])
      <-> LV_RES_INV = LV_RES_INV).
Proof.
  apply (decoder_closed_only_on_abort (env_ex Depth16) (fun _ _ => Some streaming_ex)
           (area 0 0 1 9) (area 0 0 7 9) style_ex [] 255).
  - vm_compute. reflexivity.
  - left. reflexivity.
Defined.

(** C7: the successful full-buffer path opens the entry and never closes it. *)
Lemma full_buffer_path_leaves_entry_open :
  lv_img_draw_core (env_ex Depth16) (fun _ _ => Some (full_ex LV_IMG_CF_TRUE_COLOR))
    (area 0 0 1 1) (area 0 0 7 9) style_ex [] 255
  = Some (LV_RES_OK,
          [EvCacheOpen true;
           EvBlend {| bc_clip := area 0 0 7 9; bc_area := area 0 0 1 1;
                      bc_map := [1; 2; 3; 4]; bc_mask := None;
                      bc_mask_res := LV_MASK_RES_FULL_COVER; bc_opa := 255;
                      bc_mode := LV_BLEND_MODE_NORMAL |}])
  /\ ~ In EvDecoderClose
         [EvCacheOpen true;
          EvBlend {| bc_clip := area 0 0 7 9; bc_area := area 0 0 1 1;
                     bc_map := [1; 2; 3; 4]; bc_mask := None;
                     bc_mask_res := LV_MASK_RES_FULL_COVER; bc_opa := 255;
                     bc_mode := LV_BLEND_MODE_NORMAL |}].
Proof.
  split; [vm_compute; reflexivity|].
  intros [Hd|[Hd|[]]]; discriminate.
Qed.

Lemma indexed_source_never_bulk_copied_witness :
  bc_mask indexed_call_ex <> None.
Proof.
  apply (proj2 (indexed_source_never_bulk_copied (env_ex Depth16)
                  (fun _ _ => Some (full_ex LV_IMG_CF_INDEXED_4BIT))
                  (area 0 0 1 1) (area 0 0 7 9) style_ex)
           [] 255 (full_ex LV_IMG_CF_INDEXED_4BIT) LV_RES_OK
           [EvCacheOpen true; EvBlend indexed_call_ex] indexed_call_ex).
  - reflexivity.
  - right. right. left. reflexivity.
  - vm_compute. reflexivity.
  - right. left. reflexivity.
Defined.

(** ** The bulk copy against the per-pixel path *)

Lemma lor_byte_shift a b :
  0 <= a < 256 -> Z.lor a (Z.shiftl b 8) = a + Z.shiftl b 8.
Proof.
  intros Ha. rewrite Z.add_nocarry_lxor, Z.lxor_lor; try reflexivity.
  all: apply Z.bits_inj'; intros i Hi; rewrite Z.land_spec, Z.bits_0.
  all: destruct (Z.ltb_spec i 8) as [Hlt|Hge].
  all: try (rewrite Z.shiftl_spec_low by lia; apply andb_false_r).
  all: replace a with (a `mod` 2 ^ 8) by (apply Z.mod_small; lia).
  all: rewrite Z.mod_pow2_bits_high by lia; reflexivity.
Qed.

Lemma colors_of_bytes_lookup (sz : nat) :
  (0 < sz)%nat ->
  forall (idx fuel : nat) (bytes : list Z),
    (idx * sz + sz <= length bytes)%nat -> (length bytes <= fuel)%nat ->
    colors_of_bytes sz fuel bytes !! idx
    = Some (little_endian_to_Z 8 (take sz (drop (idx * sz) bytes))).
Proof.
  intros Hsz. induction idx as [|idx IH]; intros fuel bytes Hlen Hfuel.
  - destruct fuel as [|fuel]; [lia|]. destruct bytes as [|b bytes]; [simpl in Hlen; lia|].
    reflexivity.
  - destruct fuel as [|fuel]; [lia|]. destruct bytes as [|b bytes]; [simpl in Hlen; lia|].
    cbn [colors_of_bytes]. rewrite lookup_cons_ne_0 by lia.
    replace (Nat.pred (S idx)) with idx by lia.
    rewrite IH.
    + rewrite drop_drop. do 3 f_equal; lia.
    + rewrite length_drop. lia.
    + rewrite length_drop. simpl in *. lia.
Qed.

Lemma buf_load_lookup buf off px :
  0 <= off + px -> buf_load buf off px = buf !! Z.to_nat (off + px).
Proof. intros. unfold buf_load. rewrite bool_decide_eq_true_2 by lia. reflexivity. Qed.

Section ReadPx.
Variable env : draw_env.
Variable map_p : list Z.
Hypothesis Hbytes : Forall (fun b => 0 <= b < 256) map_p.

Lemma byte_at (i : nat) :
  (i < length map_p)%nat -> exists b, map_p !! i = Some b /\ 0 <= b < 256.
Proof.
  intros Hi. destruct (lookup_lt_is_Some_2 map_p i Hi) as [b Hb].
  exists b. split; [assumption|].
  rewrite Forall_forall in Hbytes. apply Hbytes.
  apply list_elem_of_lookup. eauto.
Qed.

Lemma read_px_color_spec (idx : Z) :
  0 <= idx ->
  idx * sizeof_lv_color_t (LV_COLOR_DEPTH env) + sizeof_lv_color_t (LV_COLOR_DEPTH env)
    <= Z.of_nat (length map_p) ->
  read_px_color env map_p (idx * sizeof_lv_color_t (LV_COLOR_DEPTH env))
  = Some (decoded_color (LV_COLOR_DEPTH env)
            (as_color_array (LV_COLOR_DEPTH env) map_p !!! Z.to_nat idx)).
Proof.
  intros Hidx Hlen.
  assert (Hsz : 0 < sizeof_lv_color_t (LV_COLOR_DEPTH env) <= 4)
    by (destruct (LV_COLOR_DEPTH env); simpl; lia).
  assert (Hlk : as_color_array (LV_COLOR_DEPTH env) map_p !! Z.to_nat idx
                = Some (little_endian_to_Z 8
                          (take (Z.to_nat (sizeof_lv_color_t (LV_COLOR_DEPTH env)))
                             (drop (Z.to_nat idx
                                    * Z.to_nat (sizeof_lv_color_t (LV_COLOR_DEPTH env)))
                                   map_p)))).
  { apply colors_of_bytes_lookup; [lia| |lia]. nia. }
  rewrite (list_lookup_total_correct _ _ _ Hlk).
  set (o := (Z.to_nat idx * Z.to_nat (sizeof_lv_color_t (LV_COLOR_DEPTH env)))%nat).
  assert (Ho : idx * sizeof_lv_color_t (LV_COLOR_DEPTH env) = Z.of_nat o) by (subst o; nia).
  rewrite Ho in Hlen. rewrite Ho. clearbody o. clear Hlk Ho.
  unfold read_px_color. rewrite !buf_load_lookup by lia.
  destruct (LV_COLOR_DEPTH env); simpl in Hlen, Hsz |- *.
  - destruct (byte_at o) as (b0 & Hb0 & ?); [lia|].
    replace (Z.to_nat (Z.of_nat o + 0)) with o by lia. rewrite Hb0.
    rewrite (drop_S _ _ _ Hb0). simpl.
    rewrite Z.lor_0_r. reflexivity.
  - destruct (byte_at o) as (b0 & Hb0 & ?); [lia|].
    destruct (byte_at (S o)) as (b1 & Hb1 & ?); [lia|].
    replace (Z.to_nat (Z.of_nat o + 0)) with o by lia.
    replace (Z.to_nat (Z.of_nat o + 1)) with (S o) by lia.
    rewrite Hb0, Hb1. simpl.
    rewrite (drop_S _ _ _ Hb0), (drop_S _ _ _ Hb1). simpl.
    rewrite Z.lor_0_r. rewrite lor_byte_shift by lia. reflexivity.
  - destruct (byte_at o) as (b0 & Hb0 & ?); [lia|].
    destruct (byte_at (S o)) as (b1 & Hb1 & ?); [lia|].
    destruct (byte_at (S (S o))) as (b2 & Hb2 & ?); [lia|].
    destruct (byte_at (S (S (S o)))) as (b3 & Hb3 & ?); [lia|].
    replace (Z.to_nat (Z.of_nat o + 0)) with o by lia.
    replace (Z.to_nat (Z.of_nat o + 1)) with (S o) by lia.
    replace (Z.to_nat (Z.of_nat o + 2)) with (S (S o)) by lia.
    rewrite Hb0, Hb1, Hb2. simpl.
    rewrite (drop_S _ _ _ Hb0), (drop_S _ _ _ Hb1), (drop_S _ _ _ Hb2),
      (drop_S _ _ _ Hb3). simpl.
    rewrite Z.lor_0_r. rewrite !lor_byte_shift by lia.
    rewrite !Z.shiftl_mul_pow2 by lia.
    change 16777215 with (Z.ones 24). rewrite Z.land_ones by lia.
    f_equal. Z.div_mod_to_equations. lia.
Qed.
End ReadPx.

Section RowCopy.
Variable env : draw_env.
Variable map_p : list Z.
Variable recolor : Z.
Hypothesis Hbytes : Forall (fun b => 0 <= b < 256) map_p.

Local Abbreviation sz := (sizeof_lv_color_t (LV_COLOR_DEPTH env)).

Lemma draw_map_px_copy idx p m2 mb :
  0 <= idx -> idx * sz + sz <= Z.of_nat (length map_p) ->
  0 <= p < Z.of_nat (length m2) -> p < Z.of_nat (length mb) ->
  draw_map_px env map_p false false recolor LV_OPA_TRANSP (idx * sz) p (m2, mb)
  = Some (<[Z.to_nat p := general_px env map_p idx]> m2,
          <[Z.to_nat p := LV_OPA_COVER]> mb).
Proof.
  intros Hidx Hsrc Hp Hp'. unfold draw_map_px, buf_store.
  rewrite (read_px_color_spec env map_p Hbytes idx Hidx Hsrc).
  rewrite (bool_decide_eq_true_2 (0 <= 0 + p < Z.of_nat (length mb))) by lia.
  rewrite (bool_decide_eq_true_2 (0 <= 0 + p < Z.of_nat (length m2))) by lia.
  rewrite (bool_decide_eq_false_2 (LV_OPA_TRANSP <> 0)) by (unfold LV_OPA_TRANSP; lia).
  reflexivity.
Qed.

Lemma draw_map_row_copy (n : nat) :
  forall idx p m2 mb,
    0 <= idx -> (idx + Z.of_nat n) * sz <= Z.of_nat (length map_p) ->
    0 <= p -> p + Z.of_nat n <= Z.of_nat (length m2) ->
    p + Z.of_nat n <= Z.of_nat (length mb) -> p + Z.of_nat n < 2 ^ 32 ->
    exists m2' mb',
      draw_map_row env map_p false false recolor LV_OPA_TRANSP n (idx * sz) p (m2, mb)
      = Some (p + Z.of_nat n, (m2', mb'))
      /\ length m2' = length m2 /\ length mb' = length mb
      /\ forall k : nat,
           m2' !! k = if bool_decide (p <= Z.of_nat k < p + Z.of_nat n)
                      then Some (general_px env map_p (idx + (Z.of_nat k - p)))
                      else m2 !! k.
Proof.
  assert (Hsz : 0 < sz <= 4) by (destruct (LV_COLOR_DEPTH env); simpl; lia).
  induction n as [|n IH]; intros idx p m2 mb Hidx Hsrc Hp Hm2 Hmb Hu.
  - exists m2, mb. simpl. rewrite Z.add_0_r. repeat split; try reflexivity.
    intros k. rewrite bool_decide_eq_false_2 by lia. reflexivity.
  - cbn [draw_map_row].
    rewrite draw_map_px_copy by nia. cbn [mbind option_bind].
    unfold px_size_byte.
    replace (idx * sz + sz) with ((idx + 1) * sz) by ring.
    rewrite to_u32_id by lia.
    destruct (IH (idx + 1) (p + 1) (<[Z.to_nat p := general_px env map_p idx]> m2)
                (<[Z.to_nat p := LV_OPA_COVER]> mb))
      as (m2' & mb' & Hrow & Hl2 & Hlb & Hlk);
      rewrite ?length_insert; try nia; try lia.
    exists m2', mb'. rewrite Hrow. split; [do 2 f_equal; lia|].
    rewrite Hl2, Hlb, !length_insert. repeat split; try reflexivity.
    intros k. rewrite Hlk.
    destruct (decide (Z.of_nat k = p)) as [Hk|Hk].
    + rewrite bool_decide_eq_false_2 by lia. rewrite bool_decide_eq_true_2 by lia.
      replace k with (Z.to_nat p) by lia.
      rewrite list_lookup_insert_eq by lia. do 2 f_equal. lia.
    + rewrite list_lookup_insert_ne by lia.
      repeat case_bool_decide; try lia; try reflexivity. do 2 f_equal. lia.
Qed.
End RowCopy.

Ltac coord_norm :=
  repeat match goal with
         | |- context [to_coord ?z] =>
             lazymatch z with
             | context [to_coord _] => fail
             | _ => rewrite (to_coord_id z) by lia
             end
         end.

Section Equiv.
Variable env : draw_env.
Variables (map_area clip_area draw : lv_area_t) (map_p : list Z) (recolor : Z).
Variable blend_other : blend_call -> canvas -> canvas.
Variable dest : canvas.

Hypothesis Hcnt : lv_draw_mask_get_cnt env = 0.
Hypothesis HM : area_small map_area.
Hypothesis HC : area_small clip_area.
Hypothesis HV : area_small (vdb_area env).
Hypothesis Hint : lv_area_intersect map_area clip_area = Some draw.
Hypothesis Hres : x2 draw - x1 draw + 1 <= LV_HOR_RES_MAX env <= 32767.
Hypothesis Hm2 : Z.of_nat (length (map2_init env)) = LV_HOR_RES_MAX env.
Hypothesis Hmb : Z.of_nat (length (mask_buf_init env)) = LV_HOR_RES_MAX env.
Hypothesis Hbytes : Forall (fun b => 0 <= b < 256) map_p.
Hypothesis Hsrc :
  (x2 map_area - x1 map_area + 1) * (y2 map_area - y1 map_area + 1)
  * sizeof_lv_color_t (LV_COLOR_DEPTH env) <= Z.of_nat (length map_p).

Local Abbreviation sz := (sizeof_lv_color_t (LV_COLOR_DEPTH env)).
Local Abbreviation W := (x2 draw - x1 draw + 1).
Local Abbreviation H := (y2 draw - y1 draw + 1).
Local Abbreviation mw := (x2 map_area - x1 map_area + 1).
Local Abbreviation rel := (rel_area (vdb_area env) draw).
Local Abbreviation Inv := (general_inv env map_area draw map_p blend_other dest).

Lemma draw_facts :
  area_small draw /\ x1 draw <= x2 draw /\ y1 draw <= y2 draw
  /\ x1 map_area <= x1 draw /\ x2 draw <= x2 map_area
  /\ y1 map_area <= y1 draw /\ y2 draw <= y2 map_area
  /\ x1 clip_area <= x1 draw /\ x2 draw <= x2 clip_area
  /\ y1 clip_area <= y1 draw /\ y2 draw <= y2 clip_area.
Proof.
  destruct (intersect_small _ _ _ HM HC Hint) as (Hs & Hx & Hy & E1 & E2 & E3 & E4).
  repeat split; try apply Hs; lia.
Qed.

Lemma sz_bounds : 0 < sz <= 4.
Proof. destruct (LV_COLOR_DEPTH env); simpl; lia. Qed.

Lemma rel_width : lv_area_get_width rel = W.
Proof.
  destruct draw_facts as (Hs & ?). unfold area_small in *.
  unfold lv_area_get_width, rel_area. simpl. coord_norm. lia.
Qed.

Lemma rel_height : lv_area_get_height rel = H.
Proof.
  destruct draw_facts as (Hs & ?). unfold area_small in *.
  unfold lv_area_get_height, rel_area. simpl. coord_norm. lia.
Qed.

(** A row of the draw area lies inside the source. *)
Lemma src_row_in_source r :
  0 <= r < H ->
  0 <= src_index map_area (x1 draw) (y1 draw + r)
  /\ (src_index map_area (x1 draw) (y1 draw + r) + W) * sz <= Z.of_nat (length map_p).
Proof.
  intros Hr. destruct draw_facts as (Hs & Hx & Hy & Hx1 & Hx2 & Hy1 & Hy2 & _).
  pose proof sz_bounds as Hsz. unfold src_index.
  assert (0 <= y1 draw + r - y1 map_area <= y2 map_area - y1 map_area) by lia.
  assert (0 <= x1 draw - x1 map_area) by lia.
  assert (x1 draw - x1 map_area + W <= mw) by lia.
  split; [nia|].
  assert ((y1 draw + r - y1 map_area) * mw + (x1 draw - x1 map_area) + W
          <= mw * (y2 map_area - y1 map_area + 1)) by nia.
  nia.
Qed.

Lemma run_blends_snoc calls c X Y :
  run_blends blend_other (calls ++ [c]) dest X Y
  = lv_blend_map blend_other c (run_blends blend_other calls dest) X Y.
Proof. unfold run_blends. rewrite foldl_app. reflexivity. Qed.

(** Flushing rows [s .. r] of the draw area out of [map2]. *)
Lemma flush_canvas st0 m2 r s X Y :
  0 <= s <= r -> r < H ->
  st_map2 st0 = m2 -> st_mask_res st0 = LV_MASK_RES_FULL_COVER ->
  (forall j i, 0 <= j < r + 1 - s -> 0 <= i < W ->
     m2 !! Z.to_nat (j * W + i)
     = Some (general_px env map_p (src_index map_area (x1 draw + i) (y1 draw + s + j)))) ->
  forall prev : canvas,
  (prev X Y = if bool_decide (x1 draw <= X <= x2 draw /\ y1 draw <= Y < y1 draw + s)
              then general_px env map_p (src_index map_area X Y)
              else dest X Y) ->
  lv_blend_map blend_other
    (blend_general clip_area st0
       {| x1 := x1 draw; y1 := y1 draw + s; x2 := x2 draw; y2 := y1 draw + r |})
    prev X Y
  = if bool_decide (x1 draw <= X <= x2 draw /\ y1 draw <= Y < y1 draw + (r + 1))
    then general_px env map_p (src_index map_area X Y)
    else dest X Y.
Proof.
  intros Hrs Hr Hm2' Hmres Hmap prev Hprev.
  destruct draw_facts as (Hs & Hx & Hy & Hx1 & Hx2 & Hy1 & Hy2 & Hc1 & Hc2 & Hc3 & Hc4).
  unfold area_small in Hs.
  unfold lv_blend_map, blend_general. cbn [bc_mask_res bc_opa bc_clip bc_area bc_map].
  rewrite Hmres, Hm2'.
  rewrite bool_decide_eq_true_2 by (split; reflexivity).
  unfold area_contains, lv_area_get_width. cbn [x1 x2 y1 y2].
  rewrite to_coord_id by lia.
  destruct (bool_decide (x1 draw <= X <= x2 draw /\ y1 draw + s <= Y <= y1 draw + r)) eqn:Ein.
  - apply bool_decide_eq_true_1 in Ein.
    rewrite (bool_decide_eq_true_2 (x1 clip_area <= X <= x2 clip_area
                                    /\ y1 clip_area <= Y <= y2 clip_area)) by lia.
    cbn [andb].
    rewrite (bool_decide_eq_true_2 (x1 draw <= X <= x2 draw
                                    /\ y1 draw <= Y < y1 draw + (r + 1))) by lia.
    assert (Hl := Hmap (Y - (y1 draw + s)) (X - x1 draw) ltac:(lia) ltac:(lia)).
    rewrite (list_lookup_total_correct _ _ _ Hl). do 2 f_equal; lia.
  - apply bool_decide_eq_false_1 in Ein. rewrite andb_false_r. rewrite Hprev.
    repeat case_bool_decide; try reflexivity; lia.
Qed.

Lemma general_step r s st y :
  Inv r s st -> 0 <= r < H ->
  exists st' s',
    draw_map_line env clip_area map_p false false recolor LV_OPA_TRANSP rel mw y st
    = Some st'
    /\ Inv (r + 1) s' st'.
Proof.
  intros [Hrows Htmp Hpx Hroom Hl2 Hlb Harea Hmres Hmap Hcanvas] Hr.
  destruct draw_facts as (Hs & Hx & Hy & Hx1 & Hx2 & Hy1 & Hy2 & Hc1 & Hc2 & Hc3 & Hc4).
  pose proof sz_bounds as Hsz.
  destruct (src_row_in_source r Hr) as [Hidx0 Hidx1].
  assert (HW : Z.of_nat (Z.to_nat W) = W) by lia.
  destruct (draw_map_row_copy env map_p recolor Hbytes (Z.to_nat W)
              (src_index map_area (x1 draw) (y1 draw + r)) ((r - s) * W)
              (st_map2 st) (st_mask_buf st))
    as (m2' & mb' & Hrow & Hl2' & Hlb' & Hlk); rewrite ?HW; try lia; try nia.
  assert (Hmap' : forall j i, 0 <= j < r + 1 - s -> 0 <= i < W ->
            m2' !! Z.to_nat (j * W + i)
            = Some (general_px env map_p
                      (src_index map_area (x1 draw + i) (y1 draw + s + j)))).
  { intros j i Hj Hi. rewrite Hlk, HW.
    assert (0 <= j * W) by nia.
    rewrite Z2Nat.id by lia.
    destruct (decide (j < r - s)) as [Hlt|Hge].
    - rewrite bool_decide_eq_false_2 by nia. apply Hmap; lia.
    - assert (j = r - s) as -> by lia.
      rewrite bool_decide_eq_true_2 by lia. do 2 f_equal. unfold src_index. ring. }
  unfold draw_map_line. rewrite rel_width, Htmp, Hpx, Hrow, HW.
  cbn [mbind option_bind].
  rewrite Hcnt. rewrite (bool_decide_eq_false_2 (0 <> 0)) by lia.
  cbv beta iota zeta. rewrite Harea. cbn [x1 x2 y1 y2 orb].
  unfold area_small in Hs.
  assert (0 <= (r - s) * W) by nia.
  rewrite to_u32_id by (change (2 ^ 32) with 4294967296; lia).
  rewrite !to_coord_id by lia.
  replace (src_index map_area (x1 draw) (y1 draw + r) * sz + mw * px_size_byte env false)
    with (src_index map_area (x1 draw) (y1 draw + (r + 1)) * sz)
    by (unfold px_size_byte, src_index; ring).
  case_bool_decide as Hfit.
  - eexists _, s. split; [reflexivity|].
    constructor; cbn [map_buf_tmp st_px_i st_map2 st_mask_buf blend_area st_mask_res st_calls];
      try lia; try reflexivity; try assumption; try (f_equal; lia).
  - eexists _, (r + 1). split; [reflexivity|].
    constructor; cbn [map_buf_tmp st_px_i st_map2 st_mask_buf blend_area st_mask_res st_calls];
      try lia; try reflexivity; try (f_equal; lia).
    intros X Y. rewrite run_blends_snoc.
    apply (flush_canvas _ m2' r s); try lia; try reflexivity; try assumption.
    apply Hcanvas.
Qed.

Lemma general_loop (k : nat) :
  forall r s st y,
    Inv r s st -> 0 <= r -> r + Z.of_nat k = H ->
    exists st' s',
      draw_map_lines env clip_area map_p false false recolor LV_OPA_TRANSP rel mw k y st
      = Some st'
      /\ Inv H s' st'.
Proof.
  induction k as [|k IH]; intros r s st y Hinv Hr Hk.
  - exists st, s. split; [reflexivity|]. replace H with r by lia. assumption.
  - destruct (general_step r s st y Hinv) as (st1 & s1 & Hline & Hinv1); [lia|].
    cbn [draw_map_lines]. rewrite Hline. cbn [mbind option_bind].
    apply (IH (r + 1) s1); [assumption|lia|lia].
Qed.

Lemma fast_canvas X Y :
  run_blends blend_other (draw_map_fast env map_area clip_area map_p) dest X Y
  = if area_contains draw X Y
    then as_color_array (LV_COLOR_DEPTH env) map_p !!! Z.to_nat (src_index map_area X Y)
    else dest X Y.
Proof.
  destruct (intersect_small _ _ _ HM HC Hint) as (Hs & Hx & Hy & E1 & E2 & E3 & E4).
  unfold area_small in *.
  unfold run_blends, draw_map_fast, lv_blend_map. cbn [foldl bc_mask_res bc_opa].
  rewrite bool_decide_eq_true_2 by (split; reflexivity).
  cbn [bc_clip bc_area bc_map]. unfold area_contains, lv_area_get_width, src_index.
  rewrite to_coord_id by lia.
  repeat case_bool_decide; cbn [andb]; try reflexivity; lia.
Qed.

Lemma map_width : lv_area_get_width map_area = mw.
Proof.
  pose proof HM as HM'. unfold area_small in HM'.
  destruct draw_facts as (Hs & Hx & Hy & Hx1 & Hx2 & _).
  unfold lv_area_get_width. apply to_coord_id. lia.
Qed.

Lemma rel_origin :
  x1 rel = x1 draw - x1 (vdb_area env) /\ y1 rel = y1 draw - y1 (vdb_area env).
Proof.
  destruct draw_facts as (Hs & _). pose proof HV as HV'. unfold area_small in Hs, HV'.
  unfold rel_area. cbn [x1 y1]. rewrite !to_coord_id by lia. split; reflexivity.
Qed.

Lemma general_canvas :
  exists calls,
    draw_map_general env map_area clip_area map_p false false recolor LV_OPA_TRANSP rel
    = Some calls
    /\ forall X Y,
         run_blends blend_other calls dest X Y
         = if area_contains draw X Y
           then general_px env map_p (src_index map_area X Y)
           else dest X Y.
Proof.
  destruct draw_facts as (Hs & Hx & Hy & Hx1 & Hx2 & Hy1 & Hy2 & Hc1 & Hc2 & Hc3 & Hc4).
  pose proof HM as HM'. pose proof HV as HV'. unfold area_small in Hs, HM', HV'.
  destruct rel_origin as [Hrx Hry].
  unfold draw_map_general. rewrite rel_height, rel_width, map_width, Hrx, Hry.
  rewrite Hcnt. rewrite (bool_decide_eq_false_2 (0 <> 0)) by lia.
  coord_norm.
  match goal with
  | |- context [draw_map_lines _ _ _ _ _ _ _ _ _ _ _ ?st0] =>
      destruct (general_loop (Z.to_nat H) 0 0 st0 0) as (st' & s' & Hloop & Hinv)
  end.
  { constructor; cbn [map_buf_tmp st_px_i st_map2 st_mask_buf blend_area st_mask_res st_calls];
      try lia; try reflexivity; try assumption.
    - unfold px_size_byte, src_index. ring.
    - f_equal; lia.
    - intros X Y. rewrite bool_decide_eq_false_2 by lia. reflexivity. }
  { lia. }
  { lia. }
  rewrite Hloop. cbn [mbind option_bind].
  destruct Hinv as [Hrows Htmp Hpx Hroom Hl2 Hlb Harea Hmres Hmap Hcanvas].
  rewrite Harea. cbn [x1 x2 y1 y2].
  case_bool_decide as Hlast.
  - eexists. split; [reflexivity|]. intros X Y. rewrite run_blends_snoc.
    rewrite to_coord_id by lia.
    replace (y1 draw + H - 1) with (y1 draw + (H - 1)) by lia.
    rewrite (flush_canvas st' (st_map2 st') (H - 1) s' X Y); try lia; try reflexivity;
      try assumption.
    + unfold area_contains. repeat case_bool_decide; try reflexivity; lia.
    + intros j i Hj Hi. apply Hmap; lia.
    + apply Hcanvas.
  - eexists. split; [reflexivity|]. intros X Y. rewrite Hcanvas.
    unfold area_contains. repeat case_bool_decide; try reflexivity; lia.
Qed.
(** C2 (amended): with no active mask, no chroma key, no alpha byte, full
    opacity and no recolouring, [lv_draw_map] takes the bulk copy; run on
    the same inputs, the per-pixel path returns too, and the destination it
    produces equals the one of the bulk copy at every pixel for the 8 and 16
    bit colour depths.  At 32 bit it writes the same pixels with the same
    three colour bytes, the fourth byte of each written pixel being 0. *)
Theorem fast_path_matches_general :
  LV_OPA_MIN env <= LV_OPA_COVER ->
  lv_draw_map env map_area clip_area map_p false false recolor LV_OPA_TRANSP LV_OPA_COVER
  = Some (draw_map_fast env map_area clip_area map_p)
  /\ exists calls,
       draw_map_general env map_area clip_area map_p false false recolor LV_OPA_TRANSP rel
       = Some calls
       /\ (forall X Y,
             run_blends blend_other calls dest X Y
             = if area_contains draw X Y
               then decoded_color (LV_COLOR_DEPTH env)
                      (run_blends blend_other (draw_map_fast env map_area clip_area map_p)
                         dest X Y)
               else run_blends blend_other (draw_map_fast env map_area clip_area map_p)
                      dest X Y)
       /\ (LV_COLOR_DEPTH env <> Depth32 ->
           forall X Y,
             run_blends blend_other calls dest X Y
             = run_blends blend_other (draw_map_fast env map_area clip_area map_p) dest X Y).
Proof.
  intros Hmin. split.
  - unfold lv_draw_map.
    rewrite (bool_decide_eq_false_2 (LV_OPA_COVER < LV_OPA_MIN env)) by lia.
    rewrite Hint, Hcnt.
    rewrite (bool_decide_eq_true_2 (0 = 0)) by reflexivity.
    rewrite (bool_decide_eq_true_2 (LV_OPA_TRANSP = LV_OPA_TRANSP)) by reflexivity.
    destruct (bool_decide (LV_OPA_COVER > LV_OPA_MAX env));
      rewrite (bool_decide_eq_true_2 (LV_OPA_COVER = LV_OPA_COVER)) by reflexivity;
      reflexivity.
  - destruct general_canvas as (calls & Hgen & Hcanvas).
    exists calls. split; [exact Hgen|]. split.
    + intros X Y. rewrite Hcanvas, fast_canvas.
      destruct (area_contains draw X Y); reflexivity.
    + intros Hd X Y. rewrite Hcanvas, fast_canvas. unfold general_px.
      destruct (area_contains draw X Y); [|reflexivity].
      destruct (LV_COLOR_DEPTH env); [reflexivity|reflexivity|contradiction].
Qed.
End Equiv.

Lemma fast_path_matches_general_witness :
  lv_draw_map (env_ex Depth16) (area 0 0 1 1) (area 0 0 7 9) [1; 0; 2; 0; 3; 0; 4; 0]
    false false 0 LV_OPA_TRANSP LV_OPA_COVER
  = Some (draw_map_fast (env_ex Depth16) (area 0 0 1 1) (area 0 0 7 9)
            [1; 0; 2; 0; 3; 0; 4; 0])
  /\ exists calls,
       draw_map_general (env_ex Depth16) (area 0 0 1 1) (area 0 0 7 9)
         [1; 0; 2; 0; 3; 0; 4; 0] false false 0 LV_OPA_TRANSP
         (rel_area (vdb_area (env_ex Depth16)) (area 0 0 1 1))
       = Some calls
       /\ (forall X Y,
             run_blends blend_ignore calls blank X Y
             = if area_contains (area 0 0 1 1) X Y
               then decoded_color (LV_COLOR_DEPTH (env_ex Depth16))
                      (run_blends blend_ignore
                         (draw_map_fast (env_ex Depth16) (area 0 0 1 1) (area 0 0 7 9)
                            [1; 0; 2; 0; 3; 0; 4; 0]) blank X Y)
               else run_blends blend_ignore
                      (draw_map_fast (env_ex Depth16) (area 0 0 1 1) (area 0 0 7 9)
                         [1; 0; 2; 0; 3; 0; 4; 0]) blank X Y)
       /\ (LV_COLOR_DEPTH (env_ex Depth16) <> Depth32 ->
           forall X Y,
             run_blends blend_ignore calls blank X Y
             = run_blends blend_ignore
                 (draw_map_fast (env_ex Depth16) (area 0 0 1 1) (area 0 0 7 9)
                    [1; 0; 2; 0; 3; 0; 4; 0]) blank X Y).
Proof.
  apply (fast_path_matches_general (env_ex Depth16) (area 0 0 1 1) (area 0 0 7 9)
           (area 0 0 1 1) [1; 0; 2; 0; 3; 0; 4; 0] 0 blend_ignore blank).
  - reflexivity.
  - unfold area_small; simpl; lia.
  - unfold area_small; simpl; lia.
  - unfold area_small; simpl; lia.
  - reflexivity.
  - simpl; lia.
  - reflexivity.
  - reflexivity.
  - repeat constructor; lia.
  - simpl; lia.
  - unfold LV_OPA_COVER; simpl; lia.
Defined.

(** C2: at 32 bit the bulk copy stores the pixel [1; 2; 3; 255] whole,
    the per-pixel path stores it without its fourth byte. *)
Lemma general_path_drops_fourth_byte :
  lv_draw_map (env_ex Depth32) (area 0 0 0 0) (area 0 0 7 9) [1; 2; 3; 255]
    false false 0 LV_OPA_TRANSP LV_OPA_COVER
  = Some (draw_map_fast (env_ex Depth32) (area 0 0 0 0) (area 0 0 7 9) [1; 2; 3; 255])
  /\ draw_map_general (env_ex Depth32) (area 0 0 0 0) (area 0 0 7 9) [1; 2; 3; 255]
       false false 0 LV_OPA_TRANSP (rel_area (area 0 0 7 9) (area 0 0 0 0))
     = Some [general_call_32_ex]
  /\ run_blends blend_ignore
       (draw_map_fast (env_ex Depth32) (area 0 0 0 0) (area 0 0 7 9) [1; 2; 3; 255])
       blank 0 0 = 4278387201
  /\ run_blends blend_ignore [general_call_32_ex] blank 0 0 = 197121.
Proof. repeat split; vm_compute; reflexivity. Qed.

(** * The codec beyond the claims *)

(** ** Bit fields next to the written one *)

Lemma extract_insert_other b n sh sh' v :
  0 <= n -> 0 <= sh -> 0 <= sh' -> sh' + n <= 8 ->
  sh' + n <= sh \/ sh + n <= sh' ->
  extract_bits (insert_bits b (Z.ones n) sh v) (Z.ones n) sh'
  = extract_bits b (Z.ones n) sh'.
Proof.
  intros Hn Hsh Hsh' Hle Hdis. rewrite !extract_bits_spec by lia.
  apply Z.bits_inj'. intros i Hi.
  rewrite !Z.land_spec, !Z.shiftr_spec by lia.
  rewrite Z.testbit_ones_nonneg by lia.
  destruct (Z.ltb_spec i n) as [Hlt|Hge]; [|rewrite !andb_false_r; reflexivity].
  rewrite !andb_true_r. unfold insert_bits.
  rewrite testbit_to_u8, Z.lor_spec, testbit_to_u8, Z.land_spec, Z.lnot_spec by lia.
  destruct (Z.ltb_spec (i + sh') 8); [|lia]. cbn [andb].
  destruct (Z.ltb_spec (i + sh') sh) as [Hlow|Hhigh].
  - rewrite !Z.shiftl_spec_low by lia. cbn [negb]. rewrite andb_true_r, orb_false_r.
    reflexivity.
  - rewrite !Z.shiftl_spec by lia.
    rewrite Z.land_spec, Z.testbit_ones_nonneg by lia.
    destruct (Z.ltb_spec (i + sh' - sh) n); [lia|].
    rewrite andb_false_r. cbn [negb]. rewrite andb_true_r, orb_false_r. reflexivity.
Qed.

Lemma stored_bits_in_range bpp r s off dsc x y :
  packing bpp r s -> 0 <= off ->
  0 < header_w (header dsc) < 2048 ->
  0 <= x < header_w (header dsc) -> 0 <= y < header_h (header dsc) ->
  header_h (header dsc) < 2048 ->
  off + row_stride bpp (header_w (header dsc)) * header_h (header dsc)
    <= Z.of_nat (length (data dsc)) ->
  is_Some (stored_bits bpp off dsc x y).
Proof.
  intros Hp Hoff Hw Hx Hy Hh Hlen.
  destruct (packed_px_spec bpp r s _ x y Hp Hw Hx) as [_ Hrange]; [lia|].
  unfold stored_bits.
  assert (0 <= row_stride bpp (header_w (header dsc))) by nia.
  destruct (lookup_lt_is_Some_2 (data dsc)
              (Z.to_nat (off + row_stride bpp (header_w (header dsc)) * y
                         + x `div` (8 `div` bpp)))) as [b Hb]; [nia|].
  rewrite Hb. simpl. eauto.
Qed.

(** Writing one bit field: the field reads back, every other pixel of the
    image keeps its stored bits, the bytes before the rows are untouched. *)
Lemma packed_set_stored bpp r s off dsc x y val :
  packing bpp r s -> 0 <= off ->
  0 < header_w (header dsc) < 2048 -> 0 < header_h (header dsc) < 2048 ->
  0 <= x < header_w (header dsc) -> 0 <= y < header_h (header dsc) ->
  off + row_stride bpp (header_w (header dsc)) * header_h (header dsc)
    <= Z.of_nat (length (data dsc)) ->
  exists buf',
    buf_set_bits (data dsc) off (packed_px (header_w (header dsc)) x y r s)
      (Z.ones bpp) (8 - bpp - to_u8 (Z.land x (Z.ones s) * bpp)) val = Some buf'
    /\ length buf' = length (data dsc)
    /\ stored_bits bpp off (with_data dsc buf') x y = Some (Z.land val (Z.ones bpp))
    /\ (forall x' y',
          0 <= x' < header_w (header dsc) -> 0 <= y' < header_h (header dsc) ->
          (x', y') <> (x, y) ->
          stored_bits bpp off (with_data dsc buf') x' y' = stored_bits bpp off dsc x' y')
    /\ (forall k : nat, Z.of_nat k < off -> buf' !! k = data dsc !! k).
Proof.
  intros Hp Hoff Hw Hh Hx Hy Hlen.
  destruct (packed_px_spec bpp r s _ x y Hp Hw Hx) as [Hpx Hrange]; [lia|].
  destruct (bit_pos_spec bpp r s x Hp) as (Hbit & Hlo & Hhi); [lia|].
  assert (Hst0 : 0 <= row_stride bpp (header_w (header dsc))) by nia.
  assert (Hin : 0 <= off + packed_px (header_w (header dsc)) x y r s
                < Z.of_nat (length (data dsc))) by (rewrite Hpx; nia).
  assert (Hbpp : 0 < bpp /\ 0 < 8 `div` bpp /\ bpp * (8 `div` bpp) = 8)
    by (destruct Hp; repeat split; reflexivity).
  unfold buf_set_bits.
  destruct (buf_load_in_range _ _ _ Hin) as [b Hb]. rewrite Hb. simpl.
  unfold buf_store. rewrite bool_decide_eq_true_2 by lia.
  eexists. split; [reflexivity|]. split; [apply length_insert|].
  unfold buf_load in Hb. rewrite bool_decide_eq_true_2 in Hb by lia.
  rewrite Hpx, Hbit in *.
  split; [|split].
  - unfold stored_bits. simpl. rewrite <- Z.add_assoc.
    rewrite list_lookup_insert_eq by lia. simpl. f_equal.
    rewrite <- extract_bits_mod by lia. apply extract_insert_bits; lia.
  - intros x' y' Hx' Hy' Hne.
    destruct (packed_px_spec bpp r s _ x' y' Hp Hw Hx') as [_ Hrange']; [lia|].
    unfold stored_bits. simpl. rewrite <- !Z.add_assoc.
    destruct (decide (row_stride bpp (header_w (header dsc)) * y' + x' `div` (8 `div` bpp)
                      = row_stride bpp (header_w (header dsc)) * y + x `div` (8 `div` bpp)))
      as [Heq|Hneq].
    + rewrite Heq. rewrite list_lookup_insert_eq by lia. rewrite Hb. simpl. f_equal.
      assert (0 <= x `div` (8 `div` bpp)) by (apply Z.div_pos; lia).
      assert (0 <= x' `div` (8 `div` bpp)) by (apply Z.div_pos; lia).
      assert (Hyy : y' = y).
      { destruct (Z.lt_trichotomy y' y) as [Hlt|[Heq'|Hgt]]; [|exact Heq'|].
        - assert (row_stride bpp (header_w (header dsc)) * (y' + 1)
                  <= row_stride bpp (header_w (header dsc)) * y) by nia. lia.
        - assert (row_stride bpp (header_w (header dsc)) * (y + 1)
                  <= row_stride bpp (header_w (header dsc)) * y') by nia. lia. }
      subst y'.
      assert (Hq : x' `div` (8 `div` bpp) = x `div` (8 `div` bpp)) by lia.
      assert (Hm : x' `mod` (8 `div` bpp) <> x `mod` (8 `div` bpp)).
      { intros Hm. apply Hne. f_equal.
        rewrite (Z.div_mod x (8 `div` bpp)), (Z.div_mod x' (8 `div` bpp)) by lia.
        rewrite Hq, Hm. reflexivity. }
      pose proof (Z.mod_pos_bound x (8 `div` bpp) ltac:(lia)).
      pose proof (Z.mod_pos_bound x' (8 `div` bpp) ltac:(lia)).
      rewrite <- !extract_bits_mod by nia.
      apply extract_insert_other; try nia.
    + rewrite list_lookup_insert_ne by lia. reflexivity.
  - intros k Hk. rewrite list_lookup_insert_ne by lia. reflexivity.
Qed.

(** ** Indexed images *)

Section IndexedGet.
Variables (d : color_depth) (dsc : lv_img_dsc_t) (x y : Z) (style : option lv_style_t).
Hypothesis Hw : 0 < header_w (header dsc) < 2048.
Hypothesis Hh : 0 < header_h (header dsc) < 2048.
Hypothesis Hx : 0 <= x < header_w (header dsc).
Hypothesis Hy : 0 <= y < header_h (header dsc).

Lemma get_px_color_indexed_1bit raw :
  header_cf (header dsc) = LV_IMG_CF_INDEXED_1BIT ->
  stored_bits 1 (4 * 2) dsc x y = Some raw ->
  lv_img_buf_get_px_color d dsc x y style = Some raw /\ 0 <= raw < 2.
Proof.
  intros Hcf Hst. unfold lv_img_buf_get_px_color. rewrite Hcf.
  rewrite !clamp_coord_in_range by lia.
  destruct (load_extract_stored 1 7 3 (4 * 2) dsc x y raw packing_1) as (b & Hb & He & Hr);
    [lia..|assumption|].
  rewrite Hb. simpl. change (Z.ones 1) with 1 in He. change (Z.ones 3) with 7 in He.
  rewrite Z.mul_1_r in He. change (8 - 1) with 7 in He. rewrite He.
  split; [reflexivity|exact Hr].
Qed.

Lemma get_px_color_indexed_2bit raw :
  header_cf (header dsc) = LV_IMG_CF_INDEXED_2BIT ->
  stored_bits 2 (4 * 4) dsc x y = Some raw ->
  lv_img_buf_get_px_color d dsc x y style = Some raw /\ 0 <= raw < 4.
Proof.
  intros Hcf Hst. unfold lv_img_buf_get_px_color. rewrite Hcf.
  rewrite !clamp_coord_in_range by lia.
  destruct (load_extract_stored 2 3 2 (4 * 4) dsc x y raw packing_2) as (b & Hb & He & Hr);
    [lia..|assumption|].
  rewrite Hb. simpl. change (Z.ones 2) with 3 in He. change (8 - 2) with 6 in He.
  rewrite He. split; [reflexivity|exact Hr].
Qed.

Lemma get_px_color_indexed_4bit raw :
  header_cf (header dsc) = LV_IMG_CF_INDEXED_4BIT ->
  stored_bits 4 (4 * 16) dsc x y = Some raw ->
  lv_img_buf_get_px_color d dsc x y style = Some raw /\ 0 <= raw < 16.
Proof.
  intros Hcf Hst. unfold lv_img_buf_get_px_color. rewrite Hcf.
  rewrite !clamp_coord_in_range by lia.
  destruct (load_extract_stored 4 1 1 (4 * 16) dsc x y raw packing_4) as (b & Hb & He & Hr);
    [lia..|assumption|].
  rewrite Hb. simpl. change (Z.ones 4) with 15 in He. change (Z.ones 1) with 1 in He.
  change (8 - 4) with 4 in He.
  rewrite He. split; [reflexivity|exact Hr].
Qed.

Lemma px_index_8bit :
  to_u32 (header_w (header dsc) * y + x) = header_w (header dsc) * y + x
  /\ 0 <= header_w (header dsc) * y + x < header_w (header dsc) * header_h (header dsc).
Proof.
  assert (0 <= header_w (header dsc) * y + x < 2048 * 2048) by nia.
  rewrite to_u32_id by (change (2 ^ 32) with 4294967296; lia). split; [reflexivity|nia].
Qed.

Lemma get_px_color_indexed_8bit :
  header_cf (header dsc) = LV_IMG_CF_INDEXED_8BIT ->
  lv_img_buf_get_px_color d dsc x y style
  = data dsc !! Z.to_nat (4 * 256 + (header_w (header dsc) * y + x)).
Proof.
  intros Hcf. unfold lv_img_buf_get_px_color. rewrite Hcf.
  rewrite !clamp_coord_in_range by lia.
  destruct px_index_8bit as [-> ?]. apply buf_load_lookup. lia.
Qed.

(** X1: on the indexed formats [lv_img_buf_get_px_color] returns the index
    stored for the pixel: the bits found after the palette of 2, 4, 16 or
    256 four-byte entries, rows byte aligned, most significant bits first;
    for the 8-bit format the byte at [4 * 256 + w * y + x]. *)
Theorem get_px_color_indexed_is_stored_index raw :
  (header_cf (header dsc) = LV_IMG_CF_INDEXED_1BIT ->
   stored_bits 1 (4 * 2) dsc x y = Some raw ->
   lv_img_buf_get_px_color d dsc x y style = Some raw /\ 0 <= raw < 2)
  /\ (header_cf (header dsc) = LV_IMG_CF_INDEXED_2BIT ->
      stored_bits 2 (4 * 4) dsc x y = Some raw ->
      lv_img_buf_get_px_color d dsc x y style = Some raw /\ 0 <= raw < 4)
  /\ (header_cf (header dsc) = LV_IMG_CF_INDEXED_4BIT ->
      stored_bits 4 (4 * 16) dsc x y = Some raw ->
      lv_img_buf_get_px_color d dsc x y style = Some raw /\ 0 <= raw < 16)
  /\ (header_cf (header dsc) = LV_IMG_CF_INDEXED_8BIT ->
      lv_img_buf_get_px_color d dsc x y style
      = data dsc !! Z.to_nat (4 * 256 + (header_w (header dsc) * y + x))).
Proof.
  split; [|split; [|split]].
  - apply get_px_color_indexed_1bit.
  - apply get_px_color_indexed_2bit.
  - apply get_px_color_indexed_4bit.
  - apply get_px_color_indexed_8bit.
Qed.
End IndexedGet.

Lemma get_px_color_indexed_is_stored_index_witness :
  lv_img_buf_get_px_color Depth16
    (img LV_IMG_CF_INDEXED_4BIT 3 1 (replicate 64 0 ++ [167; 48])) 1 0 None = Some 7
  /\ 0 <= 7 < 16.
Proof.
  refine (proj1 (proj2 (proj2 (get_px_color_indexed_is_stored_index Depth16
            (img LV_IMG_CF_INDEXED_4BIT 3 1 (replicate 64 0 ++ [167; 48])) 1 0 None
            _ _ _ _ 7))) _ _);
    first [reflexivity | simpl; lia].
Defined.

Section PackedSetters.
Variables (d : color_depth) (dsc : lv_img_dsc_t) (x y : Z).
Hypothesis Hwf : dsc_wf d dsc.
Hypothesis Hx : 0 <= x < header_w (header dsc).
Hypothesis Hy : 0 <= y < header_h (header dsc).

Lemma set_px_color_indexed_1bit c style :
  header_cf (header dsc) = LV_IMG_CF_INDEXED_1BIT ->
  exists dsc', indexed_write_facts d dsc x y c style 1 (4 * 2) dsc'.
Proof.
  intros Hcf. destruct Hwf as (Hw & Hh & Hlen).
  unfold img_buf_size in Hlen. rewrite Hcf in Hlen. simpl in Hlen.
  destruct (packed_set_stored 1 7 3 (4 * 2) dsc x y c packing_1)
    as (buf' & Hset & Hl & Hst & Hframe & Hpal); [lia..|].
  exists (with_data dsc buf'). unfold indexed_write_facts. split; [|split; [|split]].
  - unfold lv_img_buf_set_px_color. rewrite Hcf.
    change (Z.ones 1) with 1 in Hset. change (Z.ones 3) with 7 in Hset.
    rewrite Z.mul_1_r in Hset. change (8 - 1) with 7 in Hset.
    rewrite Hset. reflexivity.
  - rewrite Z.land_ones in Hst by lia.
    apply (get_px_color_indexed_1bit d (with_data dsc buf') x y style); assumption.
  - intros x' y' Hx' Hy' Hne.
    destruct (stored_bits_in_range 1 7 3 (4 * 2) dsc x' y' packing_1) as [raw Hraw];
      [lia..|].
    rewrite (proj1 (get_px_color_indexed_1bit d dsc x' y' style Hw Hh Hx' Hy' raw Hcf Hraw)).
    rewrite <- (Hframe x' y' Hx' Hy' Hne) in Hraw.
    apply (get_px_color_indexed_1bit d (with_data dsc buf') x' y' style); assumption.
  - exact Hpal.
Qed.

Lemma set_px_color_indexed_2bit c style :
  header_cf (header dsc) = LV_IMG_CF_INDEXED_2BIT ->
  exists dsc', indexed_write_facts d dsc x y c style 2 (4 * 4) dsc'.
Proof.
  intros Hcf. destruct Hwf as (Hw & Hh & Hlen).
  unfold img_buf_size in Hlen. rewrite Hcf in Hlen. simpl in Hlen.
  destruct (packed_set_stored 2 3 2 (4 * 4) dsc x y c packing_2)
    as (buf' & Hset & Hl & Hst & Hframe & Hpal); [lia..|].
  exists (with_data dsc buf'). unfold indexed_write_facts. split; [|split; [|split]].
  - unfold lv_img_buf_set_px_color. rewrite Hcf.
    change (Z.ones 2) with 3 in Hset. change (8 - 2) with 6 in Hset.
    rewrite Hset. reflexivity.
  - rewrite Z.land_ones in Hst by lia.
    apply (get_px_color_indexed_2bit d (with_data dsc buf') x y style); assumption.
  - intros x' y' Hx' Hy' Hne.
    destruct (stored_bits_in_range 2 3 2 (4 * 4) dsc x' y' packing_2) as [raw Hraw];
      [lia..|].
    rewrite (proj1 (get_px_color_indexed_2bit d dsc x' y' style Hw Hh Hx' Hy' raw Hcf Hraw)).
    rewrite <- (Hframe x' y' Hx' Hy' Hne) in Hraw.
    apply (get_px_color_indexed_2bit d (with_data dsc buf') x' y' style); assumption.
  - exact Hpal.
Qed.

Lemma set_px_color_indexed_4bit c style :
  header_cf (header dsc) = LV_IMG_CF_INDEXED_4BIT ->
  exists dsc', indexed_write_facts d dsc x y c style 4 (4 * 16) dsc'.
Proof.
  intros Hcf. destruct Hwf as (Hw & Hh & Hlen).
  unfold img_buf_size in Hlen. rewrite Hcf in Hlen. simpl in Hlen.
  destruct (packed_set_stored 4 1 1 (4 * 16) dsc x y c packing_4)
    as (buf' & Hset & Hl & Hst & Hframe & Hpal); [lia..|].
  exists (with_data dsc buf'). unfold indexed_write_facts. split; [|split; [|split]].
  - unfold lv_img_buf_set_px_color. rewrite Hcf.
    change (Z.ones 4) with 15 in Hset. change (Z.ones 1) with 1 in Hset.
    change (8 - 4) with 4 in Hset.
    rewrite Hset. reflexivity.
  - rewrite Z.land_ones in Hst by lia.
    apply (get_px_color_indexed_4bit d (with_data dsc buf') x y style); assumption.
  - intros x' y' Hx' Hy' Hne.
    destruct (stored_bits_in_range 4 1 1 (4 * 16) dsc x' y' packing_4) as [raw Hraw];
      [lia..|].
    rewrite (proj1 (get_px_color_indexed_4bit d dsc x' y' style Hw Hh Hx' Hy' raw Hcf Hraw)).
    rewrite <- (Hframe x' y' Hx' Hy' Hne) in Hraw.
    apply (get_px_color_indexed_4bit d (with_data dsc buf') x' y' style); assumption.
  - exact Hpal.
Qed.

Lemma set_px_color_indexed_8bit c style :
  header_cf (header dsc) = LV_IMG_CF_INDEXED_8BIT ->
  exists dsc', indexed_write_facts d dsc x y c style 8 (4 * 256) dsc'.
Proof.
  intros Hcf. pose proof Hwf as (Hw & Hh & Hlen).
  unfold img_buf_size, row_stride in Hlen. rewrite Hcf in Hlen. simpl in Hlen.
  replace ((header_w (header dsc) * 8 + 7) `div` 8) with (header_w (header dsc)) in Hlen
    by (Z.div_mod_to_equations; lia).
  destruct (px_index_8bit dsc x y Hw Hh Hx Hy) as [Hpx Hrange].
  exists (with_data dsc (<[Z.to_nat (4 * 256 + (header_w (header dsc) * y + x)) := to_u8 c]>
                           (data dsc))).
  unfold indexed_write_facts. split; [|split; [|split]].
  - unfold lv_img_buf_set_px_color. rewrite Hcf, Hpx. unfold buf_store.
    rewrite bool_decide_eq_true_2 by lia. reflexivity.
  - rewrite (get_px_color_indexed_8bit d (with_data dsc _) x y style); try assumption.
    simpl. rewrite list_lookup_insert_eq by lia. reflexivity.
  - intros x' y' Hx' Hy' Hne.
    rewrite (get_px_color_indexed_8bit d (with_data dsc _) x' y' style); try assumption.
    rewrite (get_px_color_indexed_8bit d dsc x' y' style); try assumption.
    simpl. apply list_lookup_insert_ne.
    assert (header_w (header dsc) * y + x <> header_w (header dsc) * y' + x'); [|lia].
    intros Heq. apply Hne.
    assert (y' = y) by nia. subst y'. f_equal. lia.
  - intros k Hk. simpl. apply list_lookup_insert_ne. lia.
Qed.

Lemma set_px_color_indexed c style :
  indexed (header_cf (header dsc)) ->
  exists dsc',
    indexed_write_facts d dsc x y c style
      (lv_img_color_format_get_px_size d (header_cf (header dsc)))
      (4 * palette_entries (header_cf (header dsc))) dsc'.
Proof.
  intros [Hcf|[Hcf|[Hcf|Hcf]]]; rewrite Hcf; simpl.
  - apply set_px_color_indexed_1bit; assumption.
  - apply set_px_color_indexed_2bit; assumption.
  - apply set_px_color_indexed_4bit; assumption.
  - apply set_px_color_indexed_8bit; assumption.
Qed.
End PackedSetters.

(** ** Alpha of the other pixels *)

Section AlphaFrame.
Variables (d : color_depth) (dsc : lv_img_dsc_t) (x y opa : Z).
Hypothesis Hwf : dsc_wf d dsc.
Hypothesis Hx : 0 <= x < header_w (header dsc).
Hypothesis Hy : 0 <= y < header_h (header dsc).

Lemma set_px_alpha_frame_1bit :
  header_cf (header dsc) = LV_IMG_CF_ALPHA_1BIT -> exists dsc', alpha_write_frame d dsc x y opa dsc'.
Proof.
  intros Hcf. destruct Hwf as (Hw & Hh & Hlen).
  unfold img_buf_size in Hlen. rewrite Hcf in Hlen. simpl in Hlen.
  destruct (packed_set_stored 1 7 3 0 dsc x y (Z.shiftr opa 7) packing_1)
    as (buf' & Hset & Hl & Hst & Hframe & _); [lia..|].
  exists (with_data dsc buf'). split.
  - unfold lv_img_buf_set_px_alpha. rewrite Hcf.
    change (Z.ones 1) with 1 in Hset. change (Z.ones 3) with 7 in Hset.
    rewrite Z.mul_1_r in Hset. change (8 - 1) with 7 in Hset.
    rewrite Hset. reflexivity.
  - intros x' y' Hx' Hy' Hne.
    destruct (stored_bits_in_range 1 7 3 0 dsc x' y' packing_1) as [raw Hraw]; [lia..|].
    rewrite (proj1 (get_px_alpha_1bit d dsc x' y' Hw Hh Hx' Hy' raw Hcf Hraw)).
    rewrite <- (Hframe x' y' Hx' Hy' Hne) in Hraw.
    apply (get_px_alpha_1bit d (with_data dsc buf') x' y'); assumption.
Qed.

Lemma set_px_alpha_frame_2bit :
  header_cf (header dsc) = LV_IMG_CF_ALPHA_2BIT -> exists dsc', alpha_write_frame d dsc x y opa dsc'.
Proof.
  intros Hcf. destruct Hwf as (Hw & Hh & Hlen).
  unfold img_buf_size in Hlen. rewrite Hcf in Hlen. simpl in Hlen.
  destruct (packed_set_stored 2 3 2 0 dsc x y (Z.shiftr opa 6) packing_2)
    as (buf' & Hset & Hl & Hst & Hframe & _); [lia..|].
  exists (with_data dsc buf'). split.
  - unfold lv_img_buf_set_px_alpha. rewrite Hcf.
    change (Z.ones 2) with 3 in Hset. change (8 - 2) with 6 in Hset.
    rewrite Hset. reflexivity.
  - intros x' y' Hx' Hy' Hne.
    destruct (stored_bits_in_range 2 3 2 0 dsc x' y' packing_2) as [raw Hraw]; [lia..|].
    rewrite (proj1 (proj2 (get_px_alpha_2bit d dsc x' y' Hw Hh Hx' Hy' raw Hcf Hraw))).
    rewrite <- (Hframe x' y' Hx' Hy' Hne) in Hraw.
    apply (get_px_alpha_2bit d (with_data dsc buf') x' y'); assumption.
Qed.

Lemma set_px_alpha_frame_4bit :
  header_cf (header dsc) = LV_IMG_CF_ALPHA_4BIT -> exists dsc', alpha_write_frame d dsc x y opa dsc'.
Proof.
  intros Hcf. destruct Hwf as (Hw & Hh & Hlen).
  unfold img_buf_size in Hlen. rewrite Hcf in Hlen. simpl in Hlen.
  destruct (packed_set_stored 4 1 1 0 dsc x y (Z.shiftr opa 4) packing_4)
    as (buf' & Hset & Hl & Hst & Hframe & _); [lia..|].
  exists (with_data dsc buf'). split.
  - unfold lv_img_buf_set_px_alpha. rewrite Hcf.
    change (Z.ones 4) with 15 in Hset. change (Z.ones 1) with 1 in Hset.
    change (8 - 4) with 4 in Hset.
    rewrite Hset. reflexivity.
  - intros x' y' Hx' Hy' Hne.
    destruct (stored_bits_in_range 4 1 1 0 dsc x' y' packing_4) as [raw Hraw]; [lia..|].
    rewrite (proj1 (proj2 (get_px_alpha_4bit d dsc x' y' Hw Hh Hx' Hy' raw Hcf Hraw))).
    rewrite <- (Hframe x' y' Hx' Hy' Hne) in Hraw.
    apply (get_px_alpha_4bit d (with_data dsc buf') x' y'); assumption.
Qed.

Lemma set_px_alpha_frame_8bit :
  header_cf (header dsc) = LV_IMG_CF_ALPHA_8BIT -> exists dsc', alpha_write_frame d dsc x y opa dsc'.
Proof.
  intros Hcf. pose proof Hwf as (Hw & Hh & Hlen).
  unfold img_buf_size, row_stride in Hlen. rewrite Hcf in Hlen. simpl in Hlen.
  replace ((header_w (header dsc) * 8 + 7) `div` 8) with (header_w (header dsc)) in Hlen
    by (Z.div_mod_to_equations; lia).
  destruct (px_index_8bit dsc x y Hw Hh Hx Hy) as [Hpx Hrange].
  exists (with_data dsc (<[Z.to_nat (0 + (header_w (header dsc) * y + x)) := opa]> (data dsc))).
  split.
  - unfold lv_img_buf_set_px_alpha. rewrite Hcf, Hpx. unfold buf_store.
    rewrite bool_decide_eq_true_2 by lia. reflexivity.
  - intros x' y' Hx' Hy' Hne.
    destruct (px_index_8bit dsc x' y' Hw Hh Hx' Hy') as [Hpx' Hrange'].
    unfold lv_img_buf_get_px_alpha. simpl. rewrite Hcf.
    rewrite !clamp_coord_in_range by lia. rewrite Hpx'.
    rewrite !buf_load_lookup by lia. apply list_lookup_insert_ne.
    assert (header_w (header dsc) * y + x <> header_w (header dsc) * y' + x'); [|lia].
    intros Heq. apply Hne.
    assert (y' = y) by nia. subst y'. f_equal. lia.
Qed.
End AlphaFrame.

(** ** True colour images *)

Lemma buf_load_n_slice n :
  forall buf px,
    0 <= px -> px + Z.of_nat n <= Z.of_nat (length buf) ->
    buf_load_n buf px n = Some (take n (drop (Z.to_nat px) buf)).
Proof.
  induction n as [|n IH]; intros buf px Hpx Hlen; [reflexivity|].
  cbn [buf_load_n]. rewrite buf_load_lookup by lia.
  destruct (lookup_lt_is_Some_2 buf (Z.to_nat (0 + px))) as [b Hb]; [lia|].
  rewrite Hb. cbn [mbind option_bind]. rewrite IH by lia. cbn [mbind option_bind].
  replace (Z.to_nat (0 + px)) with (Z.to_nat px) in Hb by lia.
  rewrite (drop_S _ _ _ Hb). cbn [take]. do 3 f_equal. f_equal. lia.
Qed.

Lemma buf_store_n_lookup bs :
  forall buf px buf',
    0 <= px -> buf_store_n buf px bs = Some buf' ->
    length buf' = length buf
    /\ forall k : nat,
         buf' !! k = if bool_decide (px <= Z.of_nat k < px + Z.of_nat (length bs))
                     then bs !! (k - Z.to_nat px)%nat
                     else buf !! k.
Proof.
  induction bs as [|b bs IH]; intros buf px buf' Hpx H; simpl in H.
  - injection H as <-. split; [reflexivity|]. intros k.
    rewrite bool_decide_eq_false_2 by (simpl; lia). reflexivity.
  - unfold buf_store in H. case_bool_decide as Hin; [|discriminate].
    cbn [mbind option_bind] in H.
    assert (Hpx1 : 0 <= px + 1) by lia.
    destruct (IH _ _ _ Hpx1 H) as [Hl Hlk].
    rewrite length_insert in Hl. split; [exact Hl|]. intros k. rewrite Hlk.
    cbn [length]. rewrite Nat2Z.inj_succ.
    destruct (decide (Z.of_nat k = px)) as [Hk|Hk].
    + rewrite bool_decide_eq_false_2 by lia. rewrite bool_decide_eq_true_2 by lia.
      replace (k - Z.to_nat px)%nat with 0%nat by lia.
      replace (Z.to_nat (0 + px)) with k by lia.
      rewrite list_lookup_insert_eq by lia. reflexivity.
    + rewrite list_lookup_insert_ne by lia.
      repeat case_bool_decide; try lia; try reflexivity.
      replace (k - Z.to_nat px)%nat with (S (k - Z.to_nat (px + 1)))%nat by lia.
      reflexivity.
Qed.

(** Bits below the last byte of a little-endian number do not depend on
    that byte. *)
Lemma little_endian_low_bits bs :
  forall b j,
    j < 8 * Z.of_nat (length bs) ->
    Z.testbit (little_endian_to_Z 8 (bs ++ [b])) j = Z.testbit (little_endian_to_Z 8 bs) j.
Proof.
  induction bs as [|a bs IH]; intros b j Hj.
  - simpl in Hj. rewrite !Z.testbit_neg_r by lia. reflexivity.
  - destruct (Z.lt_ge_cases j 0) as [Hneg|Hpos]; [rewrite !Z.testbit_neg_r by lia; reflexivity|].
    cbn [app little_endian_to_Z]. rewrite !Z.lor_spec, !Z.shiftl_spec by lia.
    f_equal. apply IH. cbn [length] in Hj. lia.
Qed.

Lemma little_endian_low_land bs b b' :
  Z.land (little_endian_to_Z 8 (bs ++ [b])) (Z.ones (8 * Z.of_nat (length bs)))
  = Z.land (little_endian_to_Z 8 (bs ++ [b'])) (Z.ones (8 * Z.of_nat (length bs))).
Proof.
  apply Z.bits_inj'. intros i Hi. rewrite !Z.land_spec.
  rewrite Z.testbit_ones_nonneg by lia.
  destruct (Z.ltb_spec i (8 * Z.of_nat (length bs))); [|rewrite !andb_false_r; reflexivity].
  rewrite !little_endian_low_bits by lia. reflexivity.
Qed.

Lemma little_endian_low_value bs b :
  Z.land (little_endian_to_Z 8 (bs ++ [b])) (Z.ones (8 * Z.of_nat (length bs)))
  = Z.land (little_endian_to_Z 8 bs) (Z.ones (8 * Z.of_nat (length bs))).
Proof.
  apply Z.bits_inj'. intros i Hi. rewrite !Z.land_spec.
  rewrite Z.testbit_ones_nonneg by lia.
  destruct (Z.ltb_spec i (8 * Z.of_nat (length bs))); [|rewrite !andb_false_r; reflexivity].
  rewrite !little_endian_low_bits by lia. reflexivity.
Qed.

Lemma slice_ext (l1 l2 : list Z) (q n : nat) :
  (forall i : nat, (i < n)%nat -> l1 !! (q + i)%nat = l2 !! (q + i)%nat) ->
  take n (drop q l1) = take n (drop q l2).
Proof.
  intros H. apply list_eq. intros i. rewrite !lookup_take.
  destruct (decide (i < n)%nat); [|reflexivity].
  rewrite !lookup_drop. apply H. assumption.
Qed.

Lemma slice_written (buf' bs : list Z) (q n : nat) :
  (length bs <= n)%nat -> (q + n <= length buf')%nat ->
  (forall i : nat, (i < length bs)%nat -> buf' !! (q + i)%nat = bs !! i) ->
  take n (drop q buf') = bs ++ take (n - length bs) (drop (q + length bs) buf').
Proof.
  intros Hn Hlen H. apply list_eq. intros i. rewrite lookup_take.
  destruct (decide (i < length bs)%nat) as [Hi|Hi].
  - rewrite lookup_app_l by lia. destruct (decide (i < n)%nat); [|lia].
    rewrite lookup_drop. apply H. assumption.
  - rewrite lookup_app_r by lia. rewrite lookup_take.
    destruct (decide (i < n)%nat); destruct (decide (i - length bs < n - length bs)%nat);
      try lia; [|reflexivity].
    rewrite !lookup_drop. f_equal. lia.
Qed.

Lemma tc_pitch_cases d cf :
  true_color cf ->
  1 <= sizeof_lv_color_t d <= tc_pitch d cf /\ tc_pitch d cf <= 4
  /\ 1 <= tc_written d cf <= tc_pitch d cf
  /\ lv_img_color_format_get_px_size d cf = 8 * tc_pitch d cf
  /\ (cf = LV_IMG_CF_TRUE_COLOR_ALPHA ->
      tc_pitch d cf = LV_IMG_PX_SIZE_ALPHA_BYTE d
      /\ (sizeof_lv_color_t d = tc_pitch d cf - 1 \/ d = Depth32)).
Proof.
  intros [H|[H|H]]; subst cf; destruct d; vm_compute; repeat split; try discriminate; auto.
Qed.

Section TrueColor.
Variables (d : color_depth) (dsc : lv_img_dsc_t).
Hypothesis Hwf : dsc_wf d dsc.
Hypothesis Htc : true_color (header_cf (header dsc)).

Lemma tc_buf_size :
  header_w (header dsc) * header_h (header dsc) * tc_pitch d (header_cf (header dsc))
  <= Z.of_nat (length (data dsc)).
Proof.
  destruct Hwf as (Hw & Hh & Hlen).
  destruct (tc_pitch_cases d _ Htc) as (Hs & HP & Hm & Hsz & _).
  unfold img_buf_size, row_stride in Hlen. rewrite Hsz in Hlen.
  replace (palette_entries (header_cf (header dsc))) with 0 in Hlen
    by (destruct Htc as [H|[H|H]]; rewrite H; reflexivity).
  set (w := header_w (header dsc)) in *. set (h := header_h (header dsc)) in *.
  set (P := tc_pitch d (header_cf (header dsc))) in *.
  replace ((w * (8 * P) + 7) `div` 8) with (w * P) in Hlen
    by (Z.div_mod_to_equations; nia).
  lia.
Qed.

Lemma tc_px_offset x y :
  0 <= x < header_w (header dsc) -> 0 <= y < header_h (header dsc) ->
  to_u32 (header_w (header dsc) * y * tc_pitch d (header_cf (header dsc))
          + x * tc_pitch d (header_cf (header dsc)))
  = (header_w (header dsc) * y + x) * tc_pitch d (header_cf (header dsc))
  /\ 0 <= (header_w (header dsc) * y + x) * tc_pitch d (header_cf (header dsc))
  /\ (header_w (header dsc) * y + x) * tc_pitch d (header_cf (header dsc))
     + tc_pitch d (header_cf (header dsc))
     <= header_w (header dsc) * header_h (header dsc) * tc_pitch d (header_cf (header dsc)).
Proof.
  intros Hx Hy. destruct Hwf as (Hw & Hh & _).
  destruct (tc_pitch_cases d _ Htc) as (Hs & HP & _).
  set (w := header_w (header dsc)) in *. set (h := header_h (header dsc)) in *.
  set (P := tc_pitch d (header_cf (header dsc))) in *.
  assert (0 <= w * y + x) by nia.
  assert (w * y + x + 1 <= w * h) by nia.
  assert (w * h < 2048 * 2048) by nia.
  assert (0 <= (w * y + x) * P) by nia.
  assert ((w * y + x) * P + P <= w * h * P) by nia.
  split; [|split; assumption].
  replace (w * y * P + x * P) with ((w * y + x) * P) by ring.
  apply to_u32_id. change (2 ^ 32) with 4294967296. nia.
Qed.

Lemma get_px_color_tc x y style :
  0 <= x < header_w (header dsc) -> 0 <= y < header_h (header dsc) ->
  lv_img_buf_get_px_color d dsc x y style
  = Some (force_alpha d (little_endian_to_Z 8
      (take (Z.to_nat (sizeof_lv_color_t d))
            (drop (Z.to_nat ((header_w (header dsc) * y + x)
                             * tc_pitch d (header_cf (header dsc))))
                  (data dsc))))).
Proof.
  intros Hx Hy. destruct Hwf as (Hw & Hh & _).
  destruct (tc_pitch_cases d _ Htc) as (Hs & HP & _).
  destruct (tc_px_offset x y Hx Hy) as (Hoff & H0 & H1).
  pose proof tc_buf_size as Hsz.
  unfold lv_img_buf_get_px_color.
  fold (tc_pitch d (header_cf (header dsc))).
  set (w := header_w (header dsc)) in *. set (h := header_h (header dsc)) in *.
  set (P := tc_pitch d (header_cf (header dsc))) in *.
  rewrite !clamp_coord_spec by lia.
  replace (Z.max 0 (Z.min x (w - 1))) with x by lia.
  replace (Z.max 0 (Z.min y (h - 1))) with y by lia.
  assert (Hload : buf_load_n (data dsc) ((w * y + x) * P) (Z.to_nat (sizeof_lv_color_t d))
                  = Some (take (Z.to_nat (sizeof_lv_color_t d))
                               (drop (Z.to_nat ((w * y + x) * P)) (data dsc))))
    by (apply buf_load_n_slice; lia).
  destruct Htc as [Hcf|[Hcf|Hcf]]; rewrite Hcf; cbv zeta;
    rewrite Hoff, Hload; reflexivity.
Qed.

Lemma set_px_color_tc x y c :
  0 <= x < header_w (header dsc) -> 0 <= y < header_h (header dsc) ->
  exists buf',
    lv_img_buf_set_px_color d dsc x y c = Some (with_data dsc buf')
    /\ written_at (data dsc) buf'
         ((header_w (header dsc) * y + x) * tc_pitch d (header_cf (header dsc)))
         (Z_to_little_endian (tc_written d (header_cf (header dsc))) 8 c).
Proof.
  intros Hx Hy. destruct Hwf as (Hw & Hh & _).
  destruct (tc_pitch_cases d _ Htc) as (Hs & HP & Hm & _).
  destruct (tc_px_offset x y Hx Hy) as (Hoff & H0 & H1).
  pose proof tc_buf_size as Hsz.
  set (bs := Z_to_little_endian (tc_written d (header_cf (header dsc))) 8 c).
  assert (Hlen : Z.of_nat (length bs) = tc_written d (header_cf (header dsc)))
    by (apply length_Z_to_little_endian; lia).
  destruct (buf_store_n_in_range bs (data dsc)
              ((header_w (header dsc) * y + x) * tc_pitch d (header_cf (header dsc))))
    as [buf' Hst]; [lia..|].
  exists buf'. split; [|exact (buf_store_n_lookup _ _ _ _ H0 Hst)].
  unfold lv_img_buf_set_px_color.
  fold (tc_pitch d (header_cf (header dsc))).
  subst bs. unfold tc_written in Hst.
  set (w := header_w (header dsc)) in *.
  set (P := tc_pitch d (header_cf (header dsc))) in *.
  destruct Htc as [Hcf|[Hcf|Hcf]]; rewrite Hcf in Hst |- *; cbv zeta;
    rewrite Hoff, Hst; reflexivity.
Qed.

End TrueColor.

Lemma dsc_wf_with_data d dsc buf' :
  dsc_wf d dsc -> length buf' = length (data dsc) -> dsc_wf d (with_data dsc buf').
Proof.
  intros (Hw & Hh & Hlen) Hl. unfold dsc_wf, with_data. simpl. rewrite Hl. auto.
Qed.

Lemma mod_mod_24 c : Z.land (c `mod` 2 ^ 32) 16777215 = c `mod` 2 ^ 24.
Proof.
  change 16777215 with (Z.ones 24). rewrite Z.land_ones by lia.
  change (2 ^ 32) with 4294967296. change (2 ^ 24) with 16777216.
  Z.div_mod_to_equations. lia.
Qed.

Lemma land_mod_24 c : Z.land (c `mod` 2 ^ 24) 16777215 = c `mod` 2 ^ 24.
Proof.
  change 16777215 with (Z.ones 24). rewrite Z.land_ones by lia.
  apply Z.mod_mod. lia.
Qed.

(** The colour read from a pixel whose first [tc_written] bytes are the
    little-endian bytes of [c]. *)
Lemma readback_of_written d cf c rest :
  true_color cf ->
  length rest = Z.to_nat (sizeof_lv_color_t d - tc_written d cf) ->
  force_alpha d (little_endian_to_Z 8 (Z_to_little_endian (tc_written d cf) 8 c ++ rest))
  = color_readback d c.
Proof.
  intros Htc Hrest.
  assert (Hcases : (tc_written d cf = sizeof_lv_color_t d)
                   \/ (d = Depth32 /\ tc_written d cf = 3)).
  { destruct Htc as [H|[H|H]]; rewrite H; destruct d; vm_compute; auto. }
  destruct Hcases as [Heq|[Hd Heq]].
  - rewrite Heq in Hrest |- *. rewrite Z.sub_diag in Hrest.
    destruct rest; [|discriminate]. rewrite app_nil_r.
    rewrite little_endian_to_Z_to_little_endian by (destruct d; vm_compute; congruence).
    destruct d; cbn [force_alpha color_readback sizeof_lv_color_t]; try reflexivity.
    change (4 * 8) with 32. rewrite mod_mod_24. reflexivity.
  - subst d. rewrite Heq in Hrest |- *. cbn [sizeof_lv_color_t] in Hrest.
    destruct rest as [|b [|? ?]]; try discriminate.
    cbn [force_alpha color_readback]. f_equal.
    pose proof (little_endian_low_value (Z_to_little_endian 3 8 c) b) as Hlow.
    assert (Hl : Z.of_nat (length (Z_to_little_endian 3 8 c)) = 3)
      by (apply length_Z_to_little_endian; lia).
    rewrite Hl in Hlow. change (Z.ones (8 * 3)) with 16777215 in Hlow.
    rewrite Hlow. rewrite little_endian_to_Z_to_little_endian by lia.
    change (3 * 8) with 24. apply land_mod_24.
Qed.

Section TrueColorSet.
Variables (d : color_depth) (dsc : lv_img_dsc_t) (x y : Z).
Hypothesis Hwf : dsc_wf d dsc.
Hypothesis Htc : true_color (header_cf (header dsc)).
Hypothesis Hx : 0 <= x < header_w (header dsc).
Hypothesis Hy : 0 <= y < header_h (header dsc).

Lemma set_get_px_color_tc c style :
  exists dsc',
    lv_img_buf_set_px_color d dsc x y c = Some dsc'
    /\ header dsc' = header dsc
    /\ length (data dsc') = length (data dsc)
    /\ lv_img_buf_get_px_color d dsc' x y style = Some (color_readback d c)
    /\ (forall x' y',
          0 <= x' < header_w (header dsc) -> 0 <= y' < header_h (header dsc) ->
          (x', y') <> (x, y) ->
          lv_img_buf_get_px_color d dsc' x' y' style
          = lv_img_buf_get_px_color d dsc x' y' style)
    /\ (forall x' y',
          0 <= x' < header_w (header dsc) -> 0 <= y' < header_h (header dsc) ->
          header_cf (header dsc) = LV_IMG_CF_TRUE_COLOR_ALPHA ->
          lv_img_buf_get_px_alpha d dsc' x' y' = lv_img_buf_get_px_alpha d dsc x' y').
Proof.
  destruct (set_px_color_tc d dsc Hwf Htc x y c Hx Hy) as (buf' & Hset & Hl & Hlk).
  pose proof (tc_pitch_cases d _ Htc) as (Hs & HP & Hm & Hbits & Htca).
  pose proof (tc_buf_size d dsc Hwf Htc) as Hsz.
  destruct (tc_px_offset d dsc Hwf Htc x y Hx Hy) as (_ & H0 & H1).
  assert (Hwf' : dsc_wf d (with_data dsc buf')) by (apply dsc_wf_with_data; assumption).
  set (P := tc_pitch d (header_cf (header dsc))) in *.
  set (m := tc_written d (header_cf (header dsc))) in *.
  set (w := header_w (header dsc)) in *.
  set (h := header_h (header dsc)) in *.
  set (bs := Z_to_little_endian m 8 c) in *.
  assert (Hbs : Z.of_nat (length bs) = m) by (apply length_Z_to_little_endian; lia).
  assert (Hwh : 0 < w < 2048 /\ 0 < h < 2048)
    by exact (conj (proj1 Hwf) (proj1 (proj2 Hwf))).
  assert (Hms : m <= sizeof_lv_color_t d).
  { subst m. destruct Htc as [H|[H|H]]; rewrite H; destruct d; vm_compute; congruence. }
  exists (with_data dsc buf'). split; [exact Hset|].
  split; [reflexivity|]. split; [exact Hl|]. split; [|split].
  - rewrite (get_px_color_tc d (with_data dsc buf') Hwf' Htc x y style Hx Hy).
    cbn [with_data header data header_w]. fold w P. f_equal.
    rewrite (slice_written buf' bs); [| lia | lia |].
    + apply readback_of_written; [exact Htc|]. fold m.
      rewrite length_take, length_drop. lia.
    + intros i Hi. rewrite Hlk. rewrite bool_decide_eq_true_2 by lia.
      f_equal. lia.
  - intros x' y' Hx' Hy' Hne.
    rewrite (get_px_color_tc d (with_data dsc buf') Hwf' Htc x' y' style Hx' Hy').
    rewrite (get_px_color_tc d dsc Hwf Htc x' y' style Hx' Hy').
    cbn [with_data header data header_w]. fold w P. do 3 f_equal.
    destruct (tc_px_offset d dsc Hwf Htc x' y' Hx' Hy') as (_ & H0' & H1').
    fold w h P in H0', H1'.
    apply slice_ext. intros i Hi. rewrite Hlk.
    rewrite bool_decide_eq_false_2; [reflexivity|].
    assert (Hcmp : w * y' + x' < w * y + x \/ w * y + x < w * y' + x').
    { destruct (Z.lt_trichotomy (w * y' + x') (w * y + x)) as [?|[Heq|?]]; [lia| |lia].
      exfalso. apply Hne.
      assert (y' = y) by nia. subst y'. f_equal. lia. }
    destruct Hcmp; nia.
  - intros x' y' Hx' Hy' Hcf.
    destruct (Htca Hcf) as (HPa & _).
    destruct (tc_px_offset d dsc Hwf Htc x' y' Hx' Hy') as (Hoff' & H0' & H1').
    fold w h P in Hoff', H0', H1'.
    unfold lv_img_buf_get_px_alpha. cbn [with_data header data header_w header_h header_cf].
    fold w h. rewrite Hcf. cbv zeta. rewrite <- HPa. fold P.
    rewrite !clamp_coord_spec by lia.
    replace (Z.max 0 (Z.min x' (w - 1))) with x' by lia.
    replace (Z.max 0 (Z.min y' (h - 1))) with y' by lia.
    rewrite Hoff'.
    assert (Hw : 0 < w * h * P < 2 ^ 32).
    { change (2 ^ 32) with 4294967296.
      assert (0 < w * h < 2048 * 2048) by nia. nia. }
    rewrite to_u32_id by lia.
    rewrite !buf_load_lookup by lia. rewrite Hlk.
    rewrite bool_decide_eq_false_2; [reflexivity|].
    assert (Hmm : m = P - 1).
    { subst m P. rewrite Hcf. destruct d; reflexivity. }
    destruct (Z.lt_trichotomy (w * y' + x') (w * y + x)) as [?|[Heq|?]]; nia.
Qed.

End TrueColorSet.

Lemma true_color_alpha_is_tc cf : cf = LV_IMG_CF_TRUE_COLOR_ALPHA -> true_color cf.
Proof. intros ->. right. left. reflexivity. Qed.

(** The colour decoded from a pixel depends on its first [tc_pitch - 1]
    bytes only, when the format carries an alpha byte. *)
Lemma force_alpha_prefix d (l1 l2 : list Z) (q : nat) :
  (q + Z.to_nat (LV_IMG_PX_SIZE_ALPHA_BYTE d) <= length l1)%nat ->
  length l2 = length l1 ->
  (forall i : nat, (i < Z.to_nat (LV_IMG_PX_SIZE_ALPHA_BYTE d) - 1)%nat ->
                   l1 !! (q + i)%nat = l2 !! (q + i)%nat) ->
  force_alpha d (little_endian_to_Z 8 (take (Z.to_nat (sizeof_lv_color_t d)) (drop q l1)))
  = force_alpha d (little_endian_to_Z 8 (take (Z.to_nat (sizeof_lv_color_t d)) (drop q l2))).
Proof.
  intros Hlen Hl H. destruct d.
  - do 2 f_equal. apply slice_ext. exact H.
  - do 2 f_equal. apply slice_ext. exact H.
  - cbn [sizeof_lv_color_t LV_IMG_PX_SIZE_ALPHA_BYTE] in *.
    set (bs := take 3 (drop q l1)).
    assert (Hbs : length bs = 3%nat).
    { subst bs. rewrite length_take, length_drop. lia. }
    assert (H1 : take (Z.to_nat 4) (drop q l1) = bs ++ take 1 (drop (q + 3) l1)).
    { rewrite (slice_written l1 bs q); [rewrite Hbs; reflexivity|lia|lia|].
      intros i Hi. subst bs. rewrite lookup_take_lt by lia. rewrite lookup_drop. reflexivity. }
    assert (H2 : take (Z.to_nat 4) (drop q l2) = bs ++ take 1 (drop (q + 3) l2)).
    { rewrite (slice_written l2 bs q); [rewrite Hbs; reflexivity|lia|lia|].
      intros i Hi. subst bs. rewrite lookup_take_lt by lia. rewrite lookup_drop.
      symmetry. apply H. lia. }
    rewrite H1, H2.
    destruct (lookup_lt_is_Some_2 l1 (q + 3)%nat) as [b1 Hb1]; [lia|].
    destruct (lookup_lt_is_Some_2 l2 (q + 3)%nat) as [b2 Hb2]; [lia|].
    rewrite (drop_S _ _ _ Hb1), (drop_S _ _ _ Hb2). cbn [take].
    cbn [force_alpha]. f_equal.
    pose proof (little_endian_low_land bs b1 b2) as Hlow.
    rewrite Hbs in Hlow. exact Hlow.
Qed.

Section TrueColorAlphaGet.
Variables (d : color_depth) (dsc : lv_img_dsc_t).
Hypothesis Hwf : dsc_wf d dsc.
Hypothesis Hcf : header_cf (header dsc) = LV_IMG_CF_TRUE_COLOR_ALPHA.

Lemma get_px_alpha_tca x' y' :
  0 <= x' < header_w (header dsc) -> 0 <= y' < header_h (header dsc) ->
  0 <= (header_w (header dsc) * y' + x') * LV_IMG_PX_SIZE_ALPHA_BYTE d
  /\ (header_w (header dsc) * y' + x') * LV_IMG_PX_SIZE_ALPHA_BYTE d
     + LV_IMG_PX_SIZE_ALPHA_BYTE d <= Z.of_nat (length (data dsc))
  /\ to_u32 (to_u32 (header_w (header dsc) * y' * LV_IMG_PX_SIZE_ALPHA_BYTE d
                     + x' * LV_IMG_PX_SIZE_ALPHA_BYTE d)
             + LV_IMG_PX_SIZE_ALPHA_BYTE d - 1)
     = (header_w (header dsc) * y' + x') * LV_IMG_PX_SIZE_ALPHA_BYTE d
       + LV_IMG_PX_SIZE_ALPHA_BYTE d - 1
  /\ lv_img_buf_get_px_alpha d dsc x' y'
     = data dsc !! Z.to_nat ((header_w (header dsc) * y' + x') * LV_IMG_PX_SIZE_ALPHA_BYTE d
                             + LV_IMG_PX_SIZE_ALPHA_BYTE d - 1).
Proof.
  intros Hx' Hy'.
  pose proof (true_color_alpha_is_tc _ Hcf) as Htc.
  pose proof (tc_pitch_cases d _ Htc) as (Hs & HP & Hm & Hbits & Htca).
  destruct (Htca Hcf) as (HPa & _).
  pose proof (tc_buf_size d dsc Hwf Htc) as Hsz.
  destruct (tc_px_offset d dsc Hwf Htc x' y' Hx' Hy') as (Hoff' & H0' & H1').
  assert (Hwh : 0 < header_w (header dsc) < 2048 /\ 0 < header_h (header dsc) < 2048)
    by exact (conj (proj1 Hwf) (proj1 (proj2 Hwf))).
  rewrite HPa in *.
  set (P := LV_IMG_PX_SIZE_ALPHA_BYTE d) in *.
  set (w := header_w (header dsc)) in *.
  set (h := header_h (header dsc)) in *.
  assert (Hw : 0 < w * h * P < 2 ^ 32).
  { change (2 ^ 32) with 4294967296.
    assert (0 < w * h < 2048 * 2048) by nia. nia. }
  split; [lia|]. split; [lia|].
  assert (Hu : to_u32 (to_u32 (w * y' * P + x' * P) + P - 1) = (w * y' + x') * P + P - 1).
  { rewrite Hoff'. apply to_u32_id. lia. }
  split; [exact Hu|].
  unfold lv_img_buf_get_px_alpha. fold w h. rewrite Hcf. cbv zeta. fold P.
  rewrite !clamp_coord_spec by lia.
  replace (Z.max 0 (Z.min x' (w - 1))) with x' by lia.
  replace (Z.max 0 (Z.min y' (h - 1))) with y' by lia.
  rewrite Hu. rewrite buf_load_lookup by lia. reflexivity.
Qed.

End TrueColorAlphaGet.

Section TrueColorAlphaSet.
Variables (d : color_depth) (dsc : lv_img_dsc_t) (x y : Z).
Hypothesis Hwf : dsc_wf d dsc.
Hypothesis Hcf : header_cf (header dsc) = LV_IMG_CF_TRUE_COLOR_ALPHA.
Hypothesis Hx : 0 <= x < header_w (header dsc).
Hypothesis Hy : 0 <= y < header_h (header dsc).

Lemma set_px_alpha_tca opa :
  exists dsc',
    lv_img_buf_set_px_alpha d dsc x y opa = Some dsc'
    /\ header dsc' = header dsc
    /\ length (data dsc') = length (data dsc)
    /\ lv_img_buf_get_px_alpha d dsc' x y = Some opa
    /\ (forall x' y',
          0 <= x' < header_w (header dsc) -> 0 <= y' < header_h (header dsc) ->
          (x', y') <> (x, y) ->
          lv_img_buf_get_px_alpha d dsc' x' y' = lv_img_buf_get_px_alpha d dsc x' y')
    /\ (forall x' y' style,
          0 <= x' < header_w (header dsc) -> 0 <= y' < header_h (header dsc) ->
          lv_img_buf_get_px_color d dsc' x' y' style
          = lv_img_buf_get_px_color d dsc x' y' style).
Proof.
  pose proof (true_color_alpha_is_tc _ Hcf) as Htc.
  pose proof (tc_pitch_cases d _ Htc) as (Hs & HP & Hm & Hbits & Htca).
  destruct (Htca Hcf) as (HPa & _).
  destruct (get_px_alpha_tca d dsc Hwf Hcf x y Hx Hy) as (H0 & H1 & Hu & _).
  assert (Hwh : 0 < header_w (header dsc) < 2048 /\ 0 < header_h (header dsc) < 2048)
    by exact (conj (proj1 Hwf) (proj1 (proj2 Hwf))).
  set (P := LV_IMG_PX_SIZE_ALPHA_BYTE d) in *.
  set (w := header_w (header dsc)) in *.
  set (h := header_h (header dsc)) in *.
  set (J := Z.to_nat ((w * y + x) * P + P - 1)).
  assert (HP1 : 2 <= P <= 4) by (subst P; destruct d; vm_compute; split; congruence).
  set (buf' := <[J := opa]> (data dsc)).
  assert (Hl : length buf' = length (data dsc)) by (subst buf'; apply length_insert).
  assert (Hwf' : dsc_wf d (with_data dsc buf')) by (apply dsc_wf_with_data; assumption).
  assert (Hset : lv_img_buf_set_px_alpha d dsc x y opa = Some (with_data dsc buf')).
  { unfold lv_img_buf_set_px_alpha. fold w. rewrite Hcf. cbv zeta.
    fold (tc_pitch d LV_IMG_CF_TRUE_COLOR_ALPHA). rewrite <- Hcf, HPa. fold P.
    rewrite Hu. unfold buf_store. rewrite bool_decide_eq_true_2 by lia.
    cbn [fmap option_fmap option_map]. reflexivity. }
  exists (with_data dsc buf'). split; [exact Hset|].
  split; [reflexivity|]. split; [exact Hl|]. split; [|split].
  - destruct (get_px_alpha_tca d (with_data dsc buf') Hwf' Hcf x y Hx Hy) as (_ & _ & _ & Hg).
    rewrite Hg. cbn [with_data header data header_w]. fold w P J. subst buf'.
    apply list_lookup_insert_eq. lia.
  - intros x' y' Hx' Hy' Hne.
    destruct (get_px_alpha_tca d (with_data dsc buf') Hwf' Hcf x' y' Hx' Hy') as (_ & _ & _ & Hg).
    destruct (get_px_alpha_tca d dsc Hwf Hcf x' y' Hx' Hy') as (H0' & H1' & _ & Hg0).
    rewrite Hg, Hg0. cbn [with_data header data header_w]. fold w P in H0', H1' |- *.
    subst buf'. apply list_lookup_insert_ne.
    assert (Hcmp : w * y' + x' < w * y + x \/ w * y + x < w * y' + x').
    { destruct (Z.lt_trichotomy (w * y' + x') (w * y + x)) as [?|[Heq|?]]; [lia| |lia].
      exfalso. apply Hne.
      assert (y' = y) by nia. subst y'. f_equal. lia. }
    subst J. destruct Hcmp; nia.
  - intros x' y' style Hx' Hy'.
    rewrite (get_px_color_tc d (with_data dsc buf') Hwf' Htc x' y' style Hx' Hy').
    rewrite (get_px_color_tc d dsc Hwf Htc x' y' style Hx' Hy').
    destruct (get_px_alpha_tca d dsc Hwf Hcf x' y' Hx' Hy') as (H0' & H1' & _ & _).
    cbn [with_data header data header_w]. rewrite HPa. fold w P in H0', H1' |- *.
    f_equal. apply force_alpha_prefix; fold P; [lia|symmetry; exact Hl|].
    intros i Hi. subst buf'. apply list_lookup_insert_ne.
    subst J.
    destruct (Z.lt_trichotomy (w * y' + x') (w * y + x)) as [?|[Heq|?]]; nia.
Qed.

End TrueColorAlphaSet.

(** ** Round trips and frames of the setters *)

Lemma set_px_color_header d dsc x y c dsc' :
  lv_img_buf_set_px_color d dsc x y c = Some dsc' -> header dsc' = header dsc.
Proof.
  unfold lv_img_buf_set_px_color. intros H.
  destruct (header_cf (header dsc)); cbv zeta in H;
    try (injection H as <-; reflexivity);
    match type of H with
    | with_data _ <$> ?o = _ => destruct o; [|discriminate]
    end; injection H as <-; reflexivity.
Qed.

Lemma set_px_alpha_header d dsc x y opa dsc' :
  lv_img_buf_set_px_alpha d dsc x y opa = Some dsc' -> header dsc' = header dsc.
Proof.
  unfold lv_img_buf_set_px_alpha. intros H.
  destruct (header_cf (header dsc)); cbv zeta in H;
    try (injection H as <-; reflexivity);
    match type of H with
    | with_data _ <$> ?o = _ => destruct o; [|discriminate]
    end; injection H as <-; reflexivity.
Qed.

Lemma format_family cf :
  true_color cf \/ indexed cf \/ ~ (true_color cf \/ indexed cf).
Proof.
  unfold true_color, indexed.
  destruct cf; auto 10; right; right; intros [[H|[H|H]]|[H|[H|[H|H]]]]; discriminate.
Qed.

Lemma alpha_only_dec cf : alpha_only cf \/ ~ alpha_only cf.
Proof.
  unfold alpha_only.
  destruct cf; auto 10; right; intros [H|[H|[H|H]]]; discriminate.
Qed.

Section Codec.
Variables (d : color_depth) (dsc : lv_img_dsc_t) (x y : Z).
Hypothesis Hwf : dsc_wf d dsc.
Hypothesis Hx : 0 <= x < header_w (header dsc).
Hypothesis Hy : 0 <= y < header_h (header dsc).

(** X2: on an indexed image, writing a colour index with
    [lv_img_buf_set_px_color] at an in-range pixel and reading the pixel
    with [lv_img_buf_get_px_color] gives the index cut to the bits of the
    format (1, 2, 4 or 8). *)
Theorem indexed_color_round_trip c style :
  indexed (header_cf (header dsc)) ->
  exists dsc',
    lv_img_buf_set_px_color d dsc x y c = Some dsc'
    /\ lv_img_buf_get_px_color d dsc' x y style
       = Some (c `mod` 2 ^ lv_img_color_format_get_px_size d (header_cf (header dsc))).
Proof.
  intros Hcf. destruct (set_px_color_indexed d dsc x y Hwf Hx Hy c style Hcf)
    as (dsc' & Hset & Hget & _).
  exists dsc'. split; assumption.
Qed.

(** X3: on a true colour image (plain, chroma keyed or with alpha byte),
    writing a colour at an in-range pixel and reading it back gives the
    colour cut to the colour size; at 32 bit the three colour bytes come
    back and the alpha byte reads as [0xFF]. *)
Theorem true_color_round_trip c style :
  true_color (header_cf (header dsc)) ->
  exists dsc',
    lv_img_buf_set_px_color d dsc x y c = Some dsc'
    /\ lv_img_buf_get_px_color d dsc' x y style = Some (color_readback d c).
Proof.
  intros Hcf. destruct (set_get_px_color_tc d dsc x y Hwf Hcf Hx Hy c style)
    as (dsc' & Hset & _ & _ & Hget & _).
  exists dsc'. split; assumption.
Qed.

(** X4: on the Alpha-2/4/8-bit and the true colour alpha formats, an
    opacity written with [lv_img_buf_set_px_alpha] reads back with
    [lv_img_buf_get_px_alpha] as [85 * (v / 64)], [17 * (v / 16)] or [v]:
    less than one step of the format away from [v], and equal to [v] when
    [v] is a multiple of the step. *)
Theorem alpha_round_trip_quantised v :
  alpha_multibit (header_cf (header dsc)) -> 0 <= v <= 255 ->
  exists dsc',
    lv_img_buf_set_px_alpha d dsc x y v = Some dsc'
    /\ lv_img_buf_get_px_alpha d dsc' x y
       = Some (alpha_readback (header_cf (header dsc)) v)
    /\ Z.abs (alpha_readback (header_cf (header dsc)) v - v)
       < alpha_step (header_cf (header dsc))
    /\ (v `mod` alpha_step (header_cf (header dsc)) = 0 ->
        alpha_readback (header_cf (header dsc)) v = v).
Proof.
  intros Hcf Hv. destruct Hcf as [Hcf|[Hcf|[Hcf|Hcf]]].
  - destruct (set_get_px_alpha_2bit d dsc x y v Hwf Hx Hy Hv Hcf) as (dsc' & Hset & Hget).
    exists dsc'. rewrite Hcf. cbn [alpha_readback alpha_step].
    split; [exact Hset|]. split; [exact Hget|].
    split; [|intros Hm]; Z.div_mod_to_equations; lia.
  - destruct (set_get_px_alpha_4bit d dsc x y v Hwf Hx Hy Hv Hcf) as (dsc' & Hset & Hget).
    exists dsc'. rewrite Hcf. cbn [alpha_readback alpha_step].
    split; [exact Hset|]. split; [exact Hget|].
    split; [|intros Hm]; Z.div_mod_to_equations; lia.
  - destruct (set_get_px_alpha_8bit d dsc x y v Hwf Hx Hy Hcf) as (dsc' & Hset & Hget).
    exists dsc'. rewrite Hcf. cbn [alpha_readback alpha_step].
    split; [exact Hset|]. split; [exact Hget|]. split; [lia|reflexivity].
  - destruct (set_px_alpha_tca d dsc x y Hwf Hcf Hx Hy v) as (dsc' & Hset & _ & _ & Hget & _).
    exists dsc'. rewrite Hcf. cbn [alpha_readback alpha_step].
    split; [exact Hset|]. split; [exact Hget|]. split; [lia|reflexivity].
Qed.

(** X5: whatever the format, [lv_img_buf_set_px_color] at an in-range
    pixel returns, and changes neither the colour of any other pixel, nor
    the alpha of any pixel, nor a byte of the palette. *)
Theorem set_px_color_touches_one_pixel c :
  exists dsc',
    lv_img_buf_set_px_color d dsc x y c = Some dsc'
    /\ (forall x' y' style,
          0 <= x' < header_w (header dsc) -> 0 <= y' < header_h (header dsc) ->
          (x', y') <> (x, y) ->
          lv_img_buf_get_px_color d dsc' x' y' style
          = lv_img_buf_get_px_color d dsc x' y' style)
    /\ (forall x' y',
          0 <= x' < header_w (header dsc) -> 0 <= y' < header_h (header dsc) ->
          lv_img_buf_get_px_alpha d dsc' x' y' = lv_img_buf_get_px_alpha d dsc x' y')
    /\ (forall k : nat,
          Z.of_nat k < 4 * palette_entries (header_cf (header dsc)) ->
          data dsc' !! k = data dsc !! k).
Proof.
  destruct (format_family (header_cf (header dsc))) as [Hcf|[Hcf|Hcf]].
  - destruct (set_get_px_color_tc d dsc x y Hwf Hcf Hx Hy c None)
      as (dsc' & Hset & Hhd & _ & _ & _ & Hal).
    exists dsc'. split; [exact Hset|]. split; [|split].
    + intros x' y' style Hx' Hy' Hne.
      destruct (set_get_px_color_tc d dsc x y Hwf Hcf Hx Hy c style)
        as (dsc2 & Hset2 & _ & _ & _ & Hfr & _).
      rewrite Hset in Hset2. injection Hset2 as <-. apply Hfr; assumption.
    + intros x' y' Hx' Hy'.
      destruct (lv_img_cf_eq_dec (header_cf (header dsc)) LV_IMG_CF_TRUE_COLOR_ALPHA)
        as [Htca|Hn]; [apply Hal; assumption|].
      unfold lv_img_buf_get_px_alpha. rewrite Hhd.
      destruct Hcf as [H|[H|H]]; try contradiction; rewrite H; reflexivity.
    + intros k Hk. exfalso.
      destruct Hcf as [H|[H|H]]; rewrite H in Hk; simpl in Hk; lia.
  - destruct (set_px_color_indexed d dsc x y Hwf Hx Hy c None Hcf)
      as (dsc' & Hset & _ & _ & Hpal).
    exists dsc'. split; [exact Hset|]. split; [|split; [|exact Hpal]].
    + intros x' y' style Hx' Hy' Hne.
      destruct (set_px_color_indexed d dsc x y Hwf Hx Hy c style Hcf)
        as (dsc2 & Hset2 & _ & Hfr & _).
      rewrite Hset in Hset2. injection Hset2 as <-. apply Hfr; assumption.
    + intros x' y' Hx' Hy'.
      pose proof (set_px_color_header _ _ _ _ _ _ Hset) as Hhd.
      unfold lv_img_buf_get_px_alpha. rewrite Hhd.
      destruct Hcf as [H|[H|[H|H]]]; rewrite H; reflexivity.
  - exists dsc. split; [|auto].
    unfold lv_img_buf_set_px_color.
    destruct (header_cf (header dsc)); try reflexivity; exfalso; apply Hcf;
      unfold true_color, indexed; auto 10.
Qed.

(** X6: whatever the format, [lv_img_buf_set_px_alpha] at an in-range
    pixel returns, and changes neither the alpha of any other pixel nor the
    colour of any pixel. *)
Theorem set_px_alpha_touches_one_pixel opa :
  exists dsc',
    lv_img_buf_set_px_alpha d dsc x y opa = Some dsc'
    /\ (forall x' y',
          0 <= x' < header_w (header dsc) -> 0 <= y' < header_h (header dsc) ->
          (x', y') <> (x, y) ->
          lv_img_buf_get_px_alpha d dsc' x' y' = lv_img_buf_get_px_alpha d dsc x' y')
    /\ (forall x' y' style,
          0 <= x' < header_w (header dsc) -> 0 <= y' < header_h (header dsc) ->
          lv_img_buf_get_px_color d dsc' x' y' style
          = lv_img_buf_get_px_color d dsc x' y' style).
Proof.
  destruct (lv_img_cf_eq_dec (header_cf (header dsc)) LV_IMG_CF_TRUE_COLOR_ALPHA)
    as [Hcf|Hn].
  { destruct (set_px_alpha_tca d dsc x y Hwf Hcf Hx Hy opa)
      as (dsc' & Hset & _ & _ & _ & Hfr & Hcol).
    exists dsc'. split; [exact Hset|]. split; [exact Hfr|].
    intros x' y' style Hx' Hy'. apply Hcol; assumption. }
  destruct (alpha_only_dec (header_cf (header dsc))) as [Hcf|Hna].
  - assert (Hfr : exists dsc', alpha_write_frame d dsc x y opa dsc').
    { destruct Hcf as [Hcf|[Hcf|[Hcf|Hcf]]].
      - apply set_px_alpha_frame_1bit; assumption.
      - apply set_px_alpha_frame_2bit; assumption.
      - apply set_px_alpha_frame_4bit; assumption.
      - apply set_px_alpha_frame_8bit; assumption. }
    destruct Hfr as (dsc' & Hset & Hfr).
    exists dsc'. split; [exact Hset|]. split; [exact Hfr|].
    intros x' y' style Hx' Hy'.
    pose proof (set_px_alpha_header _ _ _ _ _ _ Hset) as Hhd.
    unfold lv_img_buf_get_px_color. rewrite Hhd.
    destruct Hcf as [Hcf|[Hcf|[Hcf|Hcf]]]; rewrite Hcf; reflexivity.
  - exists dsc. split; [|auto].
    unfold lv_img_buf_set_px_alpha.
    destruct (header_cf (header dsc)); try reflexivity; try contradiction;
      exfalso; apply Hna; unfold alpha_only; auto 10.
Qed.

End Codec.

Lemma indexed_color_round_trip_witness :
  exists dsc',
    lv_img_buf_set_px_color Depth16
      (img LV_IMG_CF_INDEXED_2BIT 3 2 (replicate 16 0 ++ [0; 0])) 2 1 7 = Some dsc'
    /\ lv_img_buf_get_px_color Depth16 dsc' 2 1 None = Some (7 `mod` 2 ^ 2).
Proof.
  apply (indexed_color_round_trip Depth16
           (img LV_IMG_CF_INDEXED_2BIT 3 2 (replicate 16 0 ++ [0; 0])) 2 1).
  - unfold dsc_wf. vm_compute. repeat split; congruence.
  - simpl; lia.
  - simpl; lia.
  - right. left. reflexivity.
Defined.

Lemma true_color_round_trip_witness :
  exists dsc',
    lv_img_buf_set_px_color Depth32
      (img LV_IMG_CF_TRUE_COLOR_ALPHA 2 1 (replicate 8 9)) 1 0 287454020 = Some dsc'
    /\ lv_img_buf_get_px_color Depth32 dsc' 1 0 None
       = Some (color_readback Depth32 287454020).
Proof.
  apply (true_color_round_trip Depth32
           (img LV_IMG_CF_TRUE_COLOR_ALPHA 2 1 (replicate 8 9)) 1 0).
  - unfold dsc_wf. vm_compute. repeat split; congruence.
  - simpl; lia.
  - simpl; lia.
  - right. left. reflexivity.
Defined.

Lemma alpha_round_trip_quantised_witness :
  exists dsc',
    lv_img_buf_set_px_alpha Depth16 (img LV_IMG_CF_ALPHA_2BIT 4 1 [0]) 1 0 200 = Some dsc'
    /\ lv_img_buf_get_px_alpha Depth16 dsc' 1 0 = Some 255
    /\ Z.abs (255 - 200) < 85
    /\ (200 `mod` 85 = 0 -> 255 = 200).
Proof.
  apply (alpha_round_trip_quantised Depth16 (img LV_IMG_CF_ALPHA_2BIT 4 1 [0]) 1 0).
  - unfold dsc_wf. vm_compute. repeat split; congruence.
  - simpl; lia.
  - simpl; lia.
  - left. reflexivity.
  - lia.
Defined.

Lemma set_px_color_touches_one_pixel_witness :
  exists dsc',
    lv_img_buf_set_px_color Depth16
      (img LV_IMG_CF_TRUE_COLOR_ALPHA 2 1 [1; 2; 3; 4; 5; 6]) 0 0 63488 = Some dsc'
    /\ (forall x' y' style,
          0 <= x' < 2 -> 0 <= y' < 1 -> (x', y') <> (0, 0) ->
          lv_img_buf_get_px_color Depth16 dsc' x' y' style
          = lv_img_buf_get_px_color Depth16
              (img LV_IMG_CF_TRUE_COLOR_ALPHA 2 1 [1; 2; 3; 4; 5; 6]) x' y' style)
    /\ (forall x' y',
          0 <= x' < 2 -> 0 <= y' < 1 ->
          lv_img_buf_get_px_alpha Depth16 dsc' x' y'
          = lv_img_buf_get_px_alpha Depth16
              (img LV_IMG_CF_TRUE_COLOR_ALPHA 2 1 [1; 2; 3; 4; 5; 6]) x' y')
    /\ (forall k : nat,
          Z.of_nat k < 4 * 0 ->
          data dsc' !! k = [1; 2; 3; 4; 5; 6] !! k).
Proof.
  apply (set_px_color_touches_one_pixel Depth16
           (img LV_IMG_CF_TRUE_COLOR_ALPHA 2 1 [1; 2; 3; 4; 5; 6]) 0 0).
  - unfold dsc_wf. vm_compute. repeat split; congruence.
  - simpl; lia.
  - simpl; lia.
Defined.

Lemma set_px_alpha_touches_one_pixel_witness :
  exists dsc',
    lv_img_buf_set_px_alpha Depth16 (img LV_IMG_CF_ALPHA_4BIT 2 1 [165]) 1 0 255 = Some dsc'
    /\ (forall x' y',
          0 <= x' < 2 -> 0 <= y' < 1 -> (x', y') <> (1, 0) ->
          lv_img_buf_get_px_alpha Depth16 dsc' x' y'
          = lv_img_buf_get_px_alpha Depth16 (img LV_IMG_CF_ALPHA_4BIT 2 1 [165]) x' y')
    /\ (forall x' y' style,
          0 <= x' < 2 -> 0 <= y' < 1 ->
          lv_img_buf_get_px_color Depth16 dsc' x' y' style
          = lv_img_buf_get_px_color Depth16 (img LV_IMG_CF_ALPHA_4BIT 2 1 [165]) x' y' style).
Proof.
  apply (set_px_alpha_touches_one_pixel Depth16 (img LV_IMG_CF_ALPHA_4BIT 2 1 [165]) 1 0).
  - unfold dsc_wf. vm_compute. repeat split; congruence.
  - simpl; lia.
  - simpl; lia.
Defined.

(** ** The palette *)

Lemma stored_bits_ext bpp off dsc dsc' x y :
  0 <= bpp -> 0 <= off -> 0 <= x -> 0 <= y -> 0 <= header_w (header dsc) ->
  header dsc' = header dsc ->
  (forall k : nat, off <= Z.of_nat k -> data dsc' !! k = data dsc !! k) ->
  stored_bits bpp off dsc' x y = stored_bits bpp off dsc x y.
Proof.
  intros Hb Hoff Hx Hy Hw Hhd Hdata. unfold stored_bits. rewrite Hhd.
  rewrite Hdata; [reflexivity|].
  assert (0 <= row_stride bpp (header_w (header dsc)))
    by (unfold row_stride; apply Z.div_pos; nia).
  assert (0 <= x `div` (8 `div` bpp)).
  { destruct (Z.eq_dec (8 `div` bpp) 0) as [E|E]; [rewrite E, Z.div_0_r; lia|].
    apply Z.div_pos; [lia|]. pose proof (Z.div_pos 8 bpp). 
    destruct (Z.eq_dec bpp 0) as [->|]; [rewrite Z.div_0_r in E; lia|]. lia. }
  rewrite Z2Nat.id by nia. nia.
Qed.

(** The index an indexed image holds for a pixel depends on the pixel rows
    only, not on the palette in front of them. *)
Lemma get_px_color_indexed_ext d dsc dsc' x y style :
  dsc_wf d dsc -> indexed (header_cf (header dsc)) ->
  header dsc' = header dsc -> length (data dsc') = length (data dsc) ->
  (forall k : nat, 4 * palette_entries (header_cf (header dsc)) <= Z.of_nat k ->
                   data dsc' !! k = data dsc !! k) ->
  0 <= x < header_w (header dsc) -> 0 <= y < header_h (header dsc) ->
  lv_img_buf_get_px_color d dsc' x y style = lv_img_buf_get_px_color d dsc x y style.
Proof.
  intros (Hw & Hh & Hlen) Hcf Hhd Hl Hdata Hx Hy.
  assert (Hw' : 0 < header_w (header dsc') < 2048) by (rewrite Hhd; exact Hw).
  assert (Hh' : 0 < header_h (header dsc') < 2048) by (rewrite Hhd; exact Hh).
  assert (Hx' : 0 <= x < header_w (header dsc')) by (rewrite Hhd; exact Hx).
  assert (Hy' : 0 <= y < header_h (header dsc')) by (rewrite Hhd; exact Hy).
  unfold img_buf_size in Hlen.
  destruct Hcf as [Hcf|[Hcf|[Hcf|Hcf]]]; rewrite Hcf in Hlen, Hdata; simpl in Hlen, Hdata.
  - destruct (stored_bits_in_range 1 7 3 (4 * 2) dsc x y packing_1) as [raw Hraw]; [lia..|].
    pose proof (stored_bits_ext 1 (4 * 2) dsc dsc' x y) as He.
    rewrite <- He in Hraw by (first [lia | assumption]).
    rewrite (proj1 (get_px_color_indexed_1bit d dsc' x y style Hw' Hh' Hx' Hy' raw
                      ltac:(rewrite Hhd; exact Hcf) Hraw)).
    rewrite He in Hraw by (first [lia | assumption]).
    rewrite (proj1 (get_px_color_indexed_1bit d dsc x y style Hw Hh Hx Hy raw Hcf Hraw)).
    reflexivity.
  - destruct (stored_bits_in_range 2 3 2 (4 * 4) dsc x y packing_2) as [raw Hraw]; [lia..|].
    pose proof (stored_bits_ext 2 (4 * 4) dsc dsc' x y) as He.
    rewrite <- He in Hraw by (first [lia | assumption]).
    rewrite (proj1 (get_px_color_indexed_2bit d dsc' x y style Hw' Hh' Hx' Hy' raw
                      ltac:(rewrite Hhd; exact Hcf) Hraw)).
    rewrite He in Hraw by (first [lia | assumption]).
    rewrite (proj1 (get_px_color_indexed_2bit d dsc x y style Hw Hh Hx Hy raw Hcf Hraw)).
    reflexivity.
  - destruct (stored_bits_in_range 4 1 1 (4 * 16) dsc x y packing_4) as [raw Hraw]; [lia..|].
    pose proof (stored_bits_ext 4 (4 * 16) dsc dsc' x y) as He.
    rewrite <- He in Hraw by (first [lia | assumption]).
    rewrite (proj1 (get_px_color_indexed_4bit d dsc' x y style Hw' Hh' Hx' Hy' raw
                      ltac:(rewrite Hhd; exact Hcf) Hraw)).
    rewrite He in Hraw by (first [lia | assumption]).
    rewrite (proj1 (get_px_color_indexed_4bit d dsc x y style Hw Hh Hx Hy raw Hcf Hraw)).
    reflexivity.
  - rewrite (get_px_color_indexed_8bit d dsc' x y style Hw' Hh' Hx' Hy')
      by (rewrite Hhd; exact Hcf).
    rewrite (get_px_color_indexed_8bit d dsc x y style Hw Hh Hx Hy Hcf).
    rewrite Hhd. apply Hdata. nia.
Qed.

(** X7: on an indexed image, [lv_img_buf_set_palette] with an index
    inside the palette logs nothing, stores the four bytes of the 32-bit
    colour at [4 * id], changes no other byte, and leaves the index of every
    pixel as it was. *)
Theorem set_palette_keeps_pixels lv_color_to32 d dsc id c :
  dsc_wf d dsc -> indexed (header_cf (header dsc)) ->
  0 <= id < palette_entries (header_cf (header dsc)) ->
  exists dsc',
    lv_img_buf_set_palette lv_color_to32 dsc id c = Some (false, dsc')
    /\ take 4 (drop (Z.to_nat (4 * id)) (data dsc'))
       = Z_to_little_endian 4 8 (lv_color_to32 c)
    /\ (forall k : nat, ~ (4 * id <= Z.of_nat k < 4 * id + 4) ->
                        data dsc' !! k = data dsc !! k)
    /\ (forall x y style,
          0 <= x < header_w (header dsc) -> 0 <= y < header_h (header dsc) ->
          lv_img_buf_get_px_color d dsc' x y style
          = lv_img_buf_get_px_color d dsc x y style).
Proof.
  intros Hwf Hcf Hid.
  assert (Hne : palette_entries (header_cf (header dsc)) <> 0) by lia.
  rewrite (set_palette_indexed_any_id _ _ _ _ Hne).
  set (bs := Z_to_little_endian 4 8 (lv_color_to32 c)).
  assert (Hbs : Z.of_nat (length bs) = 4) by (apply length_Z_to_little_endian; lia).
  pose proof Hwf as (Hw & Hh & Hlen). unfold img_buf_size in Hlen.
  assert (Hrows : 0 <= row_stride (lv_img_color_format_get_px_size d (header_cf (header dsc)))
                         (header_w (header dsc)) * header_h (header dsc)).
  { apply Z.mul_nonneg_nonneg; [|lia]. unfold row_stride. apply Z.div_pos; [|lia].
    destruct Hcf as [H|[H|[H|H]]]; rewrite H; simpl; lia. }
  destruct (buf_store_n_in_range bs (data dsc) (id * 4)) as [buf' Hst]; [lia..|].
  destruct (buf_store_n_lookup bs (data dsc) (id * 4) buf' ltac:(lia) Hst) as [Hl Hlk].
  rewrite Hst. cbn [mbind option_bind].
  exists (with_data dsc buf'). split; [reflexivity|]. cbn [with_data data].
  split; [|split].
  - apply list_eq. intros i. rewrite lookup_take.
    destruct (decide (i < 4)%nat); [|symmetry; apply lookup_ge_None_2; lia].
    rewrite lookup_drop, Hlk. rewrite bool_decide_eq_true_2 by lia. f_equal. lia.
  - intros k Hk. rewrite Hlk. rewrite bool_decide_eq_false_2 by lia. reflexivity.
  - intros x y style Hx Hy.
    apply get_px_color_indexed_ext; try assumption; [reflexivity|].
    intros k Hk. cbn [with_data data]. rewrite Hlk.
    rewrite bool_decide_eq_false_2 by lia. reflexivity.
Qed.

Lemma set_palette_keeps_pixels_witness :
  exists dsc',
    lv_img_buf_set_palette (fun c => c) (img LV_IMG_CF_INDEXED_1BIT 8 1 (replicate 9 0))
      1 4281558681 = Some (false, dsc')
    /\ take 4 (drop (Z.to_nat (4 * 1)) (data dsc')) = Z_to_little_endian 4 8 4281558681
    /\ (forall k : nat, ~ (4 * 1 <= Z.of_nat k < 4 * 1 + 4) ->
                        data dsc' !! k = replicate 9 0 !! k)
    /\ (forall x y style,
          0 <= x < 8 -> 0 <= y < 1 ->
          lv_img_buf_get_px_color Depth16 dsc' x y style
          = lv_img_buf_get_px_color Depth16
              (img LV_IMG_CF_INDEXED_1BIT 8 1 (replicate 9 0)) x y style).
Proof.
  apply (set_palette_keeps_pixels (fun c => c) Depth16
           (img LV_IMG_CF_INDEXED_1BIT 8 1 (replicate 9 0)) 1 4281558681).
  - unfold dsc_wf. vm_compute. repeat split; congruence.
  - left. reflexivity.
  - simpl; lia.
Defined.

(** * Drawing beyond the claims *)

(** ** Calls of [lv_draw_map] *)

Section MapCalls.
Variable env : draw_env.
Variables (map_area clip_area : lv_area_t) (map_p : list Z).
Variables (chroma_key alpha_byte : bool) (recolor recolor_opa : Z).

Lemma draw_map_line_opaque draw_area map_w y st st' :
  draw_map_line env clip_area map_p chroma_key alpha_byte recolor recolor_opa
    draw_area map_w y st = Some st' ->
  Forall (opaque_call clip_area) (st_calls st) ->
  Forall (opaque_call clip_area) (st_calls st').
Proof.
  unfold draw_map_line. intros H Hst.
  destruct (draw_map_row _ _ _ _ _ _ _ _ _ _) as [[px [m2 mb]]|]; [|discriminate].
  cbn [mbind option_bind] in H.
  destruct (if bool_decide (lv_draw_mask_get_cnt env <> 0) then _ else _) as [mr mb'].
  case_bool_decide; injection H as <-; simpl; [assumption|].
  apply Forall_app. split; [assumption|]. apply Forall_singleton.
  repeat split.
Qed.

Lemma draw_map_lines_opaque draw_area map_w n :
  forall y st st',
    draw_map_lines env clip_area map_p chroma_key alpha_byte recolor recolor_opa
      draw_area map_w n y st = Some st' ->
    Forall (opaque_call clip_area) (st_calls st) ->
    Forall (opaque_call clip_area) (st_calls st').
Proof.
  induction n as [|n IH]; intros y st st' H Hst; simpl in H.
  - injection H as <-. assumption.
  - destruct (draw_map_line _ _ _ _ _ _ _ _ _ _ _) as [st1|] eqn:E; [|discriminate].
    simpl in H. eapply IH; [exact H|]. eapply draw_map_line_opaque; eassumption.
Qed.

Lemma draw_map_general_opaque draw_area calls :
  draw_map_general env map_area clip_area map_p chroma_key alpha_byte recolor recolor_opa
    draw_area = Some calls ->
  Forall (opaque_call clip_area) calls.
Proof.
  unfold draw_map_general. intros H.
  destruct (draw_map_lines _ _ _ _ _ _ _ _ _ _ _ _) as [st|] eqn:E; [|discriminate].
  apply draw_map_lines_opaque in E; [|apply Forall_nil_2].
  simpl in H. case_bool_decide; injection H as <-; [|assumption].
  apply Forall_app. split; [assumption|]. apply Forall_singleton. repeat split.
Qed.

(** X8: [lv_draw_map] never hands the opacity of the image to
    [lv_blend_map]: every call has the clip area, [LV_OPA_COVER] and the
    normal mode.  Below [LV_OPA_MIN] nothing is drawn; and when the bulk copy
    is ruled out (a mask, the chroma key, an alpha byte or recolouring) any
    two opacities from [LV_OPA_MIN] on give the same calls. *)
Theorem draw_map_opacity_not_applied opa calls :
  lv_draw_map env map_area clip_area map_p chroma_key alpha_byte recolor recolor_opa opa
    = Some calls ->
  Forall (opaque_call clip_area) calls
  /\ (opa < LV_OPA_MIN env -> calls = [])
  /\ (per_pixel_only env chroma_key alpha_byte recolor_opa ->
      forall opa', LV_OPA_MIN env <= opa -> LV_OPA_MIN env <= opa' ->
        lv_draw_map env map_area clip_area map_p chroma_key alpha_byte recolor recolor_opa
          opa' = Some calls).
Proof.
  intros H. split; [|split].
  - unfold lv_draw_map in H.
    case_bool_decide; [injection H as <-; apply Forall_nil_2|].
    destruct (lv_area_intersect map_area clip_area) as [da|];
      [|injection H as <-; apply Forall_nil_2].
    destruct (_ && _) in H.
    + injection H as <-. apply Forall_singleton. repeat split.
    + eapply draw_map_general_opaque. exact H.
  - intros Hlow. unfold lv_draw_map in H.
    rewrite bool_decide_eq_true_2 in H by assumption. injection H as <-. reflexivity.
  - intros Hpp opa' Ho Ho'. rewrite <- H. unfold lv_draw_map.
    rewrite !(bool_decide_eq_false_2 (_ < LV_OPA_MIN env)) by lia.
    destruct (lv_area_intersect map_area clip_area) as [da|]; [|reflexivity].
    assert (Hc : forall b : bool,
               bool_decide (lv_draw_mask_get_cnt env = 0) && negb chroma_key
               && negb alpha_byte && b && bool_decide (recolor_opa = LV_OPA_TRANSP) = false).
    { intros b. destruct Hpp as [Hp|[Hp|[Hp|Hp]]].
      - rewrite (bool_decide_eq_false_2 _ Hp). reflexivity.
      - rewrite Hp. simpl. rewrite !andb_false_r. reflexivity.
      - rewrite Hp. simpl. rewrite !andb_false_r. reflexivity.
      - rewrite (bool_decide_eq_false_2 _ Hp). rewrite !andb_false_r. reflexivity. }
    rewrite !Hc. reflexivity.
Qed.

(** X9: a call of [lv_draw_map] to [lv_blend_map] without mask array is
    made only when no other mask is active, there is no chroma key, no alpha
    byte and no recolouring, and the opacity is [LV_OPA_COVER] or above
    [LV_OPA_MAX]; it is then the only call, with the whole map area and the
    source bytes as colours. *)
Theorem bulk_copy_only_when opa calls c :
  lv_draw_map env map_area clip_area map_p chroma_key alpha_byte recolor recolor_opa opa
    = Some calls ->
  In c calls -> bc_mask c = None ->
  lv_draw_mask_get_cnt env = 0 /\ chroma_key = false /\ alpha_byte = false
  /\ recolor_opa = LV_OPA_TRANSP
  /\ (opa = LV_OPA_COVER \/ opa > LV_OPA_MAX env)
  /\ calls = [c]
  /\ bc_area c = map_area
  /\ bc_map c = as_color_array (LV_COLOR_DEPTH env) map_p.
Proof.
  unfold lv_draw_map. intros H Hin Hnone.
  case_bool_decide as Hmin; [injection H as <-; destruct Hin|].
  destruct (lv_area_intersect map_area clip_area) as [da|];
    [|injection H as <-; destruct Hin].
  destruct (_ && _) eqn:Hfast in H.
  - apply andb_prop in Hfast as [Hfast Hrec]. apply andb_prop in Hfast as [Hfast Hopa].
    apply andb_prop in Hfast as [Hfast Hal]. apply andb_prop in Hfast as [Hcnt Hck].
    apply bool_decide_eq_true_1 in Hrec, Hopa, Hcnt.
    apply negb_true_iff in Hal, Hck.
    injection H as <-. destruct Hin as [<-|[]].
    repeat split; try assumption; try reflexivity.
    case_bool_decide; [right; assumption|left; assumption].
  - exfalso. pose proof (draw_map_general_masks _ _ _ _ _ _ _ _ _ _ H) as Hm.
    rewrite Forall_forall in Hm. apply (Hm c); [|exact Hnone].
    apply list_elem_of_In. exact Hin.
Qed.

End MapCalls.

Lemma draw_map_opacity_not_applied_witness :
  Forall (opaque_call (area 0 0 7 9)) [indexed_call_ex]
  /\ (128 < LV_OPA_MIN (env_ex Depth16) -> [indexed_call_ex] = [])
  /\ (per_pixel_only (env_ex Depth16) true false 0 ->
      forall opa', LV_OPA_MIN (env_ex Depth16) <= 128 -> LV_OPA_MIN (env_ex Depth16) <= opa' ->
        lv_draw_map (env_ex Depth16) (area 0 0 1 1) (area 0 0 7 9) [1; 0; 2; 0; 3; 0; 4; 0]
          true false 0 0 opa' = Some [indexed_call_ex]).
Proof.
  apply (draw_map_opacity_not_applied (env_ex Depth16) (area 0 0 1 1) (area 0 0 7 9)
           [1; 0; 2; 0; 3; 0; 4; 0] true false 0 0 128 [indexed_call_ex]).
  vm_compute. reflexivity.
Defined.

Lemma bulk_copy_only_when_witness :
  lv_draw_mask_get_cnt (env_ex Depth16) = 0 /\ false = false /\ false = false
  /\ 0 = LV_OPA_TRANSP
  /\ (255 = LV_OPA_COVER \/ 255 > LV_OPA_MAX (env_ex Depth16))
  /\ draw_map_fast (env_ex Depth16) (area 0 0 1 1) (area 0 0 7 9) [1; 0; 2; 0; 3; 0; 4; 0]
     = [ {| bc_clip := area 0 0 7 9; bc_area := area 0 0 1 1;
            bc_map := [1; 2; 3; 4]; bc_mask := None;
            bc_mask_res := LV_MASK_RES_FULL_COVER; bc_opa := 255;
            bc_mode := LV_BLEND_MODE_NORMAL |} ]
  /\ area 0 0 1 1 = area 0 0 1 1
  /\ [1; 2; 3; 4] = as_color_array Depth16 [1; 0; 2; 0; 3; 0; 4; 0].
Proof.
  apply (bulk_copy_only_when (env_ex Depth16) (area 0 0 1 1) (area 0 0 7 9)
           [1; 0; 2; 0; 3; 0; 4; 0] false false 0 0 255
           (draw_map_fast (env_ex Depth16) (area 0 0 1 1) (area 0 0 7 9)
              [1; 0; 2; 0; 3; 0; 4; 0])
           {| bc_clip := area 0 0 7 9; bc_area := area 0 0 1 1;
              bc_map := [1; 2; 3; 4]; bc_mask := None;
              bc_mask_res := LV_MASK_RES_FULL_COVER; bc_opa := 255;
              bc_mode := LV_BLEND_MODE_NORMAL |}).
  - vm_compute. reflexivity.
  - left. vm_compute. reflexivity.
  - reflexivity.
Defined.

(** ** The inner loop *)

Lemma px_size_byte_bounds env alpha_byte :
  1 <= sizeof_lv_color_t (LV_COLOR_DEPTH env) <= px_size_byte env alpha_byte
  /\ px_size_byte env alpha_byte <= 4
  /\ (alpha_byte = true ->
      px_size_byte env alpha_byte = LV_IMG_PX_SIZE_ALPHA_BYTE (LV_COLOR_DEPTH env)).
Proof.
  unfold px_size_byte. destruct alpha_byte, (LV_COLOR_DEPTH env); simpl; lia.
Qed.

Lemma read_px_color_in_range env map_p map_px :
  0 <= map_px ->
  map_px + sizeof_lv_color_t (LV_COLOR_DEPTH env) <= Z.of_nat (length map_p) ->
  is_Some (read_px_color env map_p map_px).
Proof.
  intros H0 H1. unfold read_px_color.
  destruct (LV_COLOR_DEPTH env); simpl in H1.
  - apply buf_load_in_range. lia.
  - destruct (buf_load_in_range map_p map_px 0) as [b0 ->]; [lia|].
    destruct (buf_load_in_range map_p map_px 1) as [b1 ->]; [lia|]. simpl. eauto.
  - destruct (buf_load_in_range map_p map_px 0) as [b0 ->]; [lia|].
    destruct (buf_load_in_range map_p map_px 1) as [b1 ->]; [lia|].
    destruct (buf_load_in_range map_p map_px 2) as [b2 ->]; [lia|]. simpl. eauto.
Qed.

Section Row.
Variable env : draw_env.
Variable map_p : list Z.
Variables (chroma_key alpha_byte : bool) (recolor recolor_opa : Z).

Local Abbreviation psz := (px_size_byte env alpha_byte).
Local Abbreviation out := (px_out env map_p chroma_key alpha_byte recolor recolor_opa).
Local Abbreviation msk := (px_mask env map_p chroma_key alpha_byte).

(** One pass through the body of the inner loop. *)
Lemma draw_map_px_spec idx p m2 mb :
  0 <= idx -> (idx + 1) * psz <= Z.of_nat (length map_p) ->
  0 <= p < Z.of_nat (length m2) -> p < Z.of_nat (length mb) ->
  draw_map_px env map_p chroma_key alpha_byte recolor recolor_opa (idx * psz) p (m2, mb)
  = Some (match out idx with
          | Some c => <[Z.to_nat p := c]> m2
          | None => m2
          end,
          <[Z.to_nat p := msk idx]> mb).
Proof.
  intros Hidx Hsrc Hp Hpb.
  destruct (px_size_byte_bounds env alpha_byte) as (Hsz & Hp4 & Hal).
  assert (H0 : 0 <= idx * psz) by nia.
  destruct (read_px_color_in_range env map_p (idx * psz)) as [c Hc]; [lia|lia|].
  assert (Hst : forall (buf : list Z) v, p < Z.of_nat (length buf) ->
                  buf_store buf 0 p v = Some (<[Z.to_nat p := v]> buf)).
  { intros buf v Hb. unfold buf_store. rewrite bool_decide_eq_true_2 by lia. reflexivity. }
  unfold draw_map_px, px_out, px_mask, px_keyed, px_skipped, px_color, px_alpha.
  rewrite Hc. cbn [default from_option id].
  destruct alpha_byte eqn:Hab.
  - specialize (Hal eq_refl).
    destruct (buf_load_in_range map_p (idx * px_size_byte env true)
                (LV_IMG_PX_SIZE_ALPHA_BYTE (LV_COLOR_DEPTH env) - 1)) as [a Ha]; [lia|].
    rewrite Ha. cbn [mbind option_bind]. rewrite (Hst mb a) by lia.
    cbn [mbind option_bind].
    unfold buf_load in Ha. rewrite bool_decide_eq_true_2 in Ha by lia.
    rewrite (list_lookup_total_correct _ _ _ Ha).
    cbn [andb negb orb].
    destruct (bool_decide (a < LV_OPA_MIN env)); cbn [negb andb orb]; [reflexivity|].
    rewrite (Hst (<[Z.to_nat p := a]> mb)) by (rewrite length_insert; lia).
    rewrite (Hst m2) by lia. cbn [mbind option_bind].
    destruct (chroma_key && bool_decide (c = LV_COLOR_TRANSP env));
      [rewrite list_insert_insert_eq|]; reflexivity.
  - rewrite (Hst mb) by lia. cbn [mbind option_bind andb negb orb].
    rewrite (Hst (<[Z.to_nat p := LV_OPA_COVER]> mb)) by (rewrite length_insert; lia).
    rewrite (Hst m2) by lia. cbn [mbind option_bind].
    destruct (chroma_key && bool_decide (c = LV_COLOR_TRANSP env));
      [rewrite list_insert_insert_eq|]; reflexivity.
Qed.

(** The inner loop over [n] pixels starting at source pixel [idx], the
    cursor at [p]. *)
Lemma draw_map_row_spec (n : nat) :
  forall idx p m2 mb,
    0 <= idx -> (idx + Z.of_nat n) * psz <= Z.of_nat (length map_p) ->
    0 <= p -> p + Z.of_nat n <= Z.of_nat (length m2) ->
    p + Z.of_nat n <= Z.of_nat (length mb) -> p + Z.of_nat n < 2 ^ 32 ->
    exists m2' mb',
      draw_map_row env map_p chroma_key alpha_byte recolor recolor_opa n (idx * psz) p
        (m2, mb) = Some (p + Z.of_nat n, (m2', mb'))
      /\ length m2' = length m2 /\ length mb' = length mb
      /\ (forall k : nat,
            mb' !! k = if bool_decide (p <= Z.of_nat k < p + Z.of_nat n)
                       then Some (msk (idx + (Z.of_nat k - p)))
                       else mb !! k)
      /\ (forall k : nat,
            m2' !! k = if bool_decide (p <= Z.of_nat k < p + Z.of_nat n)
                       then match out (idx + (Z.of_nat k - p)) with
                            | Some c => Some c
                            | None => m2 !! k
                            end
                       else m2 !! k).
Proof.
  induction n as [|n IH]; intros idx p m2 mb Hidx Hsrc Hp Hl2 Hlb Hwrap.
  - exists m2, mb. cbn [draw_map_row]. rewrite Z.add_0_r.
    split; [reflexivity|]. split; [reflexivity|]. split; [reflexivity|].
    split; intros k; rewrite bool_decide_eq_false_2 by lia; reflexivity.
  - destruct (px_size_byte_bounds env alpha_byte) as (Hsz & Hp4 & _).
    cbn [draw_map_row].
    rewrite draw_map_px_spec by (try lia; nia).
    cbn [mbind option_bind].
    rewrite to_u32_id by lia.
    replace (idx * psz + psz) with ((idx + 1) * psz) by ring.
    set (m2a := match out idx with Some c => <[Z.to_nat p := c]> m2 | None => m2 end).
    set (mba := <[Z.to_nat p := msk idx]> mb).
    assert (Hla : length m2a = length m2)
      by (subst m2a; destruct (out idx); [apply length_insert|reflexivity]).
    assert (Hlba : length mba = length mb) by apply length_insert.
    destruct (IH (idx + 1) (p + 1) m2a mba) as (m2' & mb' & Hrow & Hl2' & Hlb' & Hmb & Hm2);
      try lia.
    exists m2', mb'. rewrite Hrow.
    split; [do 2 f_equal; lia|]. split; [lia|]. split; [lia|]. split.
    + intros k. rewrite Hmb.
      destruct (decide (Z.of_nat k = p)) as [Hk|Hk].
      * rewrite bool_decide_eq_false_2 by lia. rewrite bool_decide_eq_true_2 by lia.
        subst mba. replace (Z.to_nat p) with k by lia.
        rewrite list_lookup_insert_eq by lia. do 2 f_equal. lia.
      * subst mba. rewrite list_lookup_insert_ne by lia.
        repeat case_bool_decide; try lia; try reflexivity. do 2 f_equal. lia.
    + intros k. rewrite Hm2.
      destruct (decide (Z.of_nat k = p)) as [Hk|Hk].
      * rewrite bool_decide_eq_false_2 by lia. rewrite bool_decide_eq_true_2 by lia.
        replace (idx + (Z.of_nat k - p)) with idx by lia.
        subst m2a. destruct (out idx); [|reflexivity].
        replace (Z.to_nat p) with k by lia. apply list_lookup_insert_eq. lia.
      * assert (Hsame : m2a !! k = m2 !! k).
        { subst m2a. destruct (out idx); [|reflexivity].
          apply list_lookup_insert_ne. lia. }
        repeat case_bool_decide; try lia; rewrite ?Hsame; try reflexivity.
        replace (idx + 1 + (Z.of_nat k - (p + 1))) with (idx + (Z.of_nat k - p)) by lia.
        reflexivity.
Qed.

End Row.

(** ** The outer loop: blocks of rows *)

Lemma seqZ_snoc q : 0 <= q -> seqZ 0 (q + 1) = seqZ 0 q ++ [q].
Proof.
  intros Hq. rewrite seqZ_app by lia. reflexivity.
Qed.

Lemma block_rows_facts env W :
  0 < W ->
  1 <= block_rows env W
  /\ block_rows env W * W <= Z.max W (LV_HOR_RES_MAX env - 1)
  /\ (forall p, 0 <= p < block_rows env W ->
        ((p + 2) * W < LV_HOR_RES_MAX env -> p + 1 < block_rows env W)
        /\ (~ (p + 2) * W < LV_HOR_RES_MAX env -> p + 1 = block_rows env W)).
Proof.
  intros HW. unfold block_rows.
  set (m := (LV_HOR_RES_MAX env - 1) `div` W).
  assert (Hm1 : m * W <= LV_HOR_RES_MAX env - 1).
  { subst m. rewrite Z.mul_comm. apply Z.mul_div_le. lia. }
  assert (Hm2 : LV_HOR_RES_MAX env - 1 < (m + 1) * W).
  { subst m. pose proof (Z.mul_succ_div_gt (LV_HOR_RES_MAX env - 1) W HW). lia. }
  split; [lia|]. split.
  - destruct (Z.max_spec 1 m) as [[? ->]|[? ->]]; nia.
  - intros p Hp. destruct (Z.max_spec 1 m) as [[? E]|[? E]]; rewrite E in Hp |- *.
    + split; intros Ht; nia.
    + split; intros Ht; nia.
Qed.

Section PerPixel.
Variable env : draw_env.
Variables (map_area clip_area draw : lv_area_t) (map_p : list Z).
Variables (chroma_key alpha_byte : bool) (recolor recolor_opa : Z).

Hypothesis HM : area_small map_area.
Hypothesis HC : area_small clip_area.
Hypothesis HV : area_small (vdb_area env).
Hypothesis Hint : lv_area_intersect map_area clip_area = Some draw.
Hypothesis Hres : x2 draw - x1 draw + 1 <= LV_HOR_RES_MAX env <= 32767.
Hypothesis Hm2 : Z.of_nat (length (map2_init env)) = LV_HOR_RES_MAX env.
Hypothesis Hmb : Z.of_nat (length (mask_buf_init env)) = LV_HOR_RES_MAX env.
Hypothesis Hsrc :
  (x2 map_area - x1 map_area + 1) * (y2 map_area - y1 map_area + 1)
  * px_size_byte env alpha_byte <= Z.of_nat (length map_p).

Local Abbreviation psz := (px_size_byte env alpha_byte).
Local Abbreviation W := (x2 draw - x1 draw + 1).
Local Abbreviation H := (y2 draw - y1 draw + 1).
Local Abbreviation mw := (x2 map_area - x1 map_area + 1).
Local Abbreviation rel := (rel_area (vdb_area env) draw).
Local Abbreviation n := (block_rows env W).
Local Abbreviation Inv :=
  (block_inv env map_area clip_area draw map_p chroma_key alpha_byte recolor recolor_opa).
Local Abbreviation msk := (px_mask env map_p chroma_key alpha_byte).
Local Abbreviation out := (px_out env map_p chroma_key alpha_byte recolor recolor_opa).

Lemma row_in_source r :
  0 <= r < H ->
  0 <= src_index map_area (x1 draw) (y1 draw + r)
  /\ (src_index map_area (x1 draw) (y1 draw + r) + W) * psz <= Z.of_nat (length map_p).
Proof.
  intros Hr.
  destruct (draw_facts env map_area clip_area draw map_p HM HC Hint)
    as (Hs & Hx & Hy & Hx1 & Hx2 & Hy1 & Hy2 & _).
  destruct (px_size_byte_bounds env alpha_byte) as (Hsz & Hp4 & _).
  unfold src_index.
  assert (0 <= y1 draw + r - y1 map_area <= y2 map_area - y1 map_area) by lia.
  assert (0 <= x1 draw - x1 map_area) by lia.
  assert (x1 draw - x1 map_area + W <= mw) by lia.
  split; [nia|].
  assert ((y1 draw + r - y1 map_area) * mw + (x1 draw - x1 map_area) + W
          <= mw * (y2 map_area - y1 map_area + 1)) by nia.
  nia.
Qed.

Lemma block_step r q p st y :
  Inv r q p st -> 0 <= r < H ->
  exists st' q' p',
    draw_map_line env clip_area map_p chroma_key alpha_byte recolor recolor_opa rel mw y st
    = Some st'
    /\ Inv (r + 1) q' p' st'.
Proof.
  intros [Hsplit Htmp Hpx Hl2 Hlb Harea Hmres Hpend Hareas Hcalls] Hr.
  destruct Hsplit as (Hrq & Hq & Hp).
  destruct (draw_facts env map_area clip_area draw map_p HM HC Hint)
    as (Hs & Hx & Hy & Hx1 & Hx2 & Hy1 & Hy2 & Hc1 & Hc2 & Hc3 & Hc4).
  assert (HW0 : 0 < W) by lia.
  destruct (block_rows_facts env W HW0) as (Hn1 & HnW & Htest).
  destruct (Htest p Hp) as [Hfit Hfull].
  destruct (row_in_source r Hr) as [Hidx0 Hidx1].
  assert (HW : Z.of_nat (Z.to_nat W) = W) by lia.
  assert (HpW : 0 <= p * W /\ p * W + W <= LV_HOR_RES_MAX env).
  { split; [nia|]. destruct (Z.max_spec W (LV_HOR_RES_MAX env - 1)) as [[? E]|[? E]];
      rewrite E in HnW; nia. }
  destruct (draw_map_row_spec env map_p chroma_key alpha_byte recolor recolor_opa
              (Z.to_nat W) (src_index map_area (x1 draw) (y1 draw + r)) (p * W)
              (st_map2 st) (st_mask_buf st))
    as (m2' & mb' & Hrow & Hl2' & Hlb' & Hmk & Hcol); rewrite ?HW; try lia.
  rewrite HW in Hrow, Hmk, Hcol.
  assert (Hpend' : lv_draw_mask_get_cnt env = 0 ->
            forall j i, 0 <= j < p + 1 -> 0 <= i < W ->
            mb' !! Z.to_nat (j * W + i)
            = Some (msk (src_index map_area (x1 draw + i) (y1 draw + q * n + j)))
            /\ forall col,
                 out (src_index map_area (x1 draw + i) (y1 draw + q * n + j)) = Some col ->
                 m2' !! Z.to_nat (j * W + i) = Some col).
  { intros Hcnt j i Hj Hi. rewrite Hmk, Hcol.
    assert (0 <= j * W) by nia.
    rewrite Z2Nat.id by lia.
    destruct (decide (j < p)) as [Hlt|Hge].
    - rewrite bool_decide_eq_false_2 by nia. apply Hpend; [assumption|lia|lia].
    - assert (j = p) as -> by lia.
      rewrite bool_decide_eq_true_2 by lia.
      replace (src_index map_area (x1 draw) (y1 draw + r) + (p * W + i - p * W))
        with (src_index map_area (x1 draw + i) (y1 draw + q * n + p))
        by (unfold src_index; rewrite Hrq; ring).
      split; [reflexivity|]. intros col Hc. rewrite Hc. reflexivity. }
  unfold draw_map_line.
  rewrite (rel_width env map_area clip_area draw map_p HM HC HV Hint), Htmp, Hpx, Hrow.
  cbn [mbind option_bind].
  fold (flag_mask_res chroma_key alpha_byte).
  unfold area_small in Hs.
  match goal with
  | |- context [if bool_decide (lv_draw_mask_get_cnt env <> 0) then ?a else (?m, ?b)] =>
      set (masked := if bool_decide (lv_draw_mask_get_cnt env <> 0) then a else (m, b))
  end.
  assert (Hmasked : exists mres mbuf,
            masked = (mres, mbuf)
            /\ length mbuf = length mb'
            /\ (lv_draw_mask_get_cnt env = 0 ->
                mres = flag_mask_res chroma_key alpha_byte /\ mbuf = mb')).
  { subst masked. case_bool_decide as Hcnt.
    - destruct (lv_draw_mask_apply env _ _ _ _) as [sub line].
      destruct sub; eexists _, _; (split; [reflexivity|]);
        rewrite ?length_inserts; (split; [reflexivity|]); intros Hc; contradiction.
    - eexists _, _. split; [reflexivity|]. split; [reflexivity|]. intros _. split; reflexivity. }
  clearbody masked.
  destruct Hmasked as (mres & mbuf & -> & Hlm & Hnomask).
  cbv beta iota zeta. rewrite Harea. cbn [x1 x2 y1 y2].
  rewrite to_u32_id by (change (2 ^ 32) with 4294967296; lia).
  rewrite !to_coord_id by lia.
  replace (src_index map_area (x1 draw) (y1 draw + r) * psz + mw * psz)
    with (src_index map_area (x1 draw) (y1 draw + (r + 1)) * psz)
    by (unfold src_index; ring).
  replace (p * W + W + W) with ((p + 2) * W) by ring.
  assert (Hmemset : Z.of_nat (length (memset_mask_buf env)) = LV_HOR_RES_MAX env).
  { unfold memset_mask_buf. rewrite length_replicate. lia. }
  case_bool_decide as Hroom.
  - eexists _, q, (p + 1). split; [reflexivity|].
    specialize (Hfit Hroom).
    constructor; cbn [map_buf_tmp st_px_i st_map2 st_mask_buf blend_area st_mask_res st_calls];
      try lia; try reflexivity; try assumption; try (f_equal; lia).
    + intros Hcnt _. apply Hnomask. exact Hcnt.
    + intros Hcnt j i Hj Hi. destruct (Hnomask Hcnt) as [_ ->]. apply Hpend'; assumption.
  - eexists _, (q + 1), 0. split; [reflexivity|].
    specialize (Hfull Hroom).
    constructor; cbn [map_buf_tmp st_px_i st_map2 st_mask_buf blend_area st_mask_res st_calls];
      try lia; try reflexivity; try (f_equal; lia).
    + case_bool_decide; lia.
    + intros Hcnt _. apply Hnomask. exact Hcnt.
    + rewrite fmap_app, Hareas, seqZ_snoc, fmap_app by lia. f_equal.
      cbn [fmap list_fmap bc_area blend_general]. unfold full_block. do 2 f_equal. lia.
    + apply Forall_app. split; [assumption|]. apply Forall_singleton.
      split; [reflexivity|]. intros Hcnt. destruct (Hnomask Hcnt) as [-> ->].
      split; [reflexivity|].
      unfold call_offset. cbn [bc_area bc_mask bc_map blend_general st_map2 st_mask_buf
                                x1 x2 y1 y2].
      intros X Y HX HY.
      destruct (Hpend' Hcnt (Y - (y1 draw + q * n)) (X - x1 draw)) as [Hm Hc]; [lia|lia|].
      replace (x1 draw + (X - x1 draw)) with X in Hm, Hc by lia.
      replace (y1 draw + q * n + (Y - (y1 draw + q * n))) with Y in Hm, Hc by lia.
      split; [exists mb'; split; [reflexivity|exact Hm]|exact Hc].
Qed.

Lemma block_loop (k : nat) :
  forall r q p st y,
    Inv r q p st -> 0 <= r -> r + Z.of_nat k = H ->
    exists st' q' p',
      draw_map_lines env clip_area map_p chroma_key alpha_byte recolor recolor_opa rel mw
        k y st = Some st'
      /\ Inv H q' p' st'.
Proof.
  induction k as [|k IH]; intros r q p st y Hinv Hr Hk.
  - exists st, q, p. split; [reflexivity|]. replace H with r by lia. assumption.
  - destruct (block_step r q p st y Hinv) as (st1 & q1 & p1 & Hline & Hinv1); [lia|].
    cbn [draw_map_lines]. rewrite Hline. cbn [mbind option_bind].
    apply (IH (r + 1) q1 p1); [assumption|lia|lia].
Qed.

(** The per-pixel path run on the draw area: it returns, its calls cover the
    draw area block by block, and without other masks each call holds the
    decoded pixels. *)
Lemma draw_map_general_blocks :
  exists calls,
    draw_map_general env map_area clip_area map_p chroma_key alpha_byte recolor recolor_opa
      rel = Some calls
    /\ bc_area <$> calls = row_blocks draw n
    /\ Forall (fun c => bc_clip c = clip_area
                        /\ (lv_draw_mask_get_cnt env = 0 ->
                            call_decodes env map_area map_p chroma_key alpha_byte
                              recolor recolor_opa c)) calls.
Proof.
  destruct (draw_facts env map_area clip_area draw map_p HM HC Hint)
    as (Hs & Hx & Hy & Hx1 & Hx2 & Hy1 & Hy2 & Hc1 & Hc2 & Hc3 & Hc4).
  pose proof HM as HM'. pose proof HV as HV'. unfold area_small in Hs, HM', HV'.
  destruct (rel_origin env map_area clip_area draw map_p HM HC HV Hint) as [Hrx Hry].
  assert (HW0 : 0 < W) by lia.
  destruct (block_rows_facts env W HW0) as (Hn1 & HnW & Htest).
  assert (Hmemset : Z.of_nat (length (memset_mask_buf env)) = LV_HOR_RES_MAX env).
  { unfold memset_mask_buf. rewrite length_replicate. lia. }
  unfold draw_map_general.
  rewrite (rel_height env map_area clip_area draw map_p HM HC HV Hint),
    (rel_width env map_area clip_area draw map_p HM HC HV Hint),
    (map_width env map_area clip_area draw map_p HM HC Hint), Hrx, Hry.
  coord_norm.
  match goal with
  | |- context [draw_map_lines _ _ _ _ _ _ _ _ _ _ _ ?st0] =>
      destruct (block_loop (Z.to_nat H) 0 0 0 st0 0) as (st' & q & p & Hloop & Hinv)
  end.
  { constructor; cbn [map_buf_tmp st_px_i st_map2 st_mask_buf blend_area st_mask_res st_calls];
      try lia; try reflexivity; try assumption; try (unfold src_index; ring);
      try (f_equal; lia); try (intros Hcnt j i Hj; lia); try apply Forall_nil_2.
    case_bool_decide; lia. }
  { lia. }
  { lia. }
  rewrite Hloop. cbn [mbind option_bind].
  destruct Hinv as [Hsplit Htmp Hpx Hl2 Hlb Harea Hmres Hpend Hareas Hcalls].
  destruct Hsplit as (Hrq & Hq & Hp).
  assert (Hdiv : H `div` n = q).
  { symmetry. apply (Z.div_unique H n q p); [lia|]. rewrite Hrq. ring. }
  assert (Hmod : H `mod` n = p).
  { symmetry. apply (Z.mod_unique H n q p); [lia|]. rewrite Hrq. ring. }
  rewrite Harea. cbn [x1 x2 y1 y2].
  unfold row_blocks. rewrite Hdiv, Hmod.
  destruct (decide (p = 0)) as [Hp0|Hp0].
  2:{ rewrite (bool_decide_eq_false_2 (p = 0)) by assumption.
    rewrite (bool_decide_eq_true_2 (y1 draw + q * n <> y1 draw + H)) by lia.
    eexists. split; [reflexivity|].
    rewrite to_coord_id by lia. split.
    + rewrite fmap_app, Hareas. f_equal.
      cbn [fmap list_fmap bc_area blend_general]. do 2 f_equal. lia.
    + apply Forall_app. split; [assumption|]. apply Forall_singleton.
      split; [reflexivity|]. intros Hcnt. split; [apply Hmres; [assumption|lia]|].
      unfold call_offset. cbn [bc_area bc_mask bc_map blend_general x1 x2 y1 y2].
      intros X Y HX HY.
      destruct (Hpend Hcnt (Y - (y1 draw + q * n)) (X - x1 draw)) as [Hm Hc]; [lia|lia|].
      replace (x1 draw + (X - x1 draw)) with X in Hm, Hc by lia.
      replace (y1 draw + q * n + (Y - (y1 draw + q * n))) with Y in Hm, Hc by lia.
      split; [eexists; split; [reflexivity|exact Hm]|exact Hc]. }
  rewrite (bool_decide_eq_true_2 (p = 0)) by assumption.
  rewrite (bool_decide_eq_false_2 (y1 draw + q * n <> y1 draw + H)) by lia.
  eexists. split; [reflexivity|]. rewrite app_nil_r. split; assumption.
Qed.

End PerPixel.

Lemma lv_draw_map_per_pixel env map_area clip_area draw map_p chroma_key alpha_byte
    recolor recolor_opa opa :
  LV_OPA_MIN env <= opa ->
  per_pixel_path env chroma_key alpha_byte recolor_opa opa ->
  lv_area_intersect map_area clip_area = Some draw ->
  lv_draw_map env map_area clip_area map_p chroma_key alpha_byte recolor recolor_opa opa
  = draw_map_general env map_area clip_area map_p chroma_key alpha_byte recolor recolor_opa
      (rel_area (vdb_area env) draw).
Proof.
  intros Hopa Hpp Hint. unfold lv_draw_map.
  rewrite bool_decide_eq_false_2 by lia. rewrite Hint.
  destruct Hpp as [Hpp|[Hmax Hcov]].
  - assert (Hc : forall b : bool,
               bool_decide (lv_draw_mask_get_cnt env = 0) && negb chroma_key
               && negb alpha_byte && b && bool_decide (recolor_opa = LV_OPA_TRANSP) = false).
    { intros b. destruct Hpp as [Hp|[Hp|[Hp|Hp]]].
      - rewrite (bool_decide_eq_false_2 _ Hp). reflexivity.
      - rewrite Hp. simpl. rewrite !andb_false_r. reflexivity.
      - rewrite Hp. simpl. rewrite !andb_false_r. reflexivity.
      - rewrite (bool_decide_eq_false_2 _ Hp). rewrite !andb_false_r. reflexivity. }
    rewrite Hc. reflexivity.
  - rewrite (bool_decide_eq_false_2 (opa > LV_OPA_MAX env)) by lia.
    rewrite (bool_decide_eq_false_2 (opa = LV_OPA_COVER)) by assumption.
    rewrite !andb_false_r. reflexivity.
Qed.

Section PerPixelMap.
Variable env : draw_env.
Variables (map_area clip_area draw : lv_area_t) (map_p : list Z).
Variables (chroma_key alpha_byte : bool) (recolor recolor_opa opa : Z).

Hypothesis HM : area_small map_area.
Hypothesis HC : area_small clip_area.
Hypothesis HV : area_small (vdb_area env).
Hypothesis Hint : lv_area_intersect map_area clip_area = Some draw.
Hypothesis Hres : x2 draw - x1 draw + 1 <= LV_HOR_RES_MAX env <= 32767.
Hypothesis Hm2 : Z.of_nat (length (map2_init env)) = LV_HOR_RES_MAX env.
Hypothesis Hmb : Z.of_nat (length (mask_buf_init env)) = LV_HOR_RES_MAX env.
Hypothesis Hsrc :
  (x2 map_area - x1 map_area + 1) * (y2 map_area - y1 map_area + 1)
  * px_size_byte env alpha_byte <= Z.of_nat (length map_p).
Hypothesis Hopa : LV_OPA_MIN env <= opa.
Hypothesis Hpp : per_pixel_path env chroma_key alpha_byte recolor_opa opa.

(** X10: when [lv_draw_map] checks every pixel (opacity from [LV_OPA_MIN]
    on; a mask, the chroma key, an alpha byte, recolouring or an opacity
    that is not full), with the source holding the map area and the draw
    area no wider than [LV_HOR_RES_MAX], it returns, whatever the other
    masks do, and its calls cover the draw area from the top in blocks of
    [max 1 ((LV_HOR_RES_MAX - 1) / width)] full rows, the last block holding
    the rows left; every block fits the line arrays. *)
Theorem per_pixel_path_blocks :
  exists calls,
    lv_draw_map env map_area clip_area map_p chroma_key alpha_byte recolor recolor_opa opa
    = Some calls
    /\ bc_area <$> calls = row_blocks draw (block_rows env (x2 draw - x1 draw + 1))
    /\ Forall (fun a => x1 a = x1 draw /\ x2 a = x2 draw
                        /\ y1 draw <= y1 a <= y2 a /\ y2 a <= y2 draw
                        /\ (y2 a - y1 a + 1) * (x2 draw - x1 draw + 1)
                           <= LV_HOR_RES_MAX env)
              (bc_area <$> calls).
Proof.
  destruct (draw_map_general_blocks env map_area clip_area draw map_p chroma_key alpha_byte
              recolor recolor_opa HM HC HV Hint Hres Hm2 Hmb Hsrc)
    as (calls & Hg & Hareas & _).
  exists calls. rewrite (lv_draw_map_per_pixel _ _ _ draw) by assumption.
  split; [exact Hg|]. split; [exact Hareas|]. rewrite Hareas.
  destruct (draw_facts env map_area clip_area draw map_p HM HC Hint) as (_ & Hxx & Hy & _).
  assert (HW0 : 0 < x2 draw - x1 draw + 1) by lia.
  destruct (block_rows_facts env _ HW0) as (Hn1 & HnW & _).
  set (n := block_rows env (x2 draw - x1 draw + 1)) in *.
  set (W := x2 draw - x1 draw + 1) in *.
  set (H := y2 draw - y1 draw + 1).
  assert (HnM : n * W <= LV_HOR_RES_MAX env) by lia.
  assert (Hdm : H = n * (H `div` n) + H `mod` n) by (apply Z.div_mod; lia).
  assert (Hm : 0 <= H `mod` n < n) by (apply Z.mod_pos_bound; lia).
  assert (Hd : 0 <= H `div` n) by (apply Z.div_pos; lia).
  unfold row_blocks. fold H. apply Forall_app. split.
  - apply Forall_fmap. apply Forall_seqZ. intros k Hk. cbn [full_block x1 x2 y1 y2 compose].
    unfold full_block. cbn [x1 x2 y1 y2].
    assert (k * n + n <= H `div` n * n) by nia.
    repeat split; try lia.
  - case_bool_decide as Hz; [apply Forall_nil_2|]. apply Forall_singleton.
    cbn [x1 x2 y1 y2].
    assert (0 <= H `div` n * n) by nia.
    repeat split; try lia. subst H. nia.
Qed.

(** X11: under the same conditions and with no other mask active, every
    call of the per-pixel path holds, for each position of its area, the
    mask and the colour the pixel rules give for the source pixel shown
    there: mask 0 for the chroma key, the alpha byte for a format with
    alpha, [LV_OPA_COVER] otherwise; the decoded (and recoloured) colour
    unless the pixel is keyed or its alpha is below [LV_OPA_MIN]. *)
Theorem per_pixel_path_decodes :
  lv_draw_mask_get_cnt env = 0 ->
  exists calls,
    lv_draw_map env map_area clip_area map_p chroma_key alpha_byte recolor recolor_opa opa
    = Some calls
    /\ Forall (call_decodes env map_area map_p chroma_key alpha_byte recolor recolor_opa)
              calls.
Proof.
  intros Hcnt.
  destruct (draw_map_general_blocks env map_area clip_area draw map_p chroma_key alpha_byte
              recolor recolor_opa HM HC HV Hint Hres Hm2 Hmb Hsrc)
    as (calls & Hg & _ & Hdec).
  exists calls. rewrite (lv_draw_map_per_pixel _ _ _ draw) by assumption.
  split; [exact Hg|]. eapply Forall_impl; [exact Hdec|]. intros c [_ Hc]. exact (Hc Hcnt).
Qed.

End PerPixelMap.

Lemma per_pixel_path_blocks_witness :
  exists calls,
    lv_draw_map (env_ex Depth16) (area 0 0 2 4) (area 0 0 7 9) keyed_map_ex
      true false 0 0 255 = Some calls
    /\ bc_area <$> calls = [area 0 0 2 1; area 0 2 2 3; area 0 4 2 4]
    /\ Forall (fun a => x1 a = 0 /\ x2 a = 2 /\ 0 <= y1 a <= y2 a /\ y2 a <= 4
                        /\ (y2 a - y1 a + 1) * (2 - 0 + 1) <= 8)
              (bc_area <$> calls).
Proof.
  apply (per_pixel_path_blocks (env_ex Depth16) (area 0 0 2 4) (area 0 0 7 9) (area 0 0 2 4)
           keyed_map_ex true false 0 0 255).
  - unfold area_small; simpl; lia.
  - unfold area_small; simpl; lia.
  - unfold area_small; simpl; lia.
  - reflexivity.
  - simpl; lia.
  - reflexivity.
  - reflexivity.
  - vm_compute. congruence.
  - simpl; lia.
  - left. right. left. reflexivity.
Defined.

Lemma per_pixel_path_decodes_witness :
  exists calls,
    lv_draw_map (env_ex Depth16) (area 0 0 2 4) (area 0 0 7 9) keyed_map_ex
      true false 0 0 255 = Some calls
    /\ Forall (call_decodes (env_ex Depth16) (area 0 0 2 4) keyed_map_ex true false 0 0)
              calls.
Proof.
  apply (per_pixel_path_decodes (env_ex Depth16) (area 0 0 2 4) (area 0 0 7 9) (area 0 0 2 4)
           keyed_map_ex true false 0 0 255).
  - unfold area_small; simpl; lia.
  - unfold area_small; simpl; lia.
  - unfold area_small; simpl; lia.
  - reflexivity.
  - simpl; lia.
  - reflexivity.
  - reflexivity.
  - vm_compute. congruence.
  - simpl; lia.
  - left. right. left. reflexivity.
  - reflexivity.
Defined.

(** ** [lv_img_draw_core] and [lv_draw_img] as a whole *)

Section LinesComplete.
Variable env : draw_env.
Variables (mask : lv_area_t) (style : lv_style_t).
Variables (cdsc : lv_img_cache_entry_t) (opa : Z) (chroma_keyed alpha_byte : bool).
Variables (width x : Z).

Lemma draw_core_lines_complete rows :
  forall (line : lv_area_t) (y : Z),
    -32768 <= y -> y + Z.of_nat (length rows) <= 32767 ->
    -32768 <= y1 line -> y1 line + Z.of_nat (length rows) <= 32767 ->
    -32768 <= y2 line -> y2 line + Z.of_nat (length rows) <= 32767 ->
    (forall (j : nat) calls, rows !! j = Some calls ->
       exists buf,
         read_line (dec_dsc cdsc) x (y + Z.of_nat j) width = Some buf
         /\ lv_draw_map env (shift_line line (Z.of_nat j)) mask buf chroma_keyed alpha_byte
              (image_color style) (image_intense style) opa = Some calls) ->
    draw_core_lines env mask style cdsc opa chroma_keyed alpha_byte width x (length rows)
      line y
    = Some (LV_RES_OK, rows_trace x y width rows).
Proof.
  induction rows as [|calls rows IH]; intros line y Hy1 Hy2 Hl1 Hl2 Hl3 Hl4 Hrows.
  - reflexivity.
  - destruct (Hrows 0%nat calls eq_refl) as (buf & Hread & Hmap).
    simpl in Hread. rewrite Z.add_0_r in Hread. rewrite shift_line_0 in Hmap.
    cbn [length draw_core_lines]. rewrite Hread, Hmap. cbn [mbind option_bind].
    cbn [length] in Hy2, Hl2, Hl4.
    rewrite !to_coord_id by lia.
    change {| x1 := x1 line; y1 := y1 line + 1; x2 := x2 line; y2 := y2 line + 1 |}
      with (shift_line line 1).
    rewrite (IH (shift_line line 1) (y + 1)); try (simpl; lia).
    + cbn [mbind option_bind]. rewrite rows_trace_cons. reflexivity.
    + intros j c Hj. destruct (Hrows (S j) c Hj) as (buf' & Hr' & Hm').
      exists buf'. split.
      * rewrite <- Hr'. f_equal. lia.
      * rewrite <- Hm'. f_equal. unfold shift_line. simpl. f_equal; lia.
Qed.

Lemma draw_core_lines_kinds (n : nat) :
  forall (line : lv_area_t) (y : Z) res tr,
    draw_core_lines env mask style cdsc opa chroma_keyed alpha_byte width x n line y
    = Some (res, tr) ->
    forall e, In e tr ->
      (exists a b l ok, e = EvReadLine a b l ok) \/ (exists c, e = EvBlend c)
      \/ e = EvDecoderClose.
Proof.
  induction n as [|n IH]; intros line y res tr H e He; simpl in H.
  - injection H as <- <-. destruct He.
  - destruct (read_line (dec_dsc cdsc) x y width) as [buf|].
    + destruct (lv_draw_map _ _ _ _ _ _ _ _ _) as [calls|] eqn:Ec; [|discriminate].
      cbn [mbind option_bind] in H.
      destruct (draw_core_lines _ _ _ _ _ _ _ _ _ _ _ _) as [[res' tr']|] eqn:El;
        [|discriminate].
      cbn [mbind option_bind] in H. injection H as <- <-.
      destruct He as [<-|He]; [left; eauto|].
      apply in_app_iff in He. destruct He as [He|He].
      * apply in_blend_events in He. destruct He as (c & -> & _). right. left. eauto.
      * eapply IH; eassumption.
    + injection H as <- <-. destruct He as [<-|[<-|[]]]; [left; eauto|right; right; reflexivity].
Qed.

End LinesComplete.

Section DrawImg.
Variable env : draw_env.
Variable lv_img_cache_open : list Z -> lv_style_t -> option lv_img_cache_entry_t.
Variables (coords mask : lv_area_t) (style : lv_style_t).

(** X12: in the line-by-line branch, when every visible row can be read
    and drawn, [lv_img_draw_core] returns [LV_RES_OK] after reading the rows
    once each, top to bottom, each followed by its blend calls; the decoder
    is not closed and [lv_draw_img] adds nothing. *)
Theorem streaming_draw_complete src opa_scale cdsc mask_com (rows : list (list blend_call)) :
  let dec := dec_dsc cdsc in
  let cf := header_cf (dec_header dec) in
  let opa := if bool_decide (opa_scale = LV_OPA_COVER) then image_opa style
             else to_u8 (Z.shiftr (to_u16 (to_u16 (image_opa style) * opa_scale)) 8) in
  let x := x1 mask_com - x1 coords in
  let y := y1 mask_com - y1 coords in
  let width := x2 mask_com - x1 mask_com + 1 in
  let line := {| x1 := x1 mask_com; y1 := y1 mask_com;
                 x2 := x2 mask_com; y2 := y1 mask_com |} in
  area_small coords -> area_small mask ->
  lv_area_intersect mask coords = Some mask_com ->
  lv_img_cache_open src style = Some cdsc ->
  error_msg dec = None -> img_data dec = None ->
  Z.of_nat (length rows) = y2 mask_com - y1 mask_com + 1 ->
  (forall (j : nat) calls, rows !! j = Some calls ->
     exists buf,
       read_line dec x (y + Z.of_nat j) width = Some buf
       /\ lv_draw_map env (shift_line line (Z.of_nat j)) mask buf
            (lv_img_color_format_is_chroma_keyed cf) (lv_img_color_format_has_alpha cf)
            (image_color style) (image_intense style) opa = Some calls) ->
  lv_img_draw_core env lv_img_cache_open coords mask style src opa_scale
  = Some (LV_RES_OK, EvCacheOpen true :: rows_trace x y width rows)
  /\ lv_draw_img env lv_img_cache_open coords mask style (Some src) opa_scale
     = Some (EvCacheOpen true :: rows_trace x y width rows).
Proof.
  intros dec cf opa x y width line Hc Hm Hint Hopen Herr Hdata Hlen Hrows.
  destruct (intersect_small _ _ _ Hm Hc Hint) as (Hs & Hx & Hy & _).
  assert (Hcore : lv_img_draw_core env lv_img_cache_open coords mask style src opa_scale
                  = Some (LV_RES_OK, EvCacheOpen true :: rows_trace x y width rows)).
  { unfold lv_img_draw_core. rewrite Hint, Hopen.
    fold dec. rewrite Herr, Hdata. fold cf. fold opa.
    unfold lv_area_get_width, lv_area_set_height.
    unfold area_small in *.
    rewrite !to_coord_id by lia.
    replace (y1 mask_com + 1 - 1) with (y1 mask_com) by lia.
    fold x y width line.
    replace (Z.to_nat (y2 mask_com - y1 mask_com + 1)) with (length rows) by lia.
    rewrite (draw_core_lines_complete env mask style cdsc opa
               (lv_img_color_format_is_chroma_keyed cf) (lv_img_color_format_has_alpha cf)
               width x rows); try (subst y line; simpl; lia); try assumption.
    reflexivity. }
  split; [exact Hcore|].
  unfold lv_draw_img. rewrite Hcore. reflexivity.
Qed.

(** X13: [lv_draw_img] draws the "No data" placeholder exactly when the
    source is [NULL], the cache cannot open it, or a line cannot be read
    (the decoder's own error text being another one). *)
Theorem no_data_placeholder_iff src opa_scale tr :
  lv_draw_img env lv_img_cache_open coords mask style src opa_scale = Some tr ->
  (forall s cdsc, src = Some s -> lv_img_cache_open s style = Some cdsc ->
                  error_msg (dec_dsc cdsc) <> Some no_data) ->
  (In (EvDrawLabel coords mask no_data) tr
   <-> src = None \/ In (EvCacheOpen false) tr \/ read_failed tr).
Proof.
  unfold lv_draw_img. intros H Hmsg.
  destruct src as [s|]; [|injection H as <-; simpl; tauto].
  specialize (Hmsg s).
  destruct (lv_img_draw_core _ _ _ _ _ _ _) as [[res tr0]|] eqn:Ecore; [|discriminate].
  cbn [mbind option_bind] in H.
  assert (Hcases : (res = LV_RES_INV <-> In (EvCacheOpen false) tr0 \/ read_failed tr0)
                   /\ ~ In (EvDrawLabel coords mask no_data) tr0).
  { unfold lv_img_draw_core in Ecore.
    destruct (lv_area_intersect mask coords) as [mask_com|].
    2:{ injection Ecore as <- <-. split; [|intros []].
        split; [discriminate|]. intros [[]|(a & b & l & [])]. }
    destruct (lv_img_cache_open s style) as [cdsc|].
    2:{ injection Ecore as <- <-. split.
        - split; [intros _; left; left; reflexivity|reflexivity].
        - intros [Hd|[]]. discriminate. }
    specialize (Hmsg cdsc eq_refl eq_refl).
    destruct (error_msg (dec_dsc cdsc)) as [msg|].
    { injection Ecore as <- <-. split.
      - split; [discriminate|].
        intros [[Hd|[Hd|[Hd|[]]]]|(a & b & l & [Hd|[Hd|[Hd|[]]]])]; discriminate.
      - intros [Hd|[Hd|[Hd|[]]]]; try discriminate.
        injection Hd as ->. apply Hmsg. reflexivity. }
    destruct (img_data (dec_dsc cdsc)) as [map_p|].
    { destruct (lv_draw_map _ _ _ _ _ _ _ _ _) as [calls|]; [|discriminate].
      cbn [mbind option_bind] in Ecore. injection Ecore as <- <-. split.
      - split; [discriminate|].
        intros [[Hd|Hd]|(a & b & l & [Hd|Hd])]; try discriminate;
          apply in_blend_events in Hd; destruct Hd as (c & Hd & _); discriminate.
      - intros [Hd|Hd]; [discriminate|].
        apply in_blend_events in Hd. destruct Hd as (c & Hd & _). discriminate. }
    destruct (draw_core_lines _ _ _ _ _ _ _ _ _ _ _ _) as [[res' tr']|] eqn:El;
      [|discriminate].
    cbn [mbind option_bind] in Ecore. injection Ecore as <- <-.
    pose proof (draw_core_lines_failed _ _ _ _ _ _ _ _ _ _ _ _ _ _ El) as Hfail.
    pose proof (draw_core_lines_kinds _ _ _ _ _ _ _ _ _ _ _ _ _ _ El) as Hkinds.
    split.
    - rewrite <- Hfail. unfold read_failed. split.
      + intros (a & b & l & Hd). right. exists a, b, l. right. exact Hd.
      + intros [[Hd|Hd]|(a & b & l & [Hd|Hd])]; try discriminate; [|eauto].
        destruct (Hkinds _ Hd) as [(? & ? & ? & ? & E)|[(? & E)|E]]; discriminate.
    - intros [Hd|Hd]; [discriminate|].
      destruct (Hkinds _ Hd) as [(? & ? & ? & ? & E)|[(? & E)|E]]; discriminate. }
  destruct Hcases as [Hinv Hnolabel].
  case_bool_decide as Hres; injection H as <-.
  - split.
    + intros _. right. apply Hinv in Hres. destruct Hres as [Hd|(a & b & l & Hd)].
      * left. apply in_app_iff. tauto.
      * right. exists a, b, l. apply in_app_iff. tauto.
    + intros _. apply in_app_iff. right. right. left. reflexivity.
  - split; [intros Hd; contradiction|].
    intros [Hd|Hd]; [discriminate|]. exfalso. apply Hres. apply Hinv. exact Hd.
Qed.

End DrawImg.

Lemma streaming_draw_complete_witness :
  lv_img_draw_core (env_ex Depth16) (fun _ _ => Some streaming_ex)
    (area 0 0 1 4) (area 0 0 7 9) style_ex [] 255
  = Some (LV_RES_OK, EvCacheOpen true :: rows_trace 0 0 2 rows_ex)
  /\ lv_draw_img (env_ex Depth16) (fun _ _ => Some streaming_ex)
       (area 0 0 1 4) (area 0 0 7 9) style_ex (Some []) 255
     = Some (EvCacheOpen true :: rows_trace 0 0 2 rows_ex).
Proof.
  apply (streaming_draw_complete (env_ex Depth16) (fun _ _ => Some streaming_ex)
           (area 0 0 1 4) (area 0 0 7 9) style_ex [] 255 streaming_ex (area 0 0 1 4) rows_ex).
  - unfold area_small; simpl; lia.
  - unfold area_small; simpl; lia.
  - reflexivity.
  - reflexivity.
  - reflexivity.
  - reflexivity.
  - simpl; lia.
  - intros j calls Hj.
    do 5 (destruct j as [|j];
          [injection Hj as <-; eexists; split; reflexivity|]).
    discriminate.
Defined.

Lemma no_data_placeholder_iff_witness :
  In (EvDrawLabel (area 0 0 1 9) (area 0 0 7 9) no_data) failed_trace_ex
  <-> Some ([] : list Z) = None \/ In (EvCacheOpen false) failed_trace_ex
      \/ read_failed failed_trace_ex.
Proof.
  apply (no_data_placeholder_iff (env_ex Depth16) (fun _ _ => Some streaming_ex)
           (area 0 0 1 9) (area 0 0 7 9) style_ex (Some []) 255 failed_trace_ex).
  - vm_compute. reflexivity.
  - intros s cdsc _ Hopen. injection Hopen as <-. discriminate.
Defined.

(** ** The codec and the renderer together *)

Lemma px_size_byte_true_color env cf :
  true_color cf ->
  px_size_byte env (lv_img_color_format_has_alpha cf) = tc_pitch (LV_COLOR_DEPTH env) cf.
Proof.
  intros [H|[H|H]]; subst cf; unfold px_size_byte; destruct (LV_COLOR_DEPTH env); reflexivity.
Qed.

(** The colour [lv_draw_map] decodes from a pixel whose first bytes are the
    little-endian bytes of [c]. *)
Lemma read_px_color_written env buf base m c :
  0 <= base -> 1 <= m ->
  (LV_COLOR_DEPTH env = Depth16 -> 2 <= m) ->
  (LV_COLOR_DEPTH env = Depth32 -> 3 <= m) ->
  (forall i : nat, Z.of_nat i < m ->
     buf !! Z.to_nat (base + Z.of_nat i) = Z_to_little_endian m 8 c !! i) ->
  read_px_color env buf base
  = Some (decoded_color (LV_COLOR_DEPTH env) (c `mod` 2 ^ LV_COLOR_SIZE (LV_COLOR_DEPTH env))).
Proof.
  intros Hbase Hm H16 H32 Hbytes.
  assert (Hb : forall i : nat, Z.of_nat i < m ->
            buf !! Z.to_nat (base + Z.of_nat i)
            = Some ((c `div` 2 ^ (8 * Z.of_nat i)) `mod` 256)).
  { intros i Hi. rewrite Hbytes by assumption.
    apply Z_to_little_endian_lookup_Some; [lia|lia|]. split; [assumption|].
    rewrite Z.land_ones by lia. rewrite Z.shiftr_div_pow2 by lia.
    rewrite (Z.mul_comm 8). reflexivity. }
  unfold read_px_color, decoded_color.
  rewrite !buf_load_lookup by lia.
  destruct (LV_COLOR_DEPTH env) eqn:Hd; cbn [LV_COLOR_SIZE].
  - change (base + 0) with (base + Z.of_nat 0).
    rewrite (Hb 0%nat) by lia. f_equal.
    change (2 ^ (8 * Z.of_nat 0)) with 1. change (2 ^ 8) with 256.
    rewrite Z.div_1_r. reflexivity.
  - specialize (H16 eq_refl).
    change (base + 1) with (base + Z.of_nat 1).
    change (base + 0) with (base + Z.of_nat 0).
    rewrite (Hb 0%nat), (Hb 1%nat) by lia. cbn [mbind option_bind]. f_equal.
    change (2 ^ (8 * Z.of_nat 0)) with 1. change (2 ^ (8 * Z.of_nat 1)) with 256.
    change (2 ^ 16) with 65536.
    rewrite Z.shiftl_mul_pow2 by lia. change (2 ^ 8) with 256.
    Z.div_mod_to_equations. lia.
  - specialize (H32 eq_refl).
    change (base + 2) with (base + Z.of_nat 2).
    change (base + 1) with (base + Z.of_nat 1).
    change (base + 0) with (base + Z.of_nat 0).
    rewrite (Hb 0%nat), (Hb 1%nat), (Hb 2%nat) by lia. cbn [mbind option_bind]. f_equal.
    change (2 ^ (8 * Z.of_nat 0)) with 1. change (2 ^ (8 * Z.of_nat 1)) with 256.
    change (2 ^ (8 * Z.of_nat 2)) with 65536.
    change (2 ^ 32) with 4294967296.
    rewrite !Z.shiftl_mul_pow2 by lia. change (2 ^ 8) with 256. change (2 ^ 16) with 65536.
    change 16777215 with (Z.ones 24). rewrite Z.land_ones by lia.
    change (2 ^ 24) with 16777216.
    Z.div_mod_to_equations. lia.
Qed.

(** X14: the renderer decodes what the codec writes.  After
    [lv_img_buf_set_px_color] at an in-range pixel of a true colour image,
    the colour [lv_draw_map] decodes at the index of that pixel, with the
    pixel size of the format, is the written colour cut to the colour size
    (its three colour bytes at 32 bit); after [lv_img_buf_set_px_alpha] on
    the format with alpha byte, the alpha [lv_draw_map] reads there is the
    written one. *)
Theorem renderer_reads_written_pixel env dsc x y c v :
  dsc_wf (LV_COLOR_DEPTH env) dsc -> true_color (header_cf (header dsc)) ->
  0 <= x < header_w (header dsc) -> 0 <= y < header_h (header dsc) ->
  (exists dsc',
     lv_img_buf_set_px_color (LV_COLOR_DEPTH env) dsc x y c = Some dsc'
     /\ px_color env (data dsc') (lv_img_color_format_has_alpha (header_cf (header dsc)))
          (header_w (header dsc) * y + x)
        = decoded_color (LV_COLOR_DEPTH env)
            (c `mod` 2 ^ LV_COLOR_SIZE (LV_COLOR_DEPTH env)))
  /\ (header_cf (header dsc) = LV_IMG_CF_TRUE_COLOR_ALPHA ->
      exists dsc',
        lv_img_buf_set_px_alpha (LV_COLOR_DEPTH env) dsc x y v = Some dsc'
        /\ px_alpha env (data dsc') true (header_w (header dsc) * y + x) = v).
Proof.
  intros Hwf Htc Hx Hy. split.
  - destruct (set_px_color_tc _ dsc Hwf Htc x y c Hx Hy) as (buf' & Hset & Hl & Hlk).
    destruct (tc_pitch_cases (LV_COLOR_DEPTH env) _ Htc) as (Hs & HP & Hm & _).
    destruct (tc_px_offset _ dsc Hwf Htc x y Hx Hy) as (_ & H0 & _).
    exists (with_data dsc buf'). split; [exact Hset|].
    unfold px_color. rewrite (px_size_byte_true_color env _ Htc). cbn [with_data data].
    rewrite (read_px_color_written env buf' _ (tc_written (LV_COLOR_DEPTH env)
                                                 (header_cf (header dsc))) c);
      [reflexivity|lia|lia| | |].
    + intros Hd. rewrite Hd. destruct Htc as [H|[H|H]]; rewrite H; vm_compute; congruence.
    + intros Hd. rewrite Hd. destruct Htc as [H|[H|H]]; rewrite H; vm_compute; congruence.
    + intros i Hi. rewrite Hlk.
      assert (Hlen : Z.of_nat (length (Z_to_little_endian
                        (tc_written (LV_COLOR_DEPTH env) (header_cf (header dsc))) 8 c))
                     = tc_written (LV_COLOR_DEPTH env) (header_cf (header dsc)))
        by (apply length_Z_to_little_endian; lia).
      rewrite bool_decide_eq_true_2 by lia. f_equal. lia.
  - intros Hcf.
    destruct (set_px_alpha_tca _ dsc x y Hwf Hcf Hx Hy v) as (dsc' & Hset & Hhd & Hl & Hget & _).
    exists dsc'. split; [exact Hset|].
    assert (Hwf' : dsc_wf (LV_COLOR_DEPTH env) dsc').
    { destruct Hwf as (Hw & Hh & Hlen). unfold dsc_wf. rewrite Hhd, Hl. auto. }
    assert (Hcf' : header_cf (header dsc') = LV_IMG_CF_TRUE_COLOR_ALPHA) by (rewrite Hhd; exact Hcf).
    destruct (get_px_alpha_tca _ dsc' Hwf' Hcf' x y) as (H0 & H1 & _ & Hg);
      [rewrite Hhd; exact Hx|rewrite Hhd; exact Hy|].
    rewrite Hg, Hhd in Hget. rewrite Hhd in H0.
    unfold px_alpha, px_size_byte.
    apply list_lookup_total_correct. rewrite <- Hget. f_equal. lia.
Qed.

Lemma renderer_reads_written_pixel_witness :
  (exists dsc',
     lv_img_buf_set_px_color Depth16
       (img LV_IMG_CF_TRUE_COLOR_ALPHA 2 1 [1; 2; 3; 4; 5; 6]) 1 0 2016 = Some dsc'
     /\ px_color (env_ex Depth16) (data dsc') true (2 * 0 + 1)
        = decoded_color Depth16 (2016 `mod` 2 ^ 16))
  /\ (LV_IMG_CF_TRUE_COLOR_ALPHA = LV_IMG_CF_TRUE_COLOR_ALPHA ->
      exists dsc',
        lv_img_buf_set_px_alpha Depth16
          (img LV_IMG_CF_TRUE_COLOR_ALPHA 2 1 [1; 2; 3; 4; 5; 6]) 1 0 128 = Some dsc'
        /\ px_alpha (env_ex Depth16) (data dsc') true (2 * 0 + 1) = 128).
Proof.
  apply (renderer_reads_written_pixel (env_ex Depth16)
           (img LV_IMG_CF_TRUE_COLOR_ALPHA 2 1 [1; 2; 3; 4; 5; 6]) 1 0 2016 128).
  - unfold dsc_wf. vm_compute. repeat split; congruence.
  - right. left. reflexivity.
  - simpl; lia.
  - simpl; lia.
Defined.
